(** * extended-sdk: the transport and validation pipeline

    A shallow embedding of the TypeScript sources of the SDK
    ([transports/http], [clients/info], [errors], [schemas]) together with
    the properties its specification states about them.

    JavaScript values are modelled as a first-order tree type, promises by
    their settled outcome, and the effects of [HttpTransport.request]
    (timers, abort controllers, the network call) by explicit state
    passing over a [world]. *)

From Stdlib Require Import List String Ascii Bool ZArith QArith Lia.
From Stdlib Require Import Numbers.DecimalString.
Import ListNotations.
Open Scope string_scope.
Set Warnings "-register-all".

(* ================================================================== *)
(** * JavaScript values *)
(* ================================================================== *)

Module JS.

(** The [number] type.  Every finite double is a rational, and the only
    operations the SDK applies to numbers are comparisons and truthiness
    tests, which are exact; [Fin q] therefore stands for the finite
    numbers (with [-0] identified with [0]). *)
Inductive number : Type :=
  | NaN
  | PosInf
  | NegInf
  | Fin (q : Q).

Definition of_Z (z : Z) : number := Fin (inject_Z z).

(** [ToBoolean] on numbers: [0] and [NaN] are falsy. *)
Definition number_truthy (n : number) : bool :=
  match n with
  | NaN => false
  | PosInf | NegInf => true
  | Fin q => negb (Qeq_bool q 0)
  end.

(** [a <= b]; every comparison with [NaN] is [false]. *)
Definition number_le (a b : number) : bool :=
  match a, b with
  | NaN, _ | _, NaN => false
  | NegInf, _ => true
  | _, PosInf => true
  | PosInf, _ => false
  | _, NegInf => false
  | Fin x, Fin y => Qle_bool x y
  end.

(** [a < b]. *)
Definition number_lt (a b : number) : bool :=
  match a, b with
  | NaN, _ | _, NaN => false
  | PosInf, _ => false
  | _, NegInf => false
  | NegInf, _ => true
  | _, PosInf => true
  | Fin x, Fin y => negb (Qle_bool y x)
  end.

Definition number_ge (a b : number) : bool := number_le b a.
Definition number_gt (a b : number) : bool := number_lt b a.

(** [Number.isInteger]. *)
Definition number_isInteger (n : number) : bool :=
  match n with
  | Fin q => Z.eqb (Z.rem (Qnum q) (Zpos (Qden q))) 0
  | _ => false
  end.

(** Values without functions: what [JSON.parse] produces, plus
    [undefined], [NaN] and the infinities.  An object is the list of its
    own properties in enumeration order. *)
Inductive value : Type :=
  | VUndefined
  | VNull
  | VBool (b : bool)
  | VNum (n : number)
  | VStr (s : string)
  | VArr (items : list value)
  | VObj (props : list (string * value)).

(** [ToBoolean]. *)
Definition truthy (v : value) : bool :=
  match v with
  | VUndefined | VNull => false
  | VBool b => b
  | VNum n => number_truthy n
  | VStr s => negb (String.eqb s EmptyString)
  | VArr _ | VObj _ => true
  end.

(** Own-property lookup. *)
Fixpoint assoc {A : Type} (k : string) (l : list (string * A)) : option A :=
  match l with
  | [] => None
  | (k', a) :: r => if String.eqb k k' then Some a else assoc k r
  end.

Definition length_value (n : nat) : value := VNum (of_Z (Z.of_nat n)).

(** A [string] holds the UTF-8 bytes of a well-formed JavaScript string.
    The [length] of a JavaScript string counts UTF-16 code units: one for
    a character of one, two or three bytes, two for a character of four
    bytes.  A byte from 128 to 191 continues a character and counts for
    nothing. *)
Fixpoint utf16_length (s : string) : nat :=
  match s with
  | EmptyString => 0
  | String c r =>
      let byte := nat_of_ascii c in
      (if (byte <? 128)%nat then 1
       else if (byte <? 192)%nat then 0
       else if (byte <? 240)%nat then 1
       else 2)%nat
      + utf16_length r
  end.

(** [v.key] for the property names the SDK reads ([status], [data],
    [error], [pagination], [code], [message], [length]); none of them is
    an array index or a property of [Object.prototype].  [None] is the
    [TypeError] raised on [undefined] and [null]. *)
Definition get (v : value) (key : string) : option value :=
  match v with
  | VUndefined | VNull => None
  | VBool _ | VNum _ => Some VUndefined
  | VStr s =>
      Some (if String.eqb key "length" then length_value (utf16_length s)
            else VUndefined)
  | VArr items =>
      Some (if String.eqb key "length" then length_value (List.length items)
            else VUndefined)
  | VObj props =>
      Some (match assoc key props with Some x => x | None => VUndefined end)
  end.

(** [v === "s"]. *)
Definition is_string (v : value) (s : string) : bool :=
  match v with
  | VStr s' => String.eqb s' s
  | _ => false
  end.

Fixpoint join (sep : string) (l : list string) : string :=
  match l with
  | [] => EmptyString
  | [x] => x
  | x :: r => x ++ sep ++ join sep r
  end.

End JS.
Export JS.

(* ================================================================== *)
(** * Strings: search and replacement *)
(* ================================================================== *)

Module Str.

Fixpoint prefix (p s : string) : bool :=
  match p, s with
  | EmptyString, _ => true
  | String a p', String b s' => Ascii.eqb a b && prefix p' s'
  | String _ _, EmptyString => false
  end.

Fixpoint drop (n : nat) (s : string) : string :=
  match n, s with
  | O, _ => s
  | S n', String _ s' => drop n' s'
  | S _, EmptyString => EmptyString
  end.

(** [s.includes(p)]. *)
Fixpoint includes (p s : string) : bool :=
  prefix p s ||
  match s with
  | EmptyString => false
  | String _ s' => includes p s'
  end.

(** Splits [s] at the first occurrence of [p]: the text before it and the
    text after it. *)
Fixpoint split_first (p s : string) : option (string * string) :=
  if prefix p s then Some (EmptyString, drop (String.length p) s)
  else
    match s with
    | EmptyString => None
    | String c s' =>
        match split_first p s' with
        | Some (before, after) => Some (String c before, after)
        | None => None
        end
    end.

(** [GetSubstitution] for a string pattern (no captures): in the
    replacement text [$$] stands for [$], [$&] for the matched text,
    [$`] for the text before the match and [$'] for the text after it;
    every other character, a lone [$] included, stands for itself. *)
Fixpoint get_substitution (matched before after template : string) : string :=
  match template with
  | EmptyString => EmptyString
  | String "$" (String "$" r) =>
      String "$" (get_substitution matched before after r)
  | String "$" (String "&" r) =>
      matched ++ get_substitution matched before after r
  | String "$" (String "`" r) =>
      before ++ get_substitution matched before after r
  | String "$" (String "'" r) =>
      after ++ get_substitution matched before after r
  | String c r => String c (get_substitution matched before after r)
  end.

(** No character of [s] is the dollar sign. *)
Fixpoint plain (s : string) : bool :=
  match s with
  | EmptyString => true
  | String c r => negb (Ascii.eqb c "$"%char) && plain r
  end.

(** [s.replace(pattern, replacement)] with a string pattern: only the
    first occurrence is replaced. *)
Definition replace (s pattern replacement : string) : string :=
  match split_first pattern s with
  | None => s
  | Some (before, after) =>
      before ++ get_substitution pattern before after replacement ++ after
  end.

End Str.

(* ================================================================== *)
(** * Errors ([errors/base], [errors/transport], [errors/http]) *)
(* ================================================================== *)

Module Errors.

(** The status line of a [Response], printed in decimal. *)
Definition status_text (status : Z) : string :=
  NilZero.string_of_int (Z.to_int status).

(** What settles a rejected promise.  [InvalidInputError] and
    [HttpRequestError] are the SDK's own classes ([HttpRequestError]
    extends [TransportError]); [Error] is the built-in class the client
    raises while unwrapping; [TypeError] is raised by a property read on
    [undefined] or [null]; [Foreign] stands for whatever the network
    primitive, a body reader or a user hook throws, named by a tag. *)
Inductive error : Type :=
  | InvalidInputError (message : string)
  | HttpRequestError (status : Z) (responseBody : option string)
  | Error (message : string)
  | TypeError
  | Foreign (tag : string).

(** The double-quote character. *)
Definition dquote : string := String (ascii_of_nat 34) EmptyString.

(** The message the [HttpRequestError] constructor builds. *)
Definition HttpRequestError_message (status : Z) (responseBody : option string)
  : string :=
  let message := "HTTP request failed: status " ++ status_text status in
  match responseBody with
  | Some body =>
      if String.eqb body EmptyString then message
      else message ++ ", body " ++ dquote ++ body ++ dquote
  | None => message
  end.

Definition is_TransportError (e : error) : bool :=
  match e with
  | HttpRequestError _ _ => true
  | _ => false
  end.

Definition is_InvalidInputError (e : error) : bool :=
  match e with
  | InvalidInputError _ => true
  | _ => false
  end.

(** A settled promise. *)
Inductive outcome (A : Type) : Type :=
  | Resolved (a : A)
  | Rejected (e : error).

Arguments Resolved {A} a.
Arguments Rejected {A} e.

End Errors.
Export Errors.

(* ================================================================== *)
(** * What the platform provides *)
(* ================================================================== *)

(** Built-ins whose results the SDK only passes on: the text of a number
    ([String(n)] and template literals), [JSON.stringify], whether
    [new URL(reference, base)] accepts its arguments ([URL.canParse]) and
    the query pairs the parsed [URL] then carries, and whether
    [new Request(url, init)] accepts a URL (given by its reference and
    base) with the options of [fetchOptions]. *)
Class Platform : Type := {
  Number_toString : number -> string;
  JSON_stringify : value -> string;
  URL_canParse : string -> string -> bool;
  URL_searchParams : string -> list (string * string);
  Request_accepts : string -> string -> list (string * string) -> bool
}.

Section ToString.
Context {P : Platform}.

(** [ToString], as a template literal applies it; [None] is the
    [TypeError] it raises.  An array is joined with commas
    ([Array.prototype.toString]), [undefined] and [null] elements standing
    for the empty text.  An object answers with
    [Object.prototype.toString] unless it has a property [toString] of
    its own: that property is no function (the values hold none), the
    inherited [valueOf] returns the object itself, and the conversion
    raises. *)
Fixpoint ToString (v : value) : option string :=
  match v with
  | VUndefined => Some "undefined"
  | VNull => Some "null"
  | VBool true => Some "true"
  | VBool false => Some "false"
  | VNum n => Some (Number_toString n)
  | VStr s => Some s
  | VArr items =>
      option_map (join ",")
        ((fix each (l : list value) : option (list string) :=
            match l with
            | [] => Some []
            | x :: r =>
                match
                  match x with
                  | VUndefined | VNull => Some EmptyString
                  | _ => ToString x
                  end, each r
                with
                | Some a, Some b => Some (a :: b)
                | _, _ => None
                end
            end) items)
  | VObj props =>
      match assoc "toString" props with
      | Some _ => None
      | None => Some "[object Object]"
      end
  end.

(** The elements of an array, as [Array.prototype.join] converts them:
    what [ToString] does for [VArr]. *)
Fixpoint ToString_each (l : list value) : option (list string) :=
  match l with
  | [] => Some []
  | x :: r =>
      match
        match x with
        | VUndefined | VNull => Some EmptyString
        | _ => ToString x
        end, ToString_each r
      with
      | Some a, Some b => Some (a :: b)
      | _, _ => None
      end
  end.

End ToString.

(* ================================================================== *)
(** * The transport interface ([transports/base]) *)
(* ================================================================== *)

Module Transport.

Inductive Method : Type := GET | POST | PUT | DELETE | PATCH.

(** A query parameter: [string | number | boolean | string[]]. *)
Inductive query_value : Type :=
  | QStr (s : string)
  | QNum (n : number)
  | QBool (b : bool)
  | QArr (items : list string).

(** A path parameter: [string | number]. *)
Inductive path_value : Type :=
  | PStr (s : string)
  | PNum (n : number).

(** An [AbortSignal] is either one the caller made or the one owned by an
    [AbortController] the transport created. *)
Inductive AbortSignal : Type :=
  | CallerSignal (id : nat)
  | ControllerSignal (controller : nat).

(** The arguments of [IRequestTransport.request].  A [Record<string, _>]
    is the list of its entries as [Object.entries] enumerates them;
    [None] is an argument left [undefined]. *)
Record Descriptor : Type := {
  method : Method;
  path : string;
  params : option (list (string * query_value));
  pathParams : option (list (string * path_value));
  signal : option AbortSignal
}.

(** A call of a client method: either it throws before it reaches the
    transport, or it calls [transport.request] once and continues with
    the value the transport resolves to (a rejection of the transport
    rejects the call). *)
Inductive call (A : Type) : Type :=
  | Throws (e : error)
  | Requests (d : Descriptor) (k : value -> outcome A).

Arguments Throws {A} e.
Arguments Requests {A} d k.

(** The requests a call hands to the transport. *)
Definition invocations {A : Type} (c : call A) : list Descriptor :=
  match c with
  | Throws _ => []
  | Requests d _ => [d]
  end.

(** Running a call against a transport. *)
Definition run {A : Type} (transport : Descriptor -> outcome value)
  (c : call A) : outcome A :=
  match c with
  | Throws e => Rejected e
  | Requests d k =>
      match transport d with
      | Resolved response => k response
      | Rejected e => Rejected e
      end
  end.

End Transport.
Export Transport.

(* ================================================================== *)
(** * The info client ([clients/info]) *)
(* ================================================================== *)

Module InfoClient.

Definition is_upper_or_hyphen (c : ascii) : bool :=
  let n := nat_of_ascii c in
  ((65 <=? n)%nat && (n <=? 90)%nat) || (n =? 45)%nat.

Fixpoint all_chars (p : ascii -> bool) (s : string) : bool :=
  match s with
  | EmptyString => true
  | String c r => p c && all_chars p r
  end.

(** [s.match(/^[A-Z-]+$/)] is not [null]: one or more characters, each an
    upper-case letter or a hyphen, and nothing else. *)
Definition matches_market (s : string) : bool :=
  match s with
  | EmptyString => false
  | String _ _ => all_chars is_upper_or_hyphen s
  end.

(** [!market || !market.match(/^[A-Z-]+$/)]. *)
Definition invalid_market (market : string) : bool :=
  String.eqb market EmptyString || negb (matches_market market).

(** [s.match(/^(trades|mark-prices|index-prices)$/)] is not [null]. *)
Definition matches_candleType (s : string) : bool :=
  String.eqb s "trades" || String.eqb s "mark-prices"
  || String.eqb s "index-prices".

(** [s.match(/^(P1H|P1D)$/)] is not [null]. *)
Definition matches_interval (s : string) : bool :=
  String.eqb s "P1H" || String.eqb s "P1D".

(** [!n || n <= 0]. *)
Definition not_positive (n : number) : bool :=
  negb (number_truthy n) || number_le n (of_Z 0).

(** [limit !== undefined && (limit <= 0 || limit > max)]. *)
Definition limit_rejected (limit : option number) (max : Z) : bool :=
  match limit with
  | None => false
  | Some l => number_le l (of_Z 0) || number_gt l (of_Z max)
  end.

(** [if (x !== undefined) params.key = x], on the entries of [params]. *)
Definition set_if_defined (key : string) (x : option number)
  (params : list (string * query_value)) : list (string * query_value) :=
  match x with
  | None => params
  | Some n => params ++ [(key, QNum n)]
  end.

(** The [market] filter of [markets]: [string | string[]]. *)
Inductive market_filter : Type :=
  | OneMarket (name : string)
  | ManyMarkets (names : list string).

(** The [args] of [markets]: [{ market?: string | string[] }]. *)
Record MarketsArgs : Type := {
  args_market : option market_filter
}.

(** [if (args?.market) params.market = args.market], on the entries of
    the empty [params]: an empty string is falsy, an array never is. *)
Definition markets_params (args : option MarketsArgs)
  : list (string * query_value) :=
  match args with
  | Some {| args_market := Some (OneMarket name) |} =>
      if String.eqb name EmptyString then [] else [("market", QStr name)]
  | Some {| args_market := Some (ManyMarkets names) |} =>
      [("market", QArr names)]
  | Some {| args_market := None |} => []
  | None => []
  end.

Section Methods.
Context {P : Platform}.

(** The template literal [`API Error: ${response.error.code} -
    ${response.error.message}`]: each property is read and converted in
    turn.  [None] is the [TypeError] of a read on [undefined] or [null]
    or of a conversion that fails. *)
Definition api_error_message (response : value) : option string :=
  match get response "error" with
  | None => None
  | Some err =>
      match get err "code" with
      | None => None
      | Some code =>
          match ToString code with
          | None => None
          | Some code_text =>
              match get err "message" with
              | None => None
              | Some message =>
                  match ToString message with
                  | None => None
                  | Some message_text =>
                      Some ("API Error: " ++ code_text ++ " - "
                            ++ message_text)
                  end
              end
          end
      end
  end.

(** The envelope handling every method but [funding] ends with. *)
Definition unwrap (response : value) : outcome value :=
  match get response "status" with
  | None => Rejected TypeError
  | Some status =>
      if is_string status "OK" then
        match get response "data" with
        | Some data => Resolved data
        | None => Rejected TypeError
        end
      else if is_string status "ERROR" then
        match api_error_message response with
        | Some message => Rejected (Error message)
        | None => Rejected TypeError
        end
      else
        Rejected (Error ("Unexpected response format: "
                         ++ JSON_stringify response))
  end.

Definition markets (args : option MarketsArgs) (signal : option AbortSignal)
  : call value :=
  Requests
    {| method := GET; path := "info/markets";
       params := Some (markets_params args); pathParams := None;
       signal := signal |}
    unwrap.

Definition marketStats (market : string) (signal : option AbortSignal)
  : call value :=
  if invalid_market market then
    Throws (InvalidInputError "Invalid market input.")
  else
    Requests
      {| method := GET; path := "info/markets/{market}/stats";
         params := None; pathParams := Some [("market", PStr market)];
         signal := signal |}
      unwrap.

Definition marketOrderBook (market : string) (signal : option AbortSignal)
  : call value :=
  Requests
    {| method := GET; path := "info/markets/{market}/orderbook";
       params := None; pathParams := Some [("market", PStr market)];
       signal := signal |}
    unwrap.

Definition marketTrades (market : string) (signal : option AbortSignal)
  : call value :=
  if invalid_market market then
    Throws (InvalidInputError "Invalid market input.")
  else
    Requests
      {| method := GET; path := "info/markets/{market}/trades";
         params := None; pathParams := Some [("market", PStr market)];
         signal := signal |}
      unwrap.

Definition candles (market candleType interval : string) (limit : number)
  (endTime : option number) (signal : option AbortSignal) : call value :=
  if invalid_market market then
    Throws (InvalidInputError "Invalid market input.")
  else if String.eqb interval EmptyString then
    Throws (InvalidInputError "Interval is required.")
  else if not_positive limit then
    Throws (InvalidInputError "Limit must be a positive number.")
  else if negb (matches_candleType candleType) then
    Throws (InvalidInputError "Invalid candleType.")
  else
    Requests
      {| method := GET; path := "info/candles/{market}/{candleType}";
         params :=
           Some (set_if_defined "endTime" endTime
                   [("interval", QStr interval); ("limit", QNum limit)]);
         pathParams :=
           Some [("market", PStr market); ("candleType", PStr candleType)];
         signal := signal |}
      unwrap.

(** What [funding] resolves to: [{ data, pagination }]. *)
Record FundingResult : Type := {
  data : value;
  pagination : value
}.

(** The envelope handling of [funding]. *)
Definition unwrap_funding (response : value) : outcome FundingResult :=
  match get response "status" with
  | None => Rejected TypeError
  | Some status =>
      if is_string status "OK" then
        match get response "data", get response "pagination" with
        | Some d, Some p =>
            if truthy p then Resolved {| data := d; pagination := p |}
            else
              match get d "length" with
              | Some count =>
                  Resolved
                    {| data := d;
                       pagination :=
                         VObj [("cursor", VNum (of_Z 0)); ("count", count)] |}
              | None => Rejected TypeError
              end
        | _, _ => Rejected TypeError
        end
      else if is_string status "ERROR" then
        match api_error_message response with
        | Some message => Rejected (Error message)
        | None => Rejected TypeError
        end
      else
        Rejected (Error ("Unexpected response format: "
                         ++ JSON_stringify response))
  end.

Definition funding (market : string) (startTime endTime : number)
  (cursor limit : option number) (signal : option AbortSignal)
  : call FundingResult :=
  if invalid_market market then
    Throws (InvalidInputError "Invalid market input.")
  else if not_positive startTime then
    Throws (InvalidInputError "Start time must be a positive number.")
  else if not_positive endTime then
    Throws (InvalidInputError "End time must be a positive number.")
  else if number_ge startTime endTime then
    Throws (InvalidInputError "Start time must be before end time.")
  else if limit_rejected limit 10000 then
    Throws (InvalidInputError "Limit must be between 1 and 10000.")
  else
    Requests
      {| method := GET; path := "info/{market}/funding";
         params :=
           Some (set_if_defined "limit" limit
                   (set_if_defined "cursor" cursor
                      [("startTime", QNum startTime);
                       ("endTime", QNum endTime)]));
         pathParams := Some [("market", PStr market)];
         signal := signal |}
      unwrap_funding.

Definition openInterest (market interval : string)
  (startTime endTime : number) (limit : option number)
  (signal : option AbortSignal) : call value :=
  if invalid_market market then
    Throws (InvalidInputError "Invalid market input.")
  else if String.eqb interval EmptyString || negb (matches_interval interval) then
    Throws (InvalidInputError "Interval must be P1H or P1D.")
  else if not_positive startTime then
    Throws (InvalidInputError "Start time must be a positive number.")
  else if not_positive endTime then
    Throws (InvalidInputError "End time must be a positive number.")
  else if number_ge startTime endTime then
    Throws (InvalidInputError "Start time must be before end time.")
  else if limit_rejected limit 300 then
    Throws (InvalidInputError "Limit must be between 1 and 300.")
  else
    Requests
      {| method := GET; path := "info/{market}/open-interests";
         params :=
           Some (set_if_defined "limit" limit
                   [("interval", QStr interval);
                    ("startTime", QNum startTime);
                    ("endTime", QNum endTime)]);
         pathParams := Some [("market", PStr market)];
         signal := signal |}
      unwrap.

End Methods.

End InfoClient.

(* ================================================================== *)
(** * The HTTP transport ([transports/http]) *)
(* ================================================================== *)

Module Http.

(** The result of awaiting something the SDK does not implement (the
    network primitive, a body reader, a user hook): a value, or a thrown
    error named by a tag. *)
Inductive awaited (A : Type) : Type :=
  | Fulfilled (a : A)
  | Failed (tag : string).

Arguments Fulfilled {A} a.
Arguments Failed {A} tag.

(** A [URL]: the reference and the base it was parsed from, and its
    [searchParams]. *)
Record URL : Type := {
  reference : string;
  base : string;
  searchParams : list (string * string)
}.

(** [RequestInit] without [body] and [method]: a [signal] and the other
    options. *)
Record RequestInit : Type := {
  init_signal : option AbortSignal;
  init_other : list (string * string)
}.

Record Request : Type := {
  request_url : URL;
  request_method : Method;
  request_other : list (string * string);
  request_signal : option AbortSignal
}.

(** A [Response]: status, the [content-type] header ([None] when
    [headers.get] yields [null]), and what reading the body as text and
    as JSON comes to. *)
Record Response : Type := {
  status : Z;
  content_type : option string;
  text : awaited string;
  json : awaited value
}.

(** [response.ok]. *)
Definition ok (r : Response) : bool :=
  (200 <=? status r)%Z && (status r <=? 299)%Z.

(** A hook resolves to a replacement or to nothing ([None]). *)
Definition hook (A : Type) : Type := A -> awaited (option A).

(** [timeout?: number | null] as an option of the constructor. *)
Inductive timeout_option : Type :=
  | timeout_absent
  | timeout_null
  | timeout_ms (n : number).

Record HttpTransportOptions : Type := {
  opt_isTestnet : option bool;
  opt_timeout : timeout_option;
  opt_mainnet_api : option string;
  opt_testnet_api : option string;
  opt_fetchOptions : option RequestInit;
  opt_onRequest : option (hook Request);
  opt_onResponse : option (hook Response)
}.

(** The fields of an [HttpTransport]; [timeout = None] is [null]. *)
Record HttpTransport : Type := {
  isTestnet : bool;
  timeout : option number;
  mainnet_api : string;
  testnet_api : string;
  fetchOptions : RequestInit;
  onRequest : option (hook Request);
  onResponse : option (hook Response)
}.

(** [x ?? d]. *)
Definition nullish {A : Type} (x : option A) (d : A) : A :=
  match x with
  | Some a => a
  | None => d
  end.

Definition constructor (options : option HttpTransportOptions)
  : HttpTransport :=
  {| isTestnet :=
       nullish (match options with
                | Some o => opt_isTestnet o
                | None => None
                end) false;
     timeout :=
       match options with
       | Some o =>
           match opt_timeout o with
           | timeout_ms n => Some n
           | timeout_absent | timeout_null => Some (of_Z 10000)
           end
       | None => Some (of_Z 10000)
       end;
     mainnet_api :=
       nullish (match options with
                | Some o => opt_mainnet_api o
                | None => None
                end) "https://app.extended.exchange";
     testnet_api :=
       nullish (match options with
                | Some o => opt_testnet_api o
                | None => None
                end) "https://testnet.extended.exchange";
     fetchOptions :=
       nullish (match options with
                | Some o => opt_fetchOptions o
                | None => None
                end) {| init_signal := None; init_other := [] |};
     onRequest :=
       match options with
       | Some o => opt_onRequest o
       | None => None
       end;
     onResponse :=
       match options with
       | Some o => opt_onResponse o
       | None => None
       end |}.

(** The network primitive. *)
Record Network : Type := {
  fetch : Request -> awaited Response
}.

(** What a call does to the runtime, in order. *)
Inductive event : Type :=
  | ControllerCreated (controller : nat)
  | TimerSet (id : positive) (delay : number) (aborts : nat)
  | TimerCleared (id : positive)
  | Fetched (r : Request).

(** The runtime: the timers that are pending (handle, delay, and the
    controller the callback aborts), the next timer handle, the number of
    abort controllers created so far, and the events so far. *)
Record world : Type := {
  next_timer : positive;
  timers : list (positive * number * nat);
  controllers : nat;
  trace : list event
}.

Definition emit (e : event) (w : world) : world :=
  {| next_timer := next_timer w; timers := timers w;
     controllers := controllers w; trace := trace w ++ [e] |}.

(** [new AbortController()]. *)
Definition new_AbortController (w : world) : nat * world :=
  (controllers w,
   emit (ControllerCreated (controllers w))
     {| next_timer := next_timer w; timers := timers w;
        controllers := S (controllers w); trace := trace w |}).

(** [setTimeout(() => controller?.abort(), delay)]; the handle it
    returns is truthy. *)
Definition setTimeout (aborts : nat) (delay : number) (w : world)
  : positive * world :=
  (next_timer w,
   emit (TimerSet (next_timer w) delay aborts)
     {| next_timer := Pos.succ (next_timer w);
        timers := (next_timer w, delay, aborts) :: timers w;
        controllers := controllers w; trace := trace w |}).

(** [clearTimeout(id)]. *)
Definition clearTimeout (id : positive) (w : world) : world :=
  emit (TimerCleared id)
    {| next_timer := next_timer w;
       timers := filter (fun t => negb (Pos.eqb (fst (fst t)) id)) (timers w);
       controllers := controllers w; trace := trace w |}.

(** [URLSearchParams.append]. *)
Definition searchParams_append (q : list (string * string)) (name v : string)
  : list (string * string) :=
  q ++ [(name, v)].

(** [URLSearchParams.set]: the first pair called [name] takes the value
    and the others of that name go; without such a pair it appends. *)
Fixpoint searchParams_set (q : list (string * string)) (name v : string)
  : list (string * string) :=
  match q with
  | [] => [(name, v)]
  | (k, x) :: r =>
      if String.eqb k name then
        (k, v) :: filter (fun p => negb (String.eqb (fst p) name)) r
      else (k, x) :: searchParams_set r name v
  end.

(** [a || b] where [a] is an object or nothing. *)
Definition or_else {A : Type} (a : option A) (b : A) : A :=
  match a with
  | Some x => x
  | None => b
  end.

(** [await this.hook?.(a)]. *)
Definition call_hook {A : Type} (h : option (hook A)) (a : A)
  : awaited (option A) :=
  match h with
  | Some f => f a
  | None => Fulfilled None
  end.

Section Request.
Context {P : Platform}.

Definition String_of_path_value (v : path_value) : string :=
  match v with
  | PStr s => s
  | PNum n => Number_toString n
  end.

(** The loop over [Object.entries(pathParams)]. *)
Fixpoint apply_path_params (processedPath : string)
  (entries : list (string * path_value)) : string :=
  match entries with
  | [] => processedPath
  | (key, v) :: rest =>
      apply_path_params
        (Str.replace processedPath ("{" ++ key ++ "}")
           (String_of_path_value v))
        rest
  end.

(** The loop over [Object.entries(params)]. *)
Fixpoint add_query_params (q : list (string * string))
  (entries : list (string * query_value)) : list (string * string) :=
  match entries with
  | [] => q
  | (key, v) :: rest =>
      add_query_params
        (match v with
         | QArr items => fold_left (fun q' x => searchParams_append q' key x) items q
         | QStr s => searchParams_set q key s
         | QNum n => searchParams_set q key (Number_toString n)
         | QBool true => searchParams_set q key "true"
         | QBool false => searchParams_set q key "false"
         end)
        rest
  end.

(** The path with its parameters applied, under the fixed prefix: the
    reference handed to [new URL]. *)
Definition url_reference (d : Descriptor) : string :=
  let processedPath :=
    match pathParams d with
    | Some entries => apply_path_params (path d) entries
    | None => path d
    end in
  "/api/v1/" ++ processedPath.

(** [this.isTestnet ? this.server.testnet.api : this.server.mainnet.api]. *)
Definition baseUrl (t : HttpTransport) : string :=
  if isTestnet t then testnet_api t else mainnet_api t.

(** [new URL(`/api/v1/${processedPath}`, baseUrl)] followed by the query
    parameters.  [None] is the [TypeError] the constructor raises on
    arguments it cannot parse. *)
Definition build_url (t : HttpTransport) (d : Descriptor) : option URL :=
  if URL_canParse (url_reference d) (baseUrl t) then
    Some {| reference := url_reference d;
            base := baseUrl t;
            searchParams :=
              match params d with
              | Some entries =>
                  add_query_params (URL_searchParams (url_reference d)) entries
              | None => URL_searchParams (url_reference d)
              end |}
  else None.

(** [this.timeout ? ... : null]. *)
Definition timeout_set (t : HttpTransport) : option number :=
  match timeout t with
  | Some n => if number_truthy n then Some n else None
  | None => None
  end.

(** [new Request(url, { method, ...this.fetchOptions, signal: signal ||
    controller?.signal })].  [None] is the [TypeError] the constructor
    raises on a URL or on options it does not accept. *)
Definition build_request (t : HttpTransport) (url : URL) (d : Descriptor)
  (controller : option nat) : option Request :=
  if Request_accepts (reference url) (base url) (init_other (fetchOptions t))
  then
    Some {| request_url := url;
            request_method := method d;
            request_other := init_other (fetchOptions t);
            request_signal :=
              match signal d with
              | Some s => Some s
              | None => option_map ControllerSignal controller
              end |}
  else None.

(** [contentType?.includes("application/json")]. *)
Definition is_json_content (r : Response) : bool :=
  match content_type r with
  | Some ct => Str.includes "application/json" ct
  | None => false
  end.

(** What follows the hooks: the classification of the final response. *)
Definition classify (finalResponse : Response) : outcome value :=
  if negb (ok finalResponse) then
    let responseBody :=
      match text finalResponse with
      | Fulfilled body => Some body
      | Failed _ => None
      end in
    Rejected (HttpRequestError (status finalResponse) responseBody)
  else if negb (is_json_content finalResponse) then
    Rejected
      (HttpRequestError (status finalResponse)
         (Some ("Expected JSON response, got "
                ++ match content_type finalResponse with
                   | Some ct => ct
                   | None => "null"
                   end)))
  else
    match json finalResponse with
    | Fulfilled v => Resolved v
    | Failed tag => Rejected (Foreign tag)
    end.

(** [(await this.onRequest?.(request)) || request]. *)
Definition final_request (t : HttpTransport) (request : Request)
  : awaited Request :=
  match call_hook (onRequest t) request with
  | Failed tag => Failed tag
  | Fulfilled modifiedRequest => Fulfilled (or_else modifiedRequest request)
  end.

(** [fetch(finalRequest)], then
    [(await this.onResponse?.(response)) || response]. *)
Definition final_response (t : HttpTransport) (net : Network)
  (finalRequest : Request) : awaited Response :=
  match fetch net finalRequest with
  | Failed tag => Failed tag
  | Fulfilled response =>
      match call_hook (onResponse t) response with
      | Failed tag => Failed tag
      | Fulfilled modifiedResponse =>
          Fulfilled (or_else modifiedResponse response)
      end
  end.

(** The body of the [try] block; an error thrown on the way leaves it. *)
Definition attempt (t : HttpTransport) (net : Network) (url : URL)
  (d : Descriptor) (controller : option nat) (w : world)
  : outcome value * world :=
  match build_request t url d controller with
  | None => (Rejected TypeError, w)
  | Some request =>
      match final_request t request with
      | Failed tag => (Rejected (Foreign tag), w)
      | Fulfilled finalRequest =>
          let w' := emit (Fetched finalRequest) w in
          match final_response t net finalRequest with
          | Failed tag => (Rejected (Foreign tag), w')
          | Fulfilled finalResponse => (classify finalResponse, w')
          end
      end
  end.

(** [HttpTransport.request]: the URL is made before the controller and
    the timer, the request inside the [try] block whose [finally] clears
    the timer. *)
Definition request (t : HttpTransport) (net : Network) (d : Descriptor)
  (w : world) : outcome value * world :=
  match build_url t d with
  | None => (Rejected TypeError, w)
  | Some url =>
      match timeout_set t with
      | Some ms =>
          let '(controller, w1) := new_AbortController w in
          let '(timeoutId, w2) := setTimeout controller ms w1 in
          let '(result, w3) := attempt t net url d (Some controller) w2 in
          (result, clearTimeout timeoutId w3)
      | None => attempt t net url d None w
      end
  end.

End Request.

End Http.

(* ================================================================== *)
(** * Schemas ([schemas]) *)
(* ================================================================== *)

(** The validators are built from zod's combinators.  [Zod] gives the
    combinators the schemas use their parsing behaviour: [z.object]
    without [.strict()] or [.passthrough()] drops the keys its shape does
    not name. *)
Module Zod.

Inductive check : Type :=
  | int
  | positive_
  | min (bound : Z)
  | max (bound : Z).

(** A schema, or [unloaded]: the [undefined] that stands where a schema
    was expected, because the binding of an import was read before the
    module that exports it had set it. *)
Inductive schema : Type :=
  | z_string
  | z_boolean
  | z_number (checks : list check)
  | z_literal (lit : string)
  | z_enum (values : list string)
  | z_union (options : list schema)
  | z_array (item : schema)
  | z_optional (inner : schema)
  | z_object (shape : list (string * schema))
  | z_discriminatedUnion (discriminator : string) (options : list schema)
  | unloaded.

Definition check_ok (n : number) (c : check) : bool :=
  match c with
  | int => number_isInteger n
  | positive_ => negb (number_le n (of_Z 0))
  | min bound => negb (number_lt n (of_Z bound))
  | max bound => negb (number_gt n (of_Z bound))
  end.

Definition is_undefined (v : value) : bool :=
  match v with
  | VUndefined => true
  | _ => false
  end.

(** [data[key]]. *)
Definition field (key : string) (props : list (string * value)) : value :=
  match assoc key props with
  | Some x => x
  | None => VUndefined
  end.

(** [key in data]. *)
Definition has (key : string) (props : list (string * value)) : bool :=
  match assoc key props with
  | Some _ => true
  | None => false
  end.

(** The literal an option of a discriminated union is filed under. *)
Definition discriminator_of (discriminator : string) (option_ : schema)
  : option string :=
  match option_ with
  | z_object shape =>
      match assoc discriminator shape with
      | Some (z_literal lit) => Some lit
      | _ => None
      end
  | _ => None
  end.

(** What [schema._parse] comes to: the parsed data, issues, or a
    [TypeError] thrown on the way (the call of [_parse] on
    [undefined]). *)
Inductive parsed (A : Type) : Type :=
  | Valid (a : A)
  | Invalid
  | Raised.

Arguments Valid {A} a.
Arguments Invalid {A}.
Arguments Raised {A}.

Definition parsed_map {A B : Type} (f : A -> B) (x : parsed A) : parsed B :=
  match x with
  | Valid a => Valid (f a)
  | Invalid => Invalid
  | Raised => Raised
  end.

(** [schema._parse].  An object and an array parse all their members
    before they look at the results, so a member that raises makes them
    raise whatever the other members come to; a union stops at the first
    option that accepts. *)
Fixpoint parse (s : schema) (v : value) {struct s} : parsed value :=
  match s with
  | z_string =>
      match v with
      | VStr _ => Valid v
      | _ => Invalid
      end
  | z_boolean =>
      match v with
      | VBool _ => Valid v
      | _ => Invalid
      end
  | z_number checks =>
      match v with
      | VNum NaN => Invalid
      | VNum n => if forallb (check_ok n) checks then Valid v else Invalid
      | _ => Invalid
      end
  | z_literal lit => if is_string v lit then Valid v else Invalid
  | z_enum values =>
      match v with
      | VStr x => if existsb (String.eqb x) values then Valid v else Invalid
      | _ => Invalid
      end
  | z_union options =>
      (fix first (l : list schema) : parsed value :=
         match l with
         | [] => Invalid
         | o :: r =>
             match parse o v with
             | Valid out => Valid out
             | Invalid => first r
             | Raised => Raised
             end
         end) options
  | z_array item =>
      match v with
      | VArr items =>
          parsed_map VArr
            ((fix each (l : list value) : parsed (list value) :=
                match l with
                | [] => Valid []
                | x :: r =>
                    match parse item x, each r with
                    | Raised, _ | _, Raised => Raised
                    | Valid y, Valid ys => Valid (y :: ys)
                    | _, _ => Invalid
                    end
                end) items)
      | _ => Invalid
      end
  | z_optional inner =>
      match v with
      | VUndefined => Valid VUndefined
      | _ => parse inner v
      end
  | z_object shape =>
      match v with
      | VObj props =>
          parsed_map VObj
            ((fix fields (sh : list (string * schema))
                : parsed (list (string * value)) :=
                match sh with
                | [] => Valid []
                | (key, ks) :: r =>
                    match parse ks (field key props), fields r with
                    | Raised, _ | _, Raised => Raised
                    | Valid y, Valid ys =>
                        if negb (is_undefined y) || has key props
                        then Valid ((key, y) :: ys)
                        else Valid ys
                    | _, _ => Invalid
                    end
                end) shape)
      | _ => Invalid
      end
  | z_discriminatedUnion discriminator options =>
      match v with
      | VObj props =>
          (fix pick (l : list schema) : parsed value :=
             match l with
             | [] => Invalid
             | o :: r =>
                 match discriminator_of discriminator o with
                 | Some lit =>
                     if is_string (field discriminator props) lit
                     then parse o v
                     else pick r
                 | None => pick r
                 end
             end) options
      | _ => Invalid
      end
  | unloaded => Raised
  end.

(** The fields of an object schema, parsed against the properties of
    the input: what [parse] does for [z_object]. *)
Fixpoint parse_fields (props : list (string * value))
  (shape : list (string * schema)) : parsed (list (string * value)) :=
  match shape with
  | [] => Valid []
  | (key, ks) :: r =>
      match parse ks (field key props), parse_fields props r with
      | Raised, _ | _, Raised => Raised
      | Valid y, Valid ys =>
          if negb (is_undefined y) || has key props
          then Valid ((key, y) :: ys)
          else Valid ys
      | _, _ => Invalid
      end
  end.

(** The items of an array schema: what [parse] does for [z_array]. *)
Fixpoint parse_items (item : schema) (l : list value)
  : parsed (list value) :=
  match l with
  | [] => Valid []
  | x :: r =>
      match parse item x, parse_items item r with
      | Raised, _ | _, Raised => Raised
      | Valid y, Valid ys => Valid (y :: ys)
      | _, _ => Invalid
      end
  end.

(** The options of a union: what [parse] does for [z_union]. *)
Fixpoint parse_first (options : list schema) (v : value) : parsed value :=
  match options with
  | [] => Invalid
  | o :: r =>
      match parse o v with
      | Valid out => Valid out
      | Invalid => parse_first r v
      | Raised => Raised
      end
  end.

(** The option of a discriminated union an object is parsed with: what
    [parse] does for [z_discriminatedUnion]. *)
Fixpoint parse_pick (discriminator : string) (options : list schema)
  (props : list (string * value)) : parsed value :=
  match options with
  | [] => Invalid
  | o :: r =>
      match discriminator_of discriminator o with
      | Some lit =>
          if is_string (field discriminator props) lit
          then parse o (VObj props)
          else parse_pick discriminator r props
      | None => parse_pick discriminator r props
      end
  end.

(** [schema.safeParse(v)]: [{ success: true, data }] or
    [{ success: false, error }]. *)
Inductive SafeParseResult : Type :=
  | Success (data : value)
  | Failure.

(** [safeParse] catches nothing: [None] is the [TypeError] thrown while
    parsing. *)
Definition safeParse (s : schema) (v : value) : option SafeParseResult :=
  match parse s v with
  | Valid out => Some (Success out)
  | Invalid => Some Failure
  | Raised => None
  end.

(** No [undefined] stands anywhere in the schema. *)
Fixpoint loaded (s : schema) : bool :=
  match s with
  | z_union options =>
      (fix all (l : list schema) : bool :=
         match l with
         | [] => true
         | o :: r => loaded o && all r
         end) options
  | z_array item => loaded item
  | z_optional inner => loaded inner
  | z_object shape =>
      (fix all (sh : list (string * schema)) : bool :=
         match sh with
         | [] => true
         | (_, ks) :: r => loaded ks && all r
         end) shape
  | z_discriminatedUnion _ options =>
      (fix all (l : list schema) : bool :=
         match l with
         | [] => true
         | o :: r => loaded o && all r
         end) options
  | unloaded => false
  | _ => true
  end.

(** [schema.extend(augmentation)] on shapes: a key already there keeps
    its place and takes the new schema, a new key goes to the end. *)
Fixpoint put (key : string) (s : schema) (shape : list (string * schema))
  : list (string * schema) :=
  match shape with
  | [] => [(key, s)]
  | (k, x) :: r =>
      if String.eqb k key then (k, s) :: r else (k, x) :: put key s r
  end.

Definition extend (base : schema) (augmentation : list (string * schema))
  : schema :=
  match base with
  | z_object shape =>
      z_object (fold_left (fun sh p => put (fst p) (snd p) sh)
                  augmentation shape)
  | other => other
  end.

End Zod.

Module Schemas.
Import Zod.

(** [schemas/info/markets] imports [MarketStatsSchema] from
    [schemas/info/market/stats], and that module imports
    [MarketErrorCodeSchema] from [schemas/info/markets]; both use the
    import while they are loaded.  Whichever of the two is entered first
    waits for the other, which runs to its end while the bindings of the
    first are still unset and reads [undefined] for the one it imports.
    [schemas/index], [market/book] and [market/trades] enter [markets]
    first; importing [market/stats] directly enters [stats] first.  (A
    loader that keeps bindings in their temporal dead zone faults on the
    read instead and loads neither module; the schemas here are those of
    a loader that reads [undefined], as the CommonJS output does.) *)
Inductive entered_first : Type :=
  | markets_module
  | stats_module.

(** ** [schemas/errors] *)

Definition GeneralErrorCodeSchema : schema :=
  z_enum ["BAD_REQUEST"; "UNAUTHORIZED"; "FORBIDDEN"; "NOT_FOUND";
          "UNPROCESSABLE_ENTITY"; "INTERNAL_SERVER_ERROR"].

Definition MarketAssetAccountErrorCodeSchema : schema :=
  z_enum ["AssetNotFound"; "MarketNotFound"; "MarketDisabled";
          "MarketGroupNotFound"; "AccountNotFound"; "NotSupportedInterval";
          "UnhandledError"; "ClientNotFound"; "ActionNotAllowed";
          "MaintenanceMode"; "PostOnlyMode"; "ReduceOnlyMode";
          "InvalidPercentage"; "MarketReduceOnly"].

(** ** [schemas/info/market/stats] *)

Definition MarketStatsSchema : schema :=
  z_object
    [("dailyVolume", z_string);
     ("dailyVolumeBase", z_string);
     ("dailyPriceChange", z_optional z_string);
     ("dailyPriceChangePercentage", z_string);
     ("dailyLow", z_string);
     ("dailyHigh", z_string);
     ("lastPrice", z_string);
     ("askPrice", z_string);
     ("bidPrice", z_string);
     ("markPrice", z_string);
     ("indexPrice", z_string);
     ("fundingRate", z_string);
     ("nextFundingRate", z_number [int; positive_]);
     ("openInterest", z_string);
     ("openInterestBase", z_string)].

Definition DeleverageLevel : schema :=
  z_object
    [("level", z_number [int; min 1; max 4]);
     ("rankingLowerBound", z_string)].

Definition DeleverageLevelsSchema : schema :=
  z_object
    [("shortPositions", z_array DeleverageLevel);
     ("longPositions", z_array DeleverageLevel)].

Definition MarketStatsWithDeleverageSchema : schema :=
  extend MarketStatsSchema
    [("dailyPriceChange", z_string);
     ("deleverageLevels", DeleverageLevelsSchema)].

(** [MarketStatsSchema] as [schemas/info/markets] reads it. *)
Definition imported_MarketStatsSchema (first : entered_first) : schema :=
  match first with
  | markets_module => MarketStatsSchema
  | stats_module => unloaded
  end.

(** ** [schemas/info/markets] *)

Definition MarketStatusSchema : schema :=
  z_enum ["ACTIVE"; "REDUCE_ONLY"; "DELISTED"; "PRELISTED"; "DISABLED"].

Definition MarketErrorCodeSchema : schema :=
  z_union [GeneralErrorCodeSchema; MarketAssetAccountErrorCodeSchema].

Definition TradeSideSchema : schema := z_enum ["BUY"; "SELL"].

Definition TradeTypeSchema : schema :=
  z_enum ["TRADE"; "LIQUIDATION"; "DELEVERAGE"].

Definition MarketTradeSchema : schema :=
  z_object
    [("i", z_number [int]);
     ("m", z_string);
     ("S", TradeSideSchema);
     ("tT", TradeTypeSchema);
     ("T", z_number [int; positive_]);
     ("p", z_string);
     ("q", z_string)].

Definition TradingConfigSchema : schema :=
  z_object
    [("minOrderSize", z_string);
     ("minOrderSizeChange", z_string);
     ("minPriceChange", z_string);
     ("maxMarketOrderValue", z_string);
     ("maxLimitOrderValue", z_string);
     ("maxPositionValue", z_string);
     ("maxLeverage", z_string);
     ("maxNumOrders", z_string);
     ("limitPriceCap", z_string);
     ("limitPriceFloor", z_string)].

Definition L2ConfigSchema : schema :=
  z_object
    [("type", z_literal "STARKX");
     ("collateralId", z_string);
     ("collateralResolution", z_number [int; positive_]);
     ("syntheticId", z_string);
     ("syntheticResolution", z_number [int; positive_])].

Definition ExtendedMarketDataSchema (first : entered_first) : schema :=
  z_object
    [("name", z_string);
     ("assetName", z_string);
     ("assetPrecision", z_number [int; min 0]);
     ("collateralAssetName", z_string);
     ("collateralAssetPrecision", z_number [int; min 0]);
     ("active", z_boolean);
     ("status", MarketStatusSchema);
     ("marketStats", imported_MarketStatsSchema first);
     ("tradingConfig", TradingConfigSchema);
     ("l2Config", L2ConfigSchema);
     ("visibleOnUi", z_boolean);
     ("createdAt", z_number [int; positive_])].

(** The [ERROR] variant every endpoint declares, over its code union. *)
Definition error_variant (codes : schema) : schema :=
  z_object
    [("status", z_literal "ERROR");
     ("error", z_object [("code", codes); ("message", z_string)])].

Definition GetExtendedMarketsSuccessSchema (first : entered_first) : schema :=
  z_object
    [("status", z_literal "OK");
     ("data", z_array (ExtendedMarketDataSchema first))].

Definition GetExtendedMarketsErrorSchema : schema :=
  error_variant MarketErrorCodeSchema.

Definition GetExtendedMarketsResponseSchema (first : entered_first) : schema :=
  z_discriminatedUnion "status"
    [GetExtendedMarketsSuccessSchema first; GetExtendedMarketsErrorSchema].

(** ** [schemas/info/market/stats], the response *)

(** [MarketErrorCodeSchema] as [schemas/info/market/stats] reads it. *)
Definition imported_MarketErrorCodeSchema (first : entered_first) : schema :=
  match first with
  | markets_module => unloaded
  | stats_module => MarketErrorCodeSchema
  end.

Definition GetMarketStatsSuccessSchema : schema :=
  z_object
    [("status", z_literal "OK");
     ("data", MarketStatsWithDeleverageSchema)].

Definition GetMarketStatsErrorSchema (first : entered_first) : schema :=
  error_variant (imported_MarketErrorCodeSchema first).

Definition GetMarketStatsResponseSchema (first : entered_first) : schema :=
  z_discriminatedUnion "status"
    [GetMarketStatsSuccessSchema; GetMarketStatsErrorSchema first].

(** ** [schemas/info/market/book] *)

Definition OrderBookEntrySchema : schema :=
  z_object [("qty", z_string); ("price", z_string)].

Definition MarketOrderBookSchema : schema :=
  z_object
    [("market", z_string);
     ("bid", z_array OrderBookEntrySchema);
     ("ask", z_array OrderBookEntrySchema)].

Definition GetMarketOrderBookSuccessSchema : schema :=
  z_object [("status", z_literal "OK"); ("data", MarketOrderBookSchema)].

Definition GetMarketOrderBookErrorSchema : schema :=
  error_variant MarketErrorCodeSchema.

Definition GetMarketOrderBookResponseSchema : schema :=
  z_discriminatedUnion "status"
    [GetMarketOrderBookSuccessSchema; GetMarketOrderBookErrorSchema].

(** ** [schemas/info/market/trades] *)

Definition GetMarketTradesSuccessSchema : schema :=
  z_object [("status", z_literal "OK"); ("data", z_array MarketTradeSchema)].

Definition GetMarketTradesErrorSchema : schema :=
  error_variant MarketErrorCodeSchema.

Definition GetMarketTradesResponseSchema : schema :=
  z_discriminatedUnion "status"
    [GetMarketTradesSuccessSchema; GetMarketTradesErrorSchema].

(** ** [schemas/info/market/candles] *)

Definition CandleSchema : schema :=
  z_object
    [("o", z_string);
     ("c", z_string);
     ("h", z_string);
     ("l", z_string);
     ("v", z_optional z_string);
     ("T", z_number [int])].

Definition GetCandlesHistorySuccessSchema : schema :=
  z_object [("status", z_literal "OK"); ("data", z_array CandleSchema)].

Definition GetCandlesHistoryErrorSchema : schema :=
  error_variant GeneralErrorCodeSchema.

Definition GetCandlesHistoryResponseSchema : schema :=
  z_discriminatedUnion "status"
    [GetCandlesHistorySuccessSchema; GetCandlesHistoryErrorSchema].

(** ** [schemas/info/market/funding] *)

Definition FundingRateSchema : schema :=
  z_object
    [("m", z_string); ("T", z_number [int]); ("f", z_string)].

Definition PaginationSchema : schema :=
  z_object [("cursor", z_number [int]); ("count", z_number [int])].

Definition GetFundingHistorySuccessSchema : schema :=
  z_object
    [("status", z_literal "OK");
     ("data", z_array FundingRateSchema);
     ("pagination", z_optional PaginationSchema)].

Definition GetFundingHistoryErrorSchema : schema :=
  error_variant GeneralErrorCodeSchema.

Definition GetFundingResponseSchema : schema :=
  z_discriminatedUnion "status"
    [GetFundingHistorySuccessSchema; GetFundingHistoryErrorSchema].

(** ** [schemas/info/market/oi] *)

Definition OpenInterestSchema : schema :=
  z_object [("i", z_string); ("I", z_string); ("t", z_number [int])].

Definition GetOpenInterestSuccessSchema : schema :=
  z_object [("status", z_literal "OK"); ("data", z_array OpenInterestSchema)].

Definition GetOpenInterestErrorSchema : schema :=
  error_variant GeneralErrorCodeSchema.

Definition GetOpenInterestResponseSchema : schema :=
  z_discriminatedUnion "status"
    [GetOpenInterestSuccessSchema; GetOpenInterestErrorSchema].

(** An endpoint's response schema with its two variants, the schema of
    its [data] and its code union, as they stand once the modules are
    loaded. *)
Record endpoint : Type := {
  response : schema;
  success : schema;
  failure : schema;
  payload : schema;
  codes : schema
}.

Definition endpoints (first : entered_first) : list endpoint :=
  [ {| response := GetExtendedMarketsResponseSchema first;
       success := GetExtendedMarketsSuccessSchema first;
       failure := GetExtendedMarketsErrorSchema;
       payload := z_array (ExtendedMarketDataSchema first);
       codes := MarketErrorCodeSchema |};
    {| response := GetMarketStatsResponseSchema first;
       success := GetMarketStatsSuccessSchema;
       failure := GetMarketStatsErrorSchema first;
       payload := MarketStatsWithDeleverageSchema;
       codes := imported_MarketErrorCodeSchema first |};
    {| response := GetMarketOrderBookResponseSchema;
       success := GetMarketOrderBookSuccessSchema;
       failure := GetMarketOrderBookErrorSchema;
       payload := MarketOrderBookSchema;
       codes := MarketErrorCodeSchema |};
    {| response := GetMarketTradesResponseSchema;
       success := GetMarketTradesSuccessSchema;
       failure := GetMarketTradesErrorSchema;
       payload := z_array MarketTradeSchema;
       codes := MarketErrorCodeSchema |};
    {| response := GetCandlesHistoryResponseSchema;
       success := GetCandlesHistorySuccessSchema;
       failure := GetCandlesHistoryErrorSchema;
       payload := z_array CandleSchema;
       codes := GeneralErrorCodeSchema |};
    {| response := GetFundingResponseSchema;
       success := GetFundingHistorySuccessSchema;
       failure := GetFundingHistoryErrorSchema;
       payload := z_array FundingRateSchema;
       codes := GeneralErrorCodeSchema |};
    {| response := GetOpenInterestResponseSchema;
       success := GetOpenInterestSuccessSchema;
       failure := GetOpenInterestErrorSchema;
       payload := z_array OpenInterestSchema;
       codes := GeneralErrorCodeSchema |} ].

End Schemas.

(* ================================================================== *)
(** * A platform for worked examples *)
(* ================================================================== *)

Module Example.

(** Prints the integers as JavaScript does; the examples print no other
    finite number. *)
Definition number_text (n : number) : string :=
  match n with
  | NaN => "NaN"
  | PosInf => "Infinity"
  | NegInf => "-Infinity"
  | Fin q => NilZero.string_of_int (Z.to_int (Qnum q / Zpos (Qden q)))
  end.

(** [JSON.stringify] on strings that need no escaping. *)
Fixpoint stringify (v : value) : string :=
  match v with
  | VUndefined => "undefined"
  | VNull => "null"
  | VBool true => "true"
  | VBool false => "false"
  | VNum (Fin q) => number_text (Fin q)
  | VNum _ => "null"
  | VStr s => dquote ++ s ++ dquote
  | VArr items =>
      "[" ++ join ","
               (map (fun x =>
                       match x with
                       | VUndefined => "null"
                       | _ => stringify x
                       end) items) ++ "]"
  | VObj props =>
      "{" ++ join ","
               ((fix members (l : list (string * value)) : list string :=
                   match l with
                   | [] => []
                   | (_, VUndefined) :: r => members r
                   | (k, x) :: r =>
                       (dquote ++ k ++ dquote ++ ":" ++ stringify x)
                       :: members r
                   end) props) ++ "}"
  end.

(** A platform for the examples.  Of the bases it knows the two default
    servers, which every parser accepts with a reference that starts with
    a slash; the one other base the examples use is no URL.  Its URLs
    carry no query of their own, and it refuses a request whose options
    ask for the mode [navigate], as [new Request] does. *)
Definition platform : Platform :=
  {| Number_toString := number_text;
     JSON_stringify := stringify;
     URL_canParse :=
       fun _ base =>
         String.eqb base "https://app.extended.exchange"
         || String.eqb base "https://testnet.extended.exchange";
     URL_searchParams := fun _ => [];
     Request_accepts :=
       fun _ _ other =>
         negb (existsb (fun p => String.eqb (fst p) "mode"
                                 && String.eqb (snd p) "navigate") other) |}.

(** A network that answers every request with the same response. *)
Definition answering (r : Http.Response) : Http.Network :=
  {| Http.fetch := fun _ => Http.Fulfilled r |}.

Definition fresh : Http.world :=
  {| Http.next_timer := 1%positive; Http.timers := [];
     Http.controllers := 0; Http.trace := [] |}.

Definition btc_funding_request : Descriptor :=
  {| method := GET; path := "info/{market}/funding";
     params := Some [("startTime", QNum (of_Z 1)); ("endTime", QNum (of_Z 2))];
     pathParams := Some [("market", PStr "BTC-USD")];
     signal := None |}.

Definition two_rates_data : value :=
  VArr [VObj [("m", VStr "BTC-USD"); ("T", VNum (of_Z 1));
              ("f", VStr "0.0001")];
        VObj [("m", VStr "BTC-USD"); ("T", VNum (of_Z 2));
              ("f", VStr "0.0002")]].

Definition two_rates : value :=
  VObj [("status", VStr "OK"); ("data", two_rates_data)].

Definition markets_request (sig : option AbortSignal) : Descriptor :=
  {| method := GET; path := "info/markets";
     params := Some [("market", QArr ["BTC-USD"; "ETH-USD"]);
                     ("limit", QNum (of_Z 3))];
     pathParams := None;
     signal := sig |}.

Definition not_found : Http.Response :=
  {| Http.status := 404;
     Http.content_type := Some "text/plain";
     Http.text := Http.Fulfilled "nope";
     Http.json := Http.Failed "SyntaxError" |}.

Definition json_response (v : value) : Http.Response :=
  {| Http.status := 200;
     Http.content_type := Some "application/json; charset=utf-8";
     Http.text := Http.Failed "body used";
     Http.json := Http.Fulfilled v |}.

Definition adl_level : list (string * value) :=
  [("level", VNum (of_Z 3)); ("rankingLowerBound", VStr "0.5")].

Definition btc_stats : value :=
  VObj [("dailyVolume", VStr "39659164065");
        ("dailyVolumeBase", VStr "39659164065");
        ("dailyPriceChange", VStr "-143.5");
        ("dailyPriceChangePercentage", VStr "-0.0023");
        ("dailyLow", VStr "61438.5");
        ("dailyHigh", VStr "63237.7");
        ("lastPrice", VStr "61887.2");
        ("askPrice", VStr "61887.3");
        ("bidPrice", VStr "61887.1");
        ("markPrice", VStr "61890.0");
        ("indexPrice", VStr "61891.4");
        ("fundingRate", VStr "0.0001");
        ("nextFundingRate", VNum (of_Z 1701563440));
        ("openInterest", VStr "505");
        ("openInterestBase", VStr "0.008");
        ("deleverageLevels",
         VObj [("shortPositions", VArr [VObj adl_level]);
               ("longPositions", VArr [])])].

Definition candles_endpoint : Schemas.endpoint :=
  {| Schemas.response := Schemas.GetCandlesHistoryResponseSchema;
     Schemas.success := Schemas.GetCandlesHistorySuccessSchema;
     Schemas.failure := Schemas.GetCandlesHistoryErrorSchema;
     Schemas.payload := Zod.z_array Schemas.CandleSchema;
     Schemas.codes := Schemas.GeneralErrorCodeSchema |}.

(** An [OK] envelope with one candle, and the same envelope with a key
    more in the envelope and a key more in the candle. *)
Definition a_candle : list (string * value) :=
  [("o", VStr "1"); ("c", VStr "2"); ("h", VStr "3"); ("l", VStr "0");
   ("T", VNum (of_Z 1700000000000))].

Definition one_candle : value :=
  VObj [("status", VStr "OK"); ("data", VArr [VObj a_candle])].

Definition one_candle_and_more : value :=
  VObj [("status", VStr "OK");
        ("data", VArr [VObj (a_candle ++ [("note", VStr "x")])]);
        ("extra", VNull)].

(** A response with status 200 and a given [content-type] header. *)
Definition typed_response (contentType : option string) (v : value)
  : Http.Response :=
  {| Http.status := 200;
     Http.content_type := contentType;
     Http.text := Http.Failed "body used";
     Http.json := Http.Fulfilled v |}.

(** Options that set nothing. *)
Definition no_options : Http.HttpTransportOptions :=
  {| Http.opt_isTestnet := None;
     Http.opt_timeout := Http.timeout_absent;
     Http.opt_mainnet_api := None;
     Http.opt_testnet_api := None;
     Http.opt_fetchOptions := None;
     Http.opt_onRequest := None;
     Http.opt_onResponse := None |}.

(** An [onResponse] hook that answers every response with the same
    replacement. *)
Definition replacing_response (r : Http.Response)
  : Http.HttpTransportOptions :=
  {| Http.opt_isTestnet := None;
     Http.opt_timeout := Http.timeout_absent;
     Http.opt_mainnet_api := None;
     Http.opt_testnet_api := None;
     Http.opt_fetchOptions := None;
     Http.opt_onRequest := None;
     Http.opt_onResponse := Some (fun _ => Http.Fulfilled (Some r)) |}.

(** An [onRequest] hook that answers every request with a copy that
    carries another signal. *)
Definition resignalling (s : AbortSignal) : Http.HttpTransportOptions :=
  {| Http.opt_isTestnet := None;
     Http.opt_timeout := Http.timeout_absent;
     Http.opt_mainnet_api := None;
     Http.opt_testnet_api := None;
     Http.opt_fetchOptions := None;
     Http.opt_onRequest :=
       Some (fun r =>
               Http.Fulfilled
                 (Some {| Http.request_url := Http.request_url r;
                          Http.request_method := Http.request_method r;
                          Http.request_other := Http.request_other r;
                          Http.request_signal := Some s |}));
     Http.opt_onResponse := None |}.

(** Options that name a main-net server. *)
Definition with_server (api : string) : Http.HttpTransportOptions :=
  {| Http.opt_isTestnet := None;
     Http.opt_timeout := Http.timeout_absent;
     Http.opt_mainnet_api := Some api;
     Http.opt_testnet_api := None;
     Http.opt_fetchOptions := None;
     Http.opt_onRequest := None;
     Http.opt_onResponse := None |}.

(** Options whose [fetchOptions] ask for the mode [navigate]. *)
Definition navigating : Http.HttpTransportOptions :=
  {| Http.opt_isTestnet := None;
     Http.opt_timeout := Http.timeout_absent;
     Http.opt_mainnet_api := None;
     Http.opt_testnet_api := None;
     Http.opt_fetchOptions :=
       Some {| Http.init_signal := None;
               Http.init_other := [("mode", "navigate")] |};
     Http.opt_onRequest := None;
     Http.opt_onResponse := None |}.

End Example.

(* ================================================================== *)
(** * Notions the properties are stated with *)
(* ================================================================== *)

(** A call that ends in an [InvalidInputError] without handing anything
    to the transport. *)
Definition rejected_locally {A : Type} (c : call A) : Prop :=
  exists message,
    c = Throws (InvalidInputError message) /\ invocations c = [].

(** [n] lies outside the closed interval from [lo] to [hi]. *)
Definition outside (n : number) (lo hi : Z) : bool :=
  negb (number_le (of_Z lo) n && number_le n (of_Z hi)).


(** The handles of the pending timers are below the next handle. *)
Definition handles_fresh (w : Http.world) : Prop :=
  Forall (fun t => Pos.lt (fst (fst t)) (Http.next_timer w)) (Http.timers w).

(** The [Request] a call constructs, when the constructors of the URL
    and of the request accept their arguments: it is built over the
    controller made for the timeout, when there is one. *)
Definition sent {P : Platform} (t : Http.HttpTransport) (d : Descriptor)
  (w : Http.world) : option Http.Request :=
  match Http.build_url t d with
  | Some url =>
      Http.build_request t url d
        (match Http.timeout_set t with
         | Some _ => Some (Http.controllers w)
         | None => None
         end)
  | None => None
  end.

(** The requests a call hands to [fetch]: the request it constructs or
    the replacement the [onRequest] hook resolves to, and none when a
    constructor or the hook throws. *)
Definition fetched_by {P : Platform} (t : Http.HttpTransport)
  (d : Descriptor) (w : Http.world) : list Http.Request :=
  match sent t d w with
  | Some request =>
      match Http.final_request t request with
      | Http.Fulfilled finalRequest => [finalRequest]
      | Http.Failed _ => []
      end
  | None => []
  end.

(** A value [ToString] raises on: an object with a property [toString]
    of its own, or an array with such a value among its elements. *)
Inductive unprintable : value -> Prop :=
  | unprintable_object (props : list (string * value)) (x : value) :
      assoc "toString" props = Some x -> unprintable (VObj props)
  | unprintable_array (items : list value) (x : value) :
      In x items -> unprintable x -> unprintable (VArr items).

(** Two values that a schema cannot tell apart: they are the same, or
    they are objects (arrays of objects, ...) that agree on every key the
    schema names, whatever other keys they have.  A discriminated union
    compares them by the option their discriminator selects. *)
Inductive agree : Zod.schema -> value -> value -> Prop :=
  | agree_same (s : Zod.schema) (v : value) : agree s v v
  | agree_object (shape : list (string * Zod.schema))
      (props props' : list (string * value)) :
      (forall key ks, In (key, ks) shape ->
                      Zod.has key props = Zod.has key props') ->
      (forall key ks, In (key, ks) shape ->
                      agree ks (Zod.field key props) (Zod.field key props')) ->
      agree (Zod.z_object shape) (VObj props) (VObj props')
  | agree_array (item : Zod.schema) (xs ys : list value) :
      Forall2 (agree item) xs ys ->
      agree (Zod.z_array item) (VArr xs) (VArr ys)
  | agree_optional (inner : Zod.schema) (v v' : value) :
      agree inner v v' -> agree (Zod.z_optional inner) v v'
  | agree_variant (discriminator : string) (options : list Zod.schema)
      (props props' : list (string * value)) :
      Zod.field discriminator props = Zod.field discriminator props' ->
      (forall o lit,
          In o options ->
          Zod.discriminator_of discriminator o = Some lit ->
          is_string (Zod.field discriminator props) lit = true ->
          agree o (VObj props) (VObj props')) ->
      agree (Zod.z_discriminatedUnion discriminator options)
        (VObj props) (VObj props').

(** A timeout the transport arms a timer for: a number other than 0 and
    [NaN]. *)
Definition arms_timer (n : number) : Prop :=
  match n with
  | NaN => False
  | PosInf | NegInf => True
  | Fin q => ~ (q == 0)%Q
  end.

(** The text [s] has [p] somewhere in it. *)
Definition occurs_in (p s : string) : Prop :=
  exists before after, s = (before ++ p ++ after)%string.

(** The requests among a list of events. *)
Fixpoint fetches (events : list Http.event) : list Http.Request :=
  match events with
  | [] => []
  | Http.Fetched r :: rest => r :: fetches rest
  | _ :: rest => fetches rest
  end.


(** A client method run over the HTTP transport, as
    [new InfoClient({ transport: new HttpTransport() })] runs it: a call
    that throws leaves the runtime alone; otherwise the request is made
    and its value unwrapped, a rejection of the request rejecting the
    call. *)
Definition over_http {P : Platform} {A : Type} (t : Http.HttpTransport)
  (net : Http.Network) (c : call A) (w : Http.world)
  : outcome A * Http.world :=
  match c with
  | Throws e => (Rejected e, w)
  | Requests d k =>
      let '(result, w') := Http.request t net d w in
      (match result with
       | Resolved response => k response
       | Rejected e => Rejected e
       end, w')
  end.

(** The calls of the seven methods of the client. *)
Inductive client_method {P : Platform} : forall A : Type, call A -> Prop :=
  | is_markets args sig :
      client_method value (InfoClient.markets args sig)
  | is_marketStats market sig :
      client_method value (InfoClient.marketStats market sig)
  | is_marketOrderBook market sig :
      client_method value (InfoClient.marketOrderBook market sig)
  | is_marketTrades market sig :
      client_method value (InfoClient.marketTrades market sig)
  | is_candles market candleType interval limit endTime sig :
      client_method value
        (InfoClient.candles market candleType interval limit endTime sig)
  | is_funding market startTime endTime cursor limit sig :
      client_method InfoClient.FundingResult
        (InfoClient.funding market startTime endTime cursor limit sig)
  | is_openInterest market interval startTime endTime limit sig :
      client_method value
        (InfoClient.openInterest market interval startTime endTime limit sig).

(** Requests made one after the other, each with its transport and
    network. *)
Fixpoint in_turn {P : Platform}
  (calls : list (Http.HttpTransport * Http.Network * Descriptor))
  (w : Http.world) : Http.world :=
  match calls with
  | [] => w
  | (t, net, d) :: rest => in_turn rest (snd (Http.request t net d w))
  end.

(** The handles of the timers set among a list of events. *)
Fixpoint handles_set (events : list Http.event) : list positive :=
  match events with
  | [] => []
  | Http.TimerSet id _ _ :: rest => id :: handles_set rest
  | _ :: rest => handles_set rest
  end.

(** A transport whose [fetchOptions] carry another [signal]. *)
Definition with_fetch_signal (t : Http.HttpTransport)
  (s : option AbortSignal) : Http.HttpTransport :=
  {| Http.isTestnet := Http.isTestnet t;
     Http.timeout := Http.timeout t;
     Http.mainnet_api := Http.mainnet_api t;
     Http.testnet_api := Http.testnet_api t;
     Http.fetchOptions :=
       {| Http.init_signal := s;
          Http.init_other := Http.init_other (Http.fetchOptions t) |};
     Http.onRequest := Http.onRequest t;
     Http.onResponse := Http.onResponse t |}.

(** A transport with another [timeout]. *)
Definition with_timeout (t : Http.HttpTransport) (x : option number)
  : Http.HttpTransport :=
  {| Http.isTestnet := Http.isTestnet t;
     Http.timeout := x;
     Http.mainnet_api := Http.mainnet_api t;
     Http.testnet_api := Http.testnet_api t;
     Http.fetchOptions := Http.fetchOptions t;
     Http.onRequest := Http.onRequest t;
     Http.onResponse := Http.onResponse t |}.

(** Options that set nothing but [timeout]. *)
Definition only_timeout (x : Http.timeout_option) : Http.HttpTransportOptions :=
  {| Http.opt_isTestnet := None;
     Http.opt_timeout := x;
     Http.opt_mainnet_api := None;
     Http.opt_testnet_api := None;
     Http.opt_fetchOptions := None;
     Http.opt_onRequest := None;
     Http.opt_onResponse := None |}.

(* ================================================================== *)
(** * Properties of the info client *)
(* ================================================================== *)

Section ClientProperties.
Context {P : Platform}.
Import InfoClient.

Lemma all_chars_Forall (p : ascii -> bool) (s : string) :
  all_chars p s = true <->
  Forall (fun c => p c = true) (list_ascii_of_string s).
Proof.
  induction s as [|c r IH]; simpl.
  - split; auto.
  - rewrite andb_true_iff, IH. split.
    + intros [Hc Hr]. constructor; assumption.
    + intros H. inversion H; subst. split; assumption.
Qed.

(** The regular expression [^[A-Z-]+$]: at least one character, all of
    them upper-case letters or hyphens. *)
Lemma matches_market_iff (s : string) :
  matches_market s = true <->
  s <> EmptyString /\
  Forall (fun c => is_upper_or_hyphen c = true) (list_ascii_of_string s).
Proof.
  destruct s as [|c r].
  - simpl. split; [discriminate | intros [H _]; congruence].
  - unfold matches_market. rewrite all_chars_Forall.
    split; [intros H; split; [discriminate | exact H] | intros [_ H]; exact H].
Qed.

Lemma invalid_market_intro (market : string) :
  market = EmptyString \/ matches_market market = false ->
  invalid_market market = true.
Proof.
  unfold invalid_market. intros [-> | H].
  - reflexivity.
  - rewrite H. apply orb_true_r.
Qed.

Lemma rejected_locally_run {A : Type} (c : call A) :
  rejected_locally c ->
  forall transport, exists message,
    run transport c = Rejected (InvalidInputError message).
Proof.
  intros [message [-> _]] transport. exists message. reflexivity.
Qed.

Ltac throws := eexists; split; reflexivity.

Ltac branches :=
  repeat match goal with
         | |- context [if ?b then _ else _] => destruct b eqn:?
         end.

(** C1, amended: for [marketStats], [marketTrades], [candles], [funding]
    and [openInterest], a market symbol that is empty or does not match
    [^[A-Z-]+$] makes the method raise [InvalidInputError] without a call
    of the transport; [marketOrderBook] checks nothing and hands every
    symbol to the transport. *)
Theorem C1_symbol_validation :
  forall market : string,
    market = EmptyString \/ matches_market market = false ->
    forall (sig : option AbortSignal) (candleType interval : string)
           (limit startTime endTime : number)
           (optEnd cursor optLimit : option number),
      rejected_locally (marketStats market sig) /\
      rejected_locally (marketTrades market sig) /\
      rejected_locally (candles market candleType interval limit optEnd sig) /\
      rejected_locally
        (funding market startTime endTime cursor optLimit sig) /\
      rejected_locally
        (openInterest market interval startTime endTime optLimit sig) /\
      invocations (marketOrderBook market sig) =
        [ {| method := GET; path := "info/markets/{market}/orderbook";
             params := None; pathParams := Some [("market", PStr market)];
             signal := sig |} ].
Proof.
  intros market H sig candleType interval limit startTime endTime
    optEnd cursor optLimit.
  apply invalid_market_intro in H.
  unfold marketStats, marketTrades, candles, funding, openInterest.
  rewrite H.
  repeat split; try throws.
Qed.

Lemma of_Z_le_zero (z : Z) : number_le (of_Z z) (of_Z 0) = (z <=? 0)%Z.
Proof.
  unfold number_le, of_Z.
  destruct (Z.leb_spec z 0) as [Hz | Hz].
  - apply Qle_bool_iff. rewrite <- Zle_Qle. exact Hz.
  - destruct (Qle_bool (inject_Z z) (inject_Z 0)) eqn:E; [|reflexivity].
    apply Qle_bool_iff in E. rewrite <- Zle_Qle in E. lia.
Qed.

Lemma of_Z_gt (z m : Z) : number_gt (of_Z z) (of_Z m) = (m <? z)%Z.
Proof.
  unfold number_gt, number_lt, of_Z.
  destruct (Z.ltb_spec m z) as [Hz | Hz].
  - destruct (Qle_bool (inject_Z z) (inject_Z m)) eqn:E; [|reflexivity].
    apply Qle_bool_iff in E. rewrite <- Zle_Qle in E. lia.
  - apply negb_false_iff. apply Qle_bool_iff. rewrite <- Zle_Qle. exact Hz.
Qed.

Lemma limit_rejected_integer (z m : Z) :
  (z < 1 \/ m < z)%Z -> limit_rejected (Some (of_Z z)) m = true.
Proof.
  intros H. unfold limit_rejected.
  rewrite of_Z_le_zero, of_Z_gt.
  apply orb_true_iff.
  destruct H as [H | H]; [left; apply Z.leb_le | right; apply Z.ltb_lt]; lia.
Qed.

Lemma funding_rejects (market : string) (startTime endTime : number)
  (cursor limit : option number) (sig : option AbortSignal) :
  number_ge startTime endTime = true \/ limit_rejected limit 10000 = true ->
  rejected_locally (funding market startTime endTime cursor limit sig).
Proof.
  intros H. unfold funding. branches; try throws.
  destruct H; congruence.
Qed.

Lemma openInterest_rejects (market interval : string)
  (startTime endTime : number) (limit : option number)
  (sig : option AbortSignal) :
  number_ge startTime endTime = true \/ limit_rejected limit 300 = true
  \/ matches_interval interval = false ->
  rejected_locally (openInterest market interval startTime endTime limit sig).
Proof.
  intros H. unfold openInterest. branches; try throws.
  destruct H as [H | [H | H]]; try congruence.
  rewrite H in *. rewrite orb_true_r in *. discriminate.
Qed.

Lemma matches_interval_false (interval : string) :
  interval <> "P1H" -> interval <> "P1D" -> matches_interval interval = false.
Proof.
  intros H1 H2. unfold matches_interval.
  apply orb_false_iff. split; apply String.eqb_neq; assumption.
Qed.

(** What the range checks of [funding] and [openInterest] do reject,
    before any transport call: every [startTime >= endTime], every limit
    that is [<= 0] or above the maximum, so every integer limit outside
    the range the message names, and for [openInterest] every interval
    other than [P1H] and [P1D]. *)
Lemma range_validation :
  forall (market : string) (sig : option AbortSignal),
    (forall startTime endTime cursor limit,
        number_ge startTime endTime = true ->
        rejected_locally
          (funding market startTime endTime cursor limit sig)) /\
    (forall startTime endTime cursor l,
        number_le l (of_Z 0) = true \/ number_gt l (of_Z 10000) = true ->
        rejected_locally
          (funding market startTime endTime cursor (Some l) sig)) /\
    (forall startTime endTime cursor z,
        (z < 1 \/ 10000 < z)%Z ->
        rejected_locally
          (funding market startTime endTime cursor (Some (of_Z z)) sig)) /\
    (forall interval startTime endTime limit,
        number_ge startTime endTime = true ->
        rejected_locally
          (openInterest market interval startTime endTime limit sig)) /\
    (forall interval startTime endTime l,
        number_le l (of_Z 0) = true \/ number_gt l (of_Z 300) = true ->
        rejected_locally
          (openInterest market interval startTime endTime (Some l) sig)) /\
    (forall interval startTime endTime z,
        (z < 1 \/ 300 < z)%Z ->
        rejected_locally
          (openInterest market interval startTime endTime
             (Some (of_Z z)) sig)) /\
    (forall interval startTime endTime limit,
        interval <> "P1H" -> interval <> "P1D" ->
        rejected_locally
          (openInterest market interval startTime endTime limit sig)).
Proof.
  intros market sig. repeat split; intros.
  - apply funding_rejects. left; assumption.
  - apply funding_rejects. right. simpl. apply orb_true_iff. assumption.
  - apply funding_rejects. right. apply limit_rejected_integer. assumption.
  - apply openInterest_rejects. left; assumption.
  - apply openInterest_rejects. right; left. simpl.
    apply orb_true_iff. assumption.
  - apply openInterest_rejects. right; left.
    apply limit_rejected_integer. assumption.
  - apply openInterest_rejects. right; right.
    apply matches_interval_false; assumption.
Qed.

(** C4, the code at a limit the range check misses: [0.5] and [NaN] lie
    outside [1, 10000] and outside [1, 300], yet the guard
    [limit <= 0 || limit > max] lets them through, so [funding] and
    [openInterest] raise nothing and hand the limit to the transport,
    against their own message [Limit must be between 1 and ...]. *)
Theorem C4_limit_guard_misses :
  outside (Fin (1 # 2)) 1 10000 = true /\
  outside (Fin (1 # 2)) 1 300 = true /\
  outside NaN 1 10000 = true /\
  outside NaN 1 300 = true /\
  (funding "BTC-USD" (of_Z 1) (of_Z 2) None (Some (Fin (1 # 2))) None =
     Requests
       {| method := GET; path := "info/{market}/funding";
          params := Some [("startTime", QNum (of_Z 1));
                          ("endTime", QNum (of_Z 2));
                          ("limit", QNum (Fin (1 # 2)))];
          pathParams := Some [("market", PStr "BTC-USD")];
          signal := None |}
       unwrap_funding) /\
  (openInterest "BTC-USD" "P1D" (of_Z 1) (of_Z 2) (Some (Fin (1 # 2))) None =
     Requests
       {| method := GET; path := "info/{market}/open-interests";
          params := Some [("interval", QStr "P1D");
                          ("startTime", QNum (of_Z 1));
                          ("endTime", QNum (of_Z 2));
                          ("limit", QNum (Fin (1 # 2)))];
          pathParams := Some [("market", PStr "BTC-USD")];
          signal := None |}
       unwrap) /\
  (funding "BTC-USD" (of_Z 1) (of_Z 2) None (Some NaN) None =
     Requests
       {| method := GET; path := "info/{market}/funding";
          params := Some [("startTime", QNum (of_Z 1));
                          ("endTime", QNum (of_Z 2));
                          ("limit", QNum NaN)];
          pathParams := Some [("market", PStr "BTC-USD")];
          signal := None |}
       unwrap_funding) /\
  (openInterest "BTC-USD" "P1D" (of_Z 1) (of_Z 2) (Some NaN) None =
     Requests
       {| method := GET; path := "info/{market}/open-interests";
          params := Some [("interval", QStr "P1D");
                          ("startTime", QNum (of_Z 1));
                          ("endTime", QNum (of_Z 2));
                          ("limit", QNum NaN)];
          pathParams := Some [("market", PStr "BTC-USD")];
          signal := None |}
       unwrap) /\
  ~ rejected_locally
      (funding "BTC-USD" (of_Z 1) (of_Z 2) None (Some (Fin (1 # 2))) None) /\
  ~ rejected_locally
      (openInterest "BTC-USD" "P1D" (of_Z 1) (of_Z 2)
         (Some (Fin (1 # 2))) None).
Proof.
  repeat split; try reflexivity;
    intros [message [H _]]; discriminate H.
Qed.

End ClientProperties.

Section EnvelopeProperties.
Context {P : Platform}.
Import InfoClient.

(** Past its validation, [funding] calls the transport once and then
    unwraps the envelope. *)
Lemma funding_continuation (market : string) (startTime endTime : number)
  (cursor limit : option number) (sig : option AbortSignal)
  (d : Descriptor) (k : value -> outcome FundingResult) :
  funding market startTime endTime cursor limit sig = Requests d k ->
  k = unwrap_funding.
Proof.
  unfold funding.
  repeat match goal with
         | |- context [if ?b then _ else _] => destruct b
         end; intros H; try discriminate.
  inversion H. reflexivity.
Qed.

Lemma is_string_inv (v : value) (s : string) :
  is_string v s = true -> v = VStr s.
Proof.
  destruct v; simpl; try discriminate.
  intros H. apply String.eqb_eq in H. congruence.
Qed.

(** What [funding] does with a response that has a [status] to read:
    for status [OK] it returns [{ data, pagination }], with the
    response's pagination when that is truthy and otherwise
    [{ cursor: 0, count: data.length }]; for status [ERROR] with an error
    whose code and message convert to text it raises an [Error] whose
    message embeds both; for any other status it raises an [Error] whose
    message embeds [JSON.stringify(response)]. *)
Lemma funding_unwrapping :
  forall (market : string) (startTime endTime : number)
         (cursor limit : option number) (sig : option AbortSignal)
         (d : Descriptor) (k : value -> outcome FundingResult)
         (transport : Descriptor -> outcome value)
         (response status : value),
    funding market startTime endTime cursor limit sig = Requests d k ->
    transport d = Resolved response ->
    get response "status" = Some status ->
    let result :=
      run transport (funding market startTime endTime cursor limit sig) in
    (is_string status "OK" = true ->
     forall dat pag,
       get response "data" = Some dat ->
       get response "pagination" = Some pag ->
       (truthy pag = true ->
        result = Resolved {| data := dat; pagination := pag |}) /\
       (truthy pag = false ->
        forall count,
          get dat "length" = Some count ->
          result =
            Resolved
              {| data := dat;
                 pagination :=
                   VObj [("cursor", VNum (of_Z 0)); ("count", count)] |})) /\
    (is_string status "ERROR" = true ->
     forall err code message code_text message_text,
       get response "error" = Some err ->
       get err "code" = Some code ->
       get err "message" = Some message ->
       ToString code = Some code_text ->
       ToString message = Some message_text ->
       result =
         Rejected (Error ("API Error: " ++ code_text ++ " - "
                          ++ message_text))) /\
    (is_string status "OK" = false ->
     is_string status "ERROR" = false ->
     result =
       Rejected (Error ("Unexpected response format: "
                        ++ JSON_stringify response))).
Proof.
  intros market startTime endTime cursor limit sig d k transport response
    status Hcall Hresolved Hstatus result.
  assert (Hresult : result = unwrap_funding response).
  { subst result. rewrite Hcall. simpl. rewrite Hresolved.
    apply funding_continuation in Hcall. rewrite Hcall. reflexivity. }
  rewrite Hresult. unfold unwrap_funding. rewrite Hstatus.
  split; [|split].
  - intros Hok dat pag Hdat Hpag. rewrite Hok, Hdat, Hpag. split.
    + intros pag_truthy. rewrite pag_truthy. reflexivity.
    + intros pag_falsy count Hcount. rewrite pag_falsy, Hcount. reflexivity.
  - intros Herror err code message code_text message_text
      Herr Hcode Hmessage Hc Hm.
    apply is_string_inv in Herror. subst status. simpl.
    unfold api_error_message. rewrite Herr, Hcode, Hc, Hmessage, Hm.
    reflexivity.
  - intros Hok Herror. rewrite Hok, Herror. reflexivity.
Qed.

(** C5, the code at the responses it reads without a look at their
    shape: when the transport resolves to [null], the read of
    [response.status] raises a [TypeError] and the [Error] that embeds
    the payload, which the method ends with for unexpected shapes, is
    never reached; an [OK] envelope without [data] and an [ERROR]
    envelope without [error] raise a [TypeError] in the same way. *)
Theorem C5_unguarded_reads :
  let call := funding "BTC-USD" (of_Z 1) (of_Z 2) None None None in
  let answered (response : value) := run (fun _ => Resolved response) call in
  answered VNull = Rejected TypeError /\
  (forall message, answered VNull <> Rejected (Error message)) /\
  answered (VObj [("status", VStr "OK")]) = Rejected TypeError /\
  answered (VObj [("status", VStr "ERROR")]) = Rejected TypeError /\
  answered (VNum (of_Z 7)) =
    Rejected (Error ("Unexpected response format: "
                     ++ JSON_stringify (VNum (of_Z 7)))).
Proof.
  intros call answered.
  split; [reflexivity|]. split; [intros message; discriminate|].
  split; [reflexivity|]. split; reflexivity.
Qed.

End EnvelopeProperties.

(* ================================================================== *)
(** * Properties of the HTTP transport *)
(* ================================================================== *)

Section TransportProperties.
Context {P : Platform}.
Import Http.
Local Open Scope list_scope.

(** ** Path parameters *)

Lemma split_first_none_includes (p s : string) :
  Str.split_first p s = None <-> Str.includes p s = false.
Proof.
  induction s as [|c r IH].
  - simpl. destruct (Str.prefix p EmptyString); simpl; split;
      intros H; try discriminate; reflexivity.
  - simpl. destruct (Str.prefix p (String c r)); simpl.
    + split; discriminate.
    + destruct (Str.split_first p r) as [[before after]|].
      * split; [discriminate|]. intros H. apply IH in H. discriminate.
      * split; [intros _; apply IH; reflexivity | reflexivity].
Qed.

(** A pattern that does not occur leaves the text alone. *)
Lemma replace_absent (s pattern replacement : string) :
  Str.includes pattern s = false ->
  Str.replace s pattern replacement = s.
Proof.
  intros H. apply split_first_none_includes in H.
  unfold Str.replace. rewrite H. reflexivity.
Qed.

(** Placeholders no path parameter names stay in the path as they are:
    a path in which no [{key}] of the parameters occurs is unchanged. *)
Lemma apply_path_params_absent (path : string)
  (entries : list (string * path_value)) :
  (forall key v, In (key, v) entries ->
                 Str.includes ("{" ++ key ++ "}")%string path = false) ->
  apply_path_params path entries = path.
Proof.
  induction entries as [|[key v] rest IH]; intros H; simpl.
  - reflexivity.
  - rewrite replace_absent by (apply (H key v); left; reflexivity).
    apply IH. intros key' v' Hin. apply (H key' v'). right. exact Hin.
Qed.

Lemma prefix_drop (p s : string) :
  Str.prefix p s = true -> s = (p ++ Str.drop (String.length p) s)%string.
Proof.
  revert s. induction p as [|a p' IH]; intros s H; simpl.
  - reflexivity.
  - destruct s as [|b s']; [discriminate|]. simpl in H.
    apply andb_true_iff in H. destruct H as [Hab Hrest].
    apply Ascii.eqb_eq in Hab. subst b. f_equal. apply IH. exact Hrest.
Qed.

(** [split_first] cuts the text around an occurrence of the pattern. *)
Lemma split_first_sound (p s before after : string) :
  Str.split_first p s = Some (before, after) ->
  s = (before ++ p ++ after)%string.
Proof.
  revert before. induction s as [|c r IH]; intros before; simpl.
  - destruct (Str.prefix p EmptyString) eqn:E; [|discriminate].
    intros H. inversion H; subst. simpl.
    apply (prefix_drop p EmptyString E).
  - destruct (Str.prefix p (String c r)) eqn:E.
    + intros H. inversion H; subst. simpl.
      apply (prefix_drop p (String c r) E).
    + destruct (Str.split_first p r) as [[b a]|]; [|discriminate].
      intros H. inversion H; subst. simpl. f_equal. apply IH. reflexivity.
Qed.

(** A replacement text without [$] is inserted as it is. *)
Lemma get_substitution_plain (matched before after template : string) :
  Str.plain template = true ->
  Str.get_substitution matched before after template = template.
Proof.
  induction template as [|c r IH]; simpl; [reflexivity|].
  intros H. apply andb_true_iff in H. destruct H as [Hc Hr].
  apply negb_true_iff in Hc.
  assert (Hstep :
            Str.get_substitution matched before after (String c r) =
            String c (Str.get_substitution matched before after r)).
  { simpl. destruct c as [[] [] [] [] [] [] [] []];
      try reflexivity; discriminate Hc. }
  simpl in Hstep. rewrite Hstep, IH by exact Hr. reflexivity.
Qed.

(** The first occurrence of a placeholder is replaced by the text of the
    value, for a value without [$]. *)
Lemma replace_first (s pattern replacement before after : string) :
  Str.split_first pattern s = Some (before, after) ->
  Str.plain replacement = true ->
  s = (before ++ pattern ++ after)%string /\
  Str.replace s pattern replacement = (before ++ replacement ++ after)%string.
Proof.
  intros Hsplit Hplain. split.
  - apply split_first_sound. exact Hsplit.
  - unfold Str.replace. rewrite Hsplit, get_substitution_plain by exact Hplain.
    reflexivity.
Qed.

(** ** Query parameters *)




Lemma fold_append (key : string) (items : list string)
  (q : list (string * string)) :
  fold_left (fun q' x => searchParams_append q' key x) items q =
  q ++ map (fun x => (key, x)) items.
Proof.
  revert q. induction items as [|x r IH]; intros q; simpl.
  - rewrite app_nil_r. reflexivity.
  - rewrite IH. unfold searchParams_append. rewrite <- app_assoc. reflexivity.
Qed.











End TransportProperties.

Section RequestProperties.
Context {P : Platform}.
Import Http.
Local Open Scope list_scope.

(** ** The URL and the request that are constructed *)

Lemma build_url_some (t : HttpTransport) (d : Descriptor) (url : URL) :
  build_url t d = Some url ->
  URL_canParse (url_reference d) (baseUrl t) = true /\
  reference url = url_reference d /\
  base url = baseUrl t /\
  searchParams url =
    match params d with
    | Some entries =>
        add_query_params (URL_searchParams (url_reference d)) entries
    | None => URL_searchParams (url_reference d)
    end.
Proof.
  unfold build_url.
  destruct (URL_canParse (url_reference d) (baseUrl t)); [|discriminate].
  intros H. inversion H; subst url. repeat split.
Qed.

Lemma build_url_none (t : HttpTransport) (d : Descriptor) :
  build_url t d = None <->
  URL_canParse (url_reference d) (baseUrl t) = false.
Proof.
  unfold build_url.
  destruct (URL_canParse (url_reference d) (baseUrl t)); split;
    intros H; (reflexivity || discriminate H).
Qed.

(** A request is constructed exactly when the platform accepts the URL
    and then the options. *)
Lemma sent_some_iff (t : HttpTransport) (d : Descriptor) (w : world) :
  (exists r, sent t d w = Some r) <->
  URL_canParse (url_reference d) (baseUrl t) = true /\
  Request_accepts (url_reference d) (baseUrl t)
    (init_other (fetchOptions t)) = true.
Proof.
  unfold sent, build_url, build_request.
  destruct (URL_canParse (url_reference d) (baseUrl t)); simpl.
  - destruct (Request_accepts _ _ _); split.
    + intros _. split; reflexivity.
    + intros _. eexists. reflexivity.
    + intros [r H]. discriminate H.
    + intros [_ H]. discriminate H.
  - split; [intros [r H]; discriminate H | intros [H _]; discriminate H].
Qed.

Lemma sent_signal (t : HttpTransport) (d : Descriptor) (w : world)
  (r : Request) :
  sent t d w = Some r ->
  request_signal r =
    match signal d with
    | Some s => Some s
    | None =>
        match timeout_set t with
        | Some _ => Some (ControllerSignal (controllers w))
        | None => None
        end
    end.
Proof.
  unfold sent, build_request.
  destruct (build_url t d) as [url|]; [|discriminate].
  destruct (Request_accepts _ _ _); [|discriminate].
  intros H. inversion H; subst r. simpl.
  destruct (signal d); [reflexivity|].
  destruct (timeout_set t); reflexivity.
Qed.


(** ** The course of a request *)

Lemma ok_true_iff (r : Response) :
  ok r = true <-> (200 <= status r <= 299)%Z.
Proof.
  unfold ok. rewrite andb_true_iff, !Z.leb_le. reflexivity.
Qed.

Lemma ok_false_iff (r : Response) :
  ok r = false <-> (status r < 200 \/ 299 < status r)%Z.
Proof.
  unfold ok. rewrite andb_false_iff, !Z.leb_gt. reflexivity.
Qed.

(** The result of a request, stage by stage. *)
Lemma request_result (t : HttpTransport) (net : Network) (d : Descriptor)
  (w : world) :
  fst (request t net d w) =
  match sent t d w with
  | None => Rejected TypeError
  | Some request =>
      match final_request t request with
      | Failed tag => Rejected (Foreign tag)
      | Fulfilled finalRequest =>
          match final_response t net finalRequest with
          | Failed tag => Rejected (Foreign tag)
          | Fulfilled finalResponse => classify finalResponse
          end
      end
  end.
Proof.
  unfold request, sent, attempt.
  destruct (build_url t d) as [url|]; [|reflexivity].
  destruct (timeout_set t) as [ms|]; simpl;
    destruct (build_request t url d _) as [request|]; simpl;
    try reflexivity;
    destruct (final_request t request) as [finalRequest | tag]; simpl;
    try reflexivity;
    destruct (final_response t net finalRequest); reflexivity.
Qed.

(** The events of a request, in order. *)
Lemma request_trace (t : HttpTransport) (net : Network) (d : Descriptor)
  (w : world) :
  trace (snd (request t net d w)) =
  trace w
  ++ match build_url t d with
     | None => []
     | Some _ =>
         match timeout_set t with
         | Some ms => [ControllerCreated (controllers w);
                       TimerSet (next_timer w) ms (controllers w)]
         | None => []
         end
         ++ map Fetched (fetched_by t d w)
         ++ match timeout_set t with
            | Some _ => [TimerCleared (next_timer w)]
            | None => []
            end
     end.
Proof.
  unfold request, fetched_by, sent, attempt.
  destruct (build_url t d) as [url|]; [|rewrite app_nil_r; reflexivity].
  destruct (timeout_set t) as [ms|]; simpl;
    destruct (build_request t url d _) as [request|]; simpl;
    try (rewrite <- ?app_assoc, ?app_nil_r; reflexivity);
    destruct (final_request t request) as [finalRequest | tag]; simpl;
    try (destruct (final_response t net finalRequest); simpl);
    rewrite <- ?app_assoc, ?app_nil_r; reflexivity.
Qed.

(** The pending timers after a request. *)
Lemma request_timers (t : HttpTransport) (net : Network) (d : Descriptor)
  (w : world) :
  timers (snd (request t net d w)) =
  match build_url t d, timeout_set t with
  | Some _, Some ms =>
      filter (fun x => negb (Pos.eqb (fst (fst x)) (next_timer w)))
        ((next_timer w, ms, controllers w) :: timers w)
  | _, _ => timers w
  end.
Proof.
  unfold request, attempt.
  destruct (build_url t d) as [url|]; [|reflexivity].
  destruct (timeout_set t) as [ms|]; simpl;
    destruct (build_request t url d _) as [request|]; simpl;
    try reflexivity;
    destruct (final_request t request) as [finalRequest | tag]; simpl;
    try reflexivity;
    destruct (final_response t net finalRequest); reflexivity.
Qed.

(** A request that cannot make its URL does nothing. *)
Lemma request_without_url (t : HttpTransport) (net : Network)
  (d : Descriptor) (w : world) :
  build_url t d = None -> request t net d w = (Rejected TypeError, w).
Proof.
  intros H. unfold request. rewrite H. reflexivity.
Qed.

(** ** The content type *)

Lemma prefix_app (p s : string) : Str.prefix p (p ++ s) = true.
Proof.
  induction p as [|a p' IH]; simpl; [reflexivity|].
  rewrite Ascii.eqb_refl, IH. reflexivity.
Qed.

Lemma includes_app (p before after : string) :
  Str.includes p (before ++ p ++ after) = true.
Proof.
  induction before as [|c r IH]; simpl.
  - destruct (p ++ after)%string eqn:E; simpl;
      rewrite <- E, prefix_app; reflexivity.
  - rewrite IH. apply orb_true_r.
Qed.

(** [includes] finds a text exactly when it occurs. *)
Lemma includes_iff_occurs (p s : string) :
  Str.includes p s = true <-> occurs_in p s.
Proof.
  split.
  - intros H.
    destruct (Str.split_first p s) as [[before after]|] eqn:E.
    + exists before, after. apply split_first_sound. exact E.
    + apply split_first_none_includes in E. congruence.
  - intros [before [after ->]]. apply includes_app.
Qed.

(** The test on the content type passes exactly when the header is there
    and [application/json] occurs in it, letter for letter. *)
Lemma is_json_content_iff (r : Response) :
  is_json_content r = true <->
  exists contentType,
    content_type r = Some contentType /\
    occurs_in "application/json" contentType.
Proof.
  unfold is_json_content. destruct (content_type r) as [ct|].
  - rewrite includes_iff_occurs. split.
    + intros H. exists ct. split; [reflexivity | exact H].
    + intros [ct' [Heq H]]. inversion Heq; subst ct'. exact H.
  - split; [discriminate | intros [ct [H _]]; discriminate H].
Qed.

Lemma is_json_content_false (r : Response) :
  is_json_content r = false <->
  content_type r = None \/
  exists contentType,
    content_type r = Some contentType /\
    ~ occurs_in "application/json" contentType.
Proof.
  unfold is_json_content. destruct (content_type r) as [ct|].
  - split.
    + intros H. right. exists ct. split; [reflexivity|].
      rewrite <- includes_iff_occurs. congruence.
    + intros [H | [ct' [Heq H]]]; [discriminate H|].
      inversion Heq; subst ct'.
      destruct (Str.includes "application/json" ct) eqn:E; [|reflexivity].
      exfalso. apply H. apply includes_iff_occurs. exact E.
  - split; [intros _; left; reflexivity | reflexivity].
Qed.

Lemma classify_transport_error (r : Response) :
  (exists st body, classify r = Rejected (HttpRequestError st body)) <->
  (ok r = false \/ is_json_content r = false).
Proof.
  unfold classify.
  destruct (ok r); simpl.
  - destruct (is_json_content r); simpl.
    + split.
      * intros [st [body He]]. destruct (json r); discriminate He.
      * intros [H | H]; discriminate.
    + split; [intros _; right; reflexivity|].
      intros _. eexists. eexists. reflexivity.
  - split; [intros _; left; reflexivity|].
    intros _. eexists. eexists. reflexivity.
Qed.

(** C6, amended: the response that counts is the final one, which is
    what [fetch] resolved to or the replacement the [onResponse] hook
    resolved to.  A final status outside 200-299 makes the request raise
    an [HttpRequestError] with the status and the body text, or without a
    body when reading it failed.  A final status within 200-299 makes it
    raise an [HttpRequestError] that names the content type seen when the
    [content-type] header is missing or [application/json] does not occur
    in it letter for letter, and otherwise return what the body reader
    parsed, or pass on what the reader threw.  The transport raises an
    [HttpRequestError] in these two cases and in no other: when a hook
    or [fetch] throws, there is no final response and what was thrown is
    passed on as it is. *)
Theorem C6_response_classification :
  forall (t : HttpTransport) (net : Network) (d : Descriptor) (w : world),
    let result := fst (request t net d w) in
    (forall request finalRequest finalResponse,
        sent t d w = Some request ->
        final_request t request = Fulfilled finalRequest ->
        final_response t net finalRequest = Fulfilled finalResponse ->
        ((status finalResponse < 200 \/ 299 < status finalResponse)%Z ->
         result =
           Rejected
             (HttpRequestError (status finalResponse)
                match text finalResponse with
                | Fulfilled body => Some body
                | Failed _ => None
                end)) /\
        ((200 <= status finalResponse <= 299)%Z ->
         content_type finalResponse = None ->
         result =
           Rejected
             (HttpRequestError (status finalResponse)
                (Some "Expected JSON response, got null"%string))) /\
        ((200 <= status finalResponse <= 299)%Z ->
         forall contentType,
           content_type finalResponse = Some contentType ->
           ~ occurs_in "application/json" contentType ->
           result =
             Rejected
               (HttpRequestError (status finalResponse)
                  (Some ("Expected JSON response, got " ++ contentType)%string)))
        /\
        ((200 <= status finalResponse <= 299)%Z ->
         forall contentType,
           content_type finalResponse = Some contentType ->
           occurs_in "application/json" contentType ->
           result =
             match json finalResponse with
             | Fulfilled v => Resolved v
             | Failed tag => Rejected (Foreign tag)
             end)) /\
    ((exists st body, result = Rejected (HttpRequestError st body)) <->
     (exists request finalRequest finalResponse,
         sent t d w = Some request /\
         final_request t request = Fulfilled finalRequest /\
         final_response t net finalRequest = Fulfilled finalResponse /\
         ((status finalResponse < 200 \/ 299 < status finalResponse)%Z \/
          content_type finalResponse = None \/
          exists contentType,
            content_type finalResponse = Some contentType /\
            ~ occurs_in "application/json" contentType))) /\
    (forall finalRequest response,
        fetch net finalRequest = Fulfilled response ->
        (onResponse t = None ->
         final_response t net finalRequest = Fulfilled response) /\
        (forall hook,
            onResponse t = Some hook ->
            final_response t net finalRequest =
              match hook response with
              | Fulfilled (Some replacement) => Fulfilled replacement
              | Fulfilled None => Fulfilled response
              | Failed tag => Failed tag
              end)) /\
    (forall request,
        sent t d w = Some request ->
        (forall tag,
            final_request t request = Failed tag ->
            result = Rejected (Foreign tag)) /\
        (forall finalRequest tag,
            final_request t request = Fulfilled finalRequest ->
            final_response t net finalRequest = Failed tag ->
            result = Rejected (Foreign tag))).
Proof.
  intros t net d w result.
  assert (Hresult := request_result t net d w).
  fold result in Hresult.
  split; [|split; [|split]].
  - intros request finalRequest finalResponse Hsent Hreq Hresp.
    rewrite Hsent, Hreq, Hresp in Hresult. rewrite Hresult. unfold classify.
    split; [|split; [|split]].
    + intros Hstatus. apply ok_false_iff in Hstatus.
      rewrite Hstatus. reflexivity.
    + intros Hstatus Hct. apply ok_true_iff in Hstatus.
      assert (Hjson : is_json_content finalResponse = false)
        by (apply is_json_content_false; left; exact Hct).
      rewrite Hstatus, Hjson, Hct. reflexivity.
    + intros Hstatus ct Hct Hnot. apply ok_true_iff in Hstatus.
      assert (Hjson : is_json_content finalResponse = false).
      { apply is_json_content_false. right. exists ct.
        split; [exact Hct | exact Hnot]. }
      rewrite Hstatus, Hjson, Hct. reflexivity.
    + intros Hstatus ct Hct Hocc. apply ok_true_iff in Hstatus.
      assert (Hjson : is_json_content finalResponse = true).
      { apply is_json_content_iff. exists ct.
        split; [exact Hct | exact Hocc]. }
      rewrite Hstatus, Hjson. reflexivity.
  - rewrite Hresult. split.
    + intros [st [body He]].
      destruct (sent t d w) as [request|]; [|discriminate He].
      destruct (final_request t request) as [finalRequest | tag] eqn:Hreq;
        [|discriminate He].
      destruct (final_response t net finalRequest)
        as [finalResponse | tag] eqn:Hresp; [|discriminate He].
      exists request, finalRequest, finalResponse.
      split; [reflexivity | split; [exact Hreq | split; [exact Hresp|]]].
      rewrite <- ok_false_iff, <- is_json_content_false.
      apply classify_transport_error.
      exists st, body. exact He.
    + intros [request [finalRequest [finalResponse
                [Hsent [Hreq [Hresp Hcase]]]]]].
      rewrite Hsent, Hreq, Hresp. apply classify_transport_error.
      rewrite ok_false_iff, is_json_content_false. exact Hcase.
  - intros finalRequest response Hfetch. split.
    + intros Hhook. unfold final_response, call_hook.
      rewrite Hfetch, Hhook. reflexivity.
    + intros hook Hhook. unfold final_response, call_hook.
      rewrite Hfetch, Hhook.
      destruct (hook response) as [[replacement|] | tag]; reflexivity.
  - intros request Hsent. rewrite Hsent in Hresult. split.
    + intros tag Hreq. rewrite Hreq in Hresult. exact Hresult.
    + intros finalRequest tag Hreq Hresp.
      rewrite Hreq, Hresp in Hresult. exact Hresult.
Qed.

Lemma fetches_app (a b : list event) :
  fetches (a ++ b) = fetches a ++ fetches b.
Proof.
  induction a as [|e r IH]; simpl; [reflexivity|].
  destruct e; simpl; rewrite IH; reflexivity.
Qed.

Lemma fetches_map (l : list Request) : fetches (map Fetched l) = l.
Proof.
  induction l as [|r l' IH]; simpl; [reflexivity|]. rewrite IH. reflexivity.
Qed.

Lemma request_fetches (t : HttpTransport) (net : Network) (d : Descriptor)
  (w : world) :
  fetches (trace (snd (request t net d w))) =
  fetches (trace w) ++ fetched_by t d w.
Proof.
  rewrite request_trace, fetches_app. f_equal.
  unfold fetched_by, sent.
  destruct (build_url t d) as [url|]; [|reflexivity].
  rewrite !fetches_app, fetches_map.
  destruct (timeout_set t); simpl; rewrite ?app_nil_r; reflexivity.
Qed.

Lemma sent_with_caller_signal (t : HttpTransport) (d : Descriptor)
  (w : world) (s : AbortSignal) (x : option number) :
  signal d = Some s -> sent (with_timeout t x) d w = sent t d w.
Proof.
  intros Hs. unfold sent, build_request, build_url. simpl.
  destruct (URL_canParse _ _); [|reflexivity]. simpl.
  rewrite Hs. reflexivity.
Qed.

(** The transport arms a timer exactly for a timeout that is a number
    other than 0 and [NaN]. *)
Lemma timeout_set_iff (t : HttpTransport) (ms : number) :
  timeout_set t = Some ms <-> timeout t = Some ms /\ arms_timer ms.
Proof.
  unfold timeout_set. destruct (timeout t) as [n|].
  - destruct n as [| | | q]; simpl.
    + split; [discriminate|].
      intros [H Harms]. inversion H; subst ms. destruct Harms.
    + split; [intros H; inversion H; split; [reflexivity | exact I]
             | intros [H _]; exact H].
    + split; [intros H; inversion H; split; [reflexivity | exact I]
             | intros [H _]; exact H].
    + destruct (Qeq_bool q 0) eqn:E; simpl.
      * split; [discriminate|]. intros [H Harms]. inversion H; subst ms.
        exfalso. apply Harms. apply Qeq_bool_iff. exact E.
      * split.
        -- intros H. inversion H; subst ms. split; [reflexivity|].
           simpl. intros Hq. apply Qeq_bool_iff in Hq. congruence.
        -- intros [H _]. exact H.
  - split; [discriminate | intros [H _]; discriminate H].
Qed.

(** C7, amended: the request the transport constructs carries exactly
    the caller's signal when one is supplied, and then the configured
    timeout changes neither the request, nor what reaches [fetch], nor
    the result; without a caller signal and with a timeout that is a
    number other than 0 and [NaN], the request carries the signal of the
    controller that the timer aborts; without either it carries none.
    What reaches [fetch] is this request when there is no [onRequest]
    hook or the hook resolves to nothing, and otherwise the replacement
    the hook resolved to, with whatever signal that carries. *)
Theorem C7_effective_signal :
  forall (t : HttpTransport) (net : Network) (d : Descriptor) (w : world),
    (forall s,
        signal d = Some s ->
        (forall r, sent t d w = Some r -> request_signal r = Some s) /\
        forall x,
          sent (with_timeout t x) d w = sent t d w /\
          fst (request (with_timeout t x) net d w) = fst (request t net d w) /\
          fetches (trace (snd (request (with_timeout t x) net d w))) =
          fetches (trace (snd (request t net d w)))) /\
    (signal d = None ->
     forall ms r,
       timeout t = Some ms ->
       arms_timer ms ->
       sent t d w = Some r ->
       request_signal r = Some (ControllerSignal (controllers w)) /\
       exists rest,
         trace (snd (request t net d w)) =
         trace w
         ++ ControllerCreated (controllers w)
            :: TimerSet (next_timer w) ms (controllers w) :: rest) /\
    (signal d = None ->
     forall r,
       timeout t = None \/ (exists n, timeout t = Some n /\ ~ arms_timer n) ->
       sent t d w = Some r ->
       request_signal r = None) /\
    (forall r,
        sent t d w = Some r ->
        (onRequest t = None ->
         fetches (trace (snd (request t net d w))) = fetches (trace w) ++ [r])
        /\
        (forall hook,
            onRequest t = Some hook ->
            fetches (trace (snd (request t net d w))) =
            fetches (trace w)
            ++ match hook r with
               | Fulfilled (Some replacement) => [replacement]
               | Fulfilled None => [r]
               | Failed _ => []
               end)).
Proof.
  intros t net d w. split; [|split; [|split]].
  - intros s Hs. split.
    + intros r Hr. rewrite (sent_signal t d w r Hr), Hs. reflexivity.
    + intros x.
      assert (Hsent := sent_with_caller_signal t d w s x Hs).
      split; [exact Hsent|]. split.
      * rewrite !request_result, Hsent. reflexivity.
      * rewrite !request_fetches. unfold fetched_by. rewrite Hsent.
        reflexivity.
  - intros Hnone ms r Htimeout Harms Hr.
    assert (Hms : timeout_set t = Some ms)
      by (apply timeout_set_iff; split; assumption).
    split.
    + rewrite (sent_signal t d w r Hr), Hnone, Hms. reflexivity.
    + rewrite request_trace, Hms.
      unfold sent in Hr. destruct (build_url t d); [|discriminate Hr].
      eexists. reflexivity.
  - intros Hnone r Hoff Hr.
    rewrite (sent_signal t d w r Hr), Hnone.
    destruct (timeout_set t) as [ms|] eqn:Hms; [|reflexivity].
    apply timeout_set_iff in Hms. destruct Hms as [Htimeout Harms].
    destruct Hoff as [H | [n [H Hnot]]]; [congruence|].
    rewrite Htimeout in H. inversion H; subst n. contradiction.
  - intros r Hr. split.
    + intros Hhook. rewrite request_fetches. unfold fetched_by.
      rewrite Hr. unfold final_request, call_hook. rewrite Hhook.
      reflexivity.
    + intros hook Hhook. rewrite request_fetches. unfold fetched_by.
      rewrite Hr. unfold final_request, call_hook. rewrite Hhook.
      destruct (hook r) as [[replacement|] | tag]; reflexivity.
Qed.

Lemma filter_fresh (id : positive) (l : list (positive * number * nat)) :
  Forall (fun x => Pos.lt (fst (fst x)) id) l ->
  filter (fun x => negb (Pos.eqb (fst (fst x)) id)) l = l.
Proof.
  induction 1 as [|x r Hx Hr IH]; simpl; [reflexivity|].
  destruct (Pos.eqb_spec (fst (fst x)) id) as [E | E].
  - rewrite E in Hx. exfalso. exact (Pos.lt_irrefl _ Hx).
  - simpl. rewrite IH. reflexivity.
Qed.

(** C8: whatever the hooks, the network and the body readers do, the
    timers pending after a request are those pending before it; with a
    timeout the request sets one timer as soon as it has made its URL,
    and its last act is to clear it; a request that cannot make its URL
    has set none. *)
Theorem C8_timer_always_cleared :
  forall (t : HttpTransport) (net : Network) (d : Descriptor) (w : world),
    handles_fresh w ->
    timers (snd (request t net d w)) = timers w /\
    (forall ms url,
        timeout_set t = Some ms ->
        build_url t d = Some url ->
        exists mid,
          trace (snd (request t net d w)) =
          trace w
          ++ [ControllerCreated (controllers w);
              TimerSet (next_timer w) ms (controllers w)]
          ++ mid ++ [TimerCleared (next_timer w)]) /\
    (build_url t d = None -> snd (request t net d w) = w).
Proof.
  intros t net d w Hfresh. split; [|split].
  - rewrite request_timers.
    destruct (build_url t d); [|reflexivity].
    destruct (timeout_set t) as [ms|]; [|reflexivity].
    simpl. rewrite Pos.eqb_refl. simpl. apply filter_fresh. exact Hfresh.
  - intros ms url Hms Hurl. rewrite request_trace, Hurl, Hms.
    eexists. reflexivity.
  - intros Hnone. rewrite request_without_url by exact Hnone. reflexivity.
Qed.

(** Without a timeout in force a request creates neither a controller
    nor a timer. *)
Lemma request_without_timeout (t : HttpTransport) (net : Network)
  (d : Descriptor) (w : world) :
  timeout_set t = None ->
  controllers (snd (request t net d w)) = controllers w /\
  next_timer (snd (request t net d w)) = next_timer w /\
  timers (snd (request t net d w)) = timers w /\
  (forall r, sent t d w = Some r -> request_signal r = signal d).
Proof.
  intros Hnone. split; [|split; [|split]].
  - unfold request, attempt. rewrite Hnone.
    destruct (build_url t d) as [url|]; [|reflexivity].
    destruct (build_request t url d None) as [request|]; [|reflexivity].
    destruct (final_request t request) as [finalRequest | tag];
      [|reflexivity].
    destruct (final_response t net finalRequest); reflexivity.
  - unfold request, attempt. rewrite Hnone.
    destruct (build_url t d) as [url|]; [|reflexivity].
    destruct (build_request t url d None) as [request|]; [|reflexivity].
    destruct (final_request t request) as [finalRequest | tag];
      [|reflexivity].
    destruct (final_response t net finalRequest); reflexivity.
  - rewrite request_timers, Hnone. destruct (build_url t d); reflexivity.
  - intros r Hr. rewrite (sent_signal t d w r Hr), Hnone.
    destruct (signal d); reflexivity.
Qed.

Lemma request_with_timeout (t : HttpTransport) (net : Network)
  (d : Descriptor) (w : world) (ms : number) :
  timeout_set t = Some ms ->
  URL_canParse (url_reference d) (baseUrl t) = true ->
  controllers (snd (request t net d w)) = S (controllers w) /\
  next_timer (snd (request t net d w)) = Pos.succ (next_timer w) /\
  In (TimerSet (next_timer w) ms (controllers w))
    (trace (snd (request t net d w))).
Proof.
  intros Hms Hparse.
  assert (Hurl : exists url, build_url t d = Some url).
  { unfold build_url. rewrite Hparse. eexists. reflexivity. }
  destruct Hurl as [url Hurl].
  split; [|split].
  - unfold request, attempt. rewrite Hurl, Hms. simpl.
    destruct (build_request t url d _) as [request|]; [|reflexivity].
    destruct (final_request t request) as [finalRequest | tag]; simpl;
      [destruct (final_response t net finalRequest)|]; reflexivity.
  - unfold request, attempt. rewrite Hurl, Hms. simpl.
    destruct (build_request t url d _) as [request|]; [|reflexivity].
    destruct (final_request t request) as [finalRequest | tag]; simpl;
      [destruct (final_response t net finalRequest)|]; reflexivity.
  - rewrite request_trace, Hurl, Hms. apply in_or_app. right.
    simpl. right. left. reflexivity.
Qed.

(** C10, the code at the inputs the claim compares: with [timeout: 0]
    the constructor stores [0], a request creates neither a controller
    nor a timer, and it runs as on a transport whose [timeout] field is
    [null]; with [timeout: null] the constructor stores the default
    [10000] and every request, once the default server has given it a
    URL, creates a controller and arms a timer of 10000 ms. *)
Theorem C10_timeout_zero_and_null :
  let zero := constructor (Some (only_timeout (timeout_ms (of_Z 0)))) in
  let null := constructor (Some (only_timeout timeout_null)) in
  timeout zero = Some (of_Z 0) /\
  timeout_set zero = None /\
  (forall net d w,
      controllers (snd (request zero net d w)) = controllers w /\
      next_timer (snd (request zero net d w)) = next_timer w /\
      timers (snd (request zero net d w)) = timers w /\
      (forall r, sent zero d w = Some r -> request_signal r = signal d)) /\
  (forall net d w,
      request zero net d w = request (with_timeout zero None) net d w) /\
  timeout null = Some (of_Z 10000) /\
  timeout_set null = Some (of_Z 10000) /\
  (forall net d w,
      URL_canParse (url_reference d) "https://app.extended.exchange" = true ->
      controllers (snd (request null net d w)) = S (controllers w) /\
      next_timer (snd (request null net d w)) = Pos.succ (next_timer w) /\
      In (TimerSet (next_timer w) (of_Z 10000) (controllers w))
        (trace (snd (request null net d w)))).
Proof.
  intros zero null.
  split; [reflexivity|]. split; [reflexivity|].
  split; [intros; apply request_without_timeout; reflexivity|].
  split; [reflexivity|].
  split; [reflexivity|]. split; [reflexivity|].
  intros net d w Hparse. apply request_with_timeout; [reflexivity|].
  exact Hparse.
Qed.

End RequestProperties.

(* ================================================================== *)
(** * Properties of the schemas *)
(* ================================================================== *)

Section SchemaProperties.
Import Zod Schemas.
Local Open Scope list_scope.

(** ** Induction on schemas *)

Lemma schema_nested_ind (Q : schema -> Prop) :
  Q z_string ->
  Q z_boolean ->
  (forall checks, Q (z_number checks)) ->
  (forall lit, Q (z_literal lit)) ->
  (forall values, Q (z_enum values)) ->
  (forall options, Forall Q options -> Q (z_union options)) ->
  (forall item, Q item -> Q (z_array item)) ->
  (forall inner, Q inner -> Q (z_optional inner)) ->
  (forall shape, Forall (fun p => Q (snd p)) shape -> Q (z_object shape)) ->
  (forall discriminator options,
      Forall Q options -> Q (z_discriminatedUnion discriminator options)) ->
  Q unloaded ->
  forall s, Q s.
Proof.
  intros Hstring Hboolean Hnumber Hliteral Henum Hunion Harray Hoptional
    Hobject Hvariants Hunloaded.
  fix IH 1. intros s.
  destruct s as [ | | checks | lit | values | options | item | inner
                | shape | discriminator options | ].
  - exact Hstring.
  - exact Hboolean.
  - apply Hnumber.
  - apply Hliteral.
  - apply Henum.
  - apply Hunion.
    refine ((fix all (l : list schema) : Forall Q l :=
               match l with
               | [] => Forall_nil Q
               | o :: r => Forall_cons o (IH o) (all r)
               end) options).
  - apply Harray. apply IH.
  - apply Hoptional. apply IH.
  - apply Hobject.
    refine ((fix all (l : list (string * schema))
               : Forall (fun p => Q (snd p)) l :=
               match l with
               | [] => Forall_nil _
               | p :: r => Forall_cons p (IH (snd p)) (all r)
               end) shape).
  - apply Hvariants.
    refine ((fix all (l : list schema) : Forall Q l :=
               match l with
               | [] => Forall_nil Q
               | o :: r => Forall_cons o (IH o) (all r)
               end) options).
  - exact Hunloaded.
Qed.

(** ** The combinators, list by list *)

Lemma parse_object (shape : list (string * schema))
  (props : list (string * value)) :
  parse (z_object shape) (VObj props) =
  parsed_map VObj (parse_fields props shape).
Proof.
  simpl. f_equal. induction shape as [|[key ks] r IH]; simpl.
  - reflexivity.
  - rewrite IH. reflexivity.
Qed.

Lemma parse_array (item : schema) (items : list value) :
  parse (z_array item) (VArr items) =
  parsed_map VArr (parse_items item items).
Proof.
  simpl. f_equal. induction items as [|x r IH]; simpl.
  - reflexivity.
  - rewrite IH. reflexivity.
Qed.

Lemma parse_union (options : list schema) (v : value) :
  parse (z_union options) v = parse_first options v.
Proof.
  simpl. induction options as [|o r IH]; simpl.
  - reflexivity.
  - rewrite IH. reflexivity.
Qed.

Lemma parse_variants (discriminator : string) (options : list schema)
  (props : list (string * value)) :
  parse (z_discriminatedUnion discriminator options) (VObj props) =
  parse_pick discriminator options props.
Proof.
  simpl. induction options as [|o r IH]; simpl.
  - reflexivity.
  - rewrite IH. reflexivity.
Qed.

Lemma loaded_object (shape : list (string * schema)) :
  loaded (z_object shape) = forallb (fun p => loaded (snd p)) shape.
Proof.
  simpl. induction shape as [|[key ks] r IH]; simpl.
  - reflexivity.
  - rewrite IH. reflexivity.
Qed.

Lemma loaded_union (options : list schema) :
  loaded (z_union options) = forallb loaded options.
Proof.
  simpl. induction options as [|o r IH]; simpl.
  - reflexivity.
  - rewrite IH. reflexivity.
Qed.

Lemma loaded_variants (discriminator : string) (options : list schema) :
  loaded (z_discriminatedUnion discriminator options) =
  forallb loaded options.
Proof.
  simpl. induction options as [|o r IH]; simpl.
  - reflexivity.
  - rewrite IH. reflexivity.
Qed.

Lemma parse_object_inv (shape : list (string * schema)) (v out : value) :
  parse (z_object shape) v = Valid out ->
  exists props fields,
    v = VObj props /\ out = VObj fields /\
    parse_fields props shape = Valid fields.
Proof.
  destruct v as [| | b | n | s | items | props]; try discriminate.
  rewrite parse_object.
  destruct (parse_fields props shape) as [fields| |] eqn:E;
    try discriminate.
  simpl. intros H. inversion H; subst.
  exists props, fields. repeat split; [exact E].
Qed.

(** ** Raising *)

Lemma parse_fields_raised (props : list (string * value))
  (shape : list (string * schema)) :
  parse_fields props shape = Raised <->
  exists key ks, In (key, ks) shape /\ parse ks (field key props) = Raised.
Proof.
  induction shape as [|[key ks] r IH]; simpl.
  - split; [discriminate | intros [key [ks [[] _]]]].
  - destruct (parse ks (field key props)) as [y| |] eqn:Ey.
    + destruct (parse_fields props r) as [ys| |] eqn:Er.
      * split.
        -- destruct (negb (is_undefined y) || has key props); discriminate.
        -- intros [key' [ks' [[Heq | Hin] Hr]]].
           ++ inversion Heq; subst. congruence.
           ++ assert (H : @Valid (list (string * value)) ys = Raised)
                by (apply IH; exists key', ks'; split; assumption).
              discriminate H.
      * split; [discriminate|].
        intros [key' [ks' [[Heq | Hin] Hr]]].
        -- inversion Heq; subst. congruence.
        -- assert (H : @Invalid (list (string * value)) = Raised)
             by (apply IH; exists key', ks'; split; assumption).
           discriminate H.
      * split; [|reflexivity]. intros _.
        destruct (proj1 IH eq_refl) as [key' [ks' [Hin Hr]]].
        exists key', ks'. split; [right; exact Hin | exact Hr].
    + destruct (parse_fields props r) as [ys| |] eqn:Er.
      * split; [discriminate|].
        intros [key' [ks' [[Heq | Hin] Hr]]].
        -- inversion Heq; subst. congruence.
        -- assert (H : @Valid (list (string * value)) ys = Raised)
             by (apply IH; exists key', ks'; split; assumption).
           discriminate H.
      * split; [discriminate|].
        intros [key' [ks' [[Heq | Hin] Hr]]].
        -- inversion Heq; subst. congruence.
        -- assert (H : @Invalid (list (string * value)) = Raised)
             by (apply IH; exists key', ks'; split; assumption).
           discriminate H.
      * split; [|reflexivity]. intros _.
        destruct (proj1 IH eq_refl) as [key' [ks' [Hin Hr]]].
        exists key', ks'. split; [right; exact Hin | exact Hr].
    + split; [|reflexivity]. intros _.
      exists key, ks. split; [left; reflexivity | exact Ey].
Qed.

Lemma parse_items_raised (item : schema) (items : list value) :
  parse_items item items = Raised <->
  exists x, In x items /\ parse item x = Raised.
Proof.
  induction items as [|x r IH]; simpl.
  - split; [discriminate | intros [x [[] _]]].
  - destruct (parse item x) as [y| |] eqn:Ex.
    + destruct (parse_items item r) as [ys| |] eqn:Er.
      * split; [discriminate|].
        intros [x' [[Heq | Hin] Hr]]; [subst x'; congruence|].
        assert (H : @Valid (list value) ys = Raised)
          by (apply IH; exists x'; split; assumption).
        discriminate H.
      * split; [discriminate|].
        intros [x' [[Heq | Hin] Hr]]; [subst x'; congruence|].
        assert (H : @Invalid (list value) = Raised)
          by (apply IH; exists x'; split; assumption).
        discriminate H.
      * split; [|reflexivity]. intros _.
        destruct (proj1 IH eq_refl) as [x' [Hin Hr]].
        exists x'. split; [right; exact Hin | exact Hr].
    + destruct (parse_items item r) as [ys| |] eqn:Er.
      * split; [discriminate|].
        intros [x' [[Heq | Hin] Hr]]; [subst x'; congruence|].
        assert (H : @Valid (list value) ys = Raised)
          by (apply IH; exists x'; split; assumption).
        discriminate H.
      * split; [discriminate|].
        intros [x' [[Heq | Hin] Hr]]; [subst x'; congruence|].
        assert (H : @Invalid (list value) = Raised)
          by (apply IH; exists x'; split; assumption).
        discriminate H.
      * split; [|reflexivity]. intros _.
        destruct (proj1 IH eq_refl) as [x' [Hin Hr]].
        exists x'. split; [right; exact Hin | exact Hr].
    + split; [|reflexivity]. intros _.
      exists x. split; [left; reflexivity | exact Ex].
Qed.

(** A schema in which nothing is [undefined] never raises: its
    [safeParse] always reports. *)
Lemma loaded_never_raises (s : schema) :
  loaded s = true -> forall v, parse s v <> Raised.
Proof.
  induction s as [ | | checks | lit | values | options IH | item IH
                 | inner IH | shape IH | discriminator options IH | ]
    using schema_nested_ind; intros Hloaded v.
  - destruct v; discriminate.
  - destruct v; discriminate.
  - destruct v as [| | b | n | s | items | props]; try discriminate.
    simpl. destruct n; try discriminate;
      destruct (forallb _ checks); discriminate.
  - simpl. destruct (is_string v lit); discriminate.
  - destruct v as [| | b | n | s | items | props]; try discriminate.
    simpl. destruct (existsb _ values); discriminate.
  - rewrite loaded_union in Hloaded. rewrite parse_union.
    induction options as [|o r IHr]; simpl; [discriminate|].
    simpl in Hloaded. apply andb_true_iff in Hloaded.
    destruct Hloaded as [Ho Hr]. inversion IH as [|? ? Hhead Htail]; subst.
    destruct (parse o v) eqn:E; [discriminate | apply IHr; assumption |].
    exfalso. exact (Hhead Ho v E).
  - destruct v as [| | b | n | s | items | props]; try discriminate.
    rewrite parse_array. simpl in Hloaded.
    destruct (parse_items item items) eqn:E; try discriminate.
    apply parse_items_raised in E. destruct E as [x [_ Hx]].
    exfalso. exact (IH Hloaded x Hx).
  - simpl in Hloaded. destruct v; try (apply IH; exact Hloaded).
    discriminate.
  - destruct v as [| | b | n | s | items | props]; try discriminate.
    rewrite parse_object. rewrite loaded_object in Hloaded.
    destruct (parse_fields props shape) eqn:E; try discriminate.
    apply parse_fields_raised in E. destruct E as [key [ks [Hin Hr]]].
    exfalso. rewrite Forall_forall in IH.
    rewrite forallb_forall in Hloaded.
    exact (IH (key, ks) Hin (Hloaded (key, ks) Hin) _ Hr).
  - destruct v as [| | b | n | s | items | props]; try discriminate.
    rewrite parse_variants. rewrite loaded_variants in Hloaded.
    induction options as [|o r IHr]; simpl; [discriminate|].
    simpl in Hloaded. apply andb_true_iff in Hloaded.
    destruct Hloaded as [Ho Hr]. inversion IH as [|? ? Hhead Htail]; subst.
    destruct (discriminator_of discriminator o) as [lit|];
      [|apply IHr; assumption].
    destruct (is_string (field discriminator props) lit);
      [apply Hhead; exact Ho | apply IHr; assumption].
  - discriminate Hloaded.
Qed.

(** ** Fields *)

(** An accepted object has all the fields of the shape acceptable. *)
Lemma parse_fields_required (props : list (string * value))
  (shape : list (string * schema)) (fields : list (string * value)) :
  parse_fields props shape = Valid fields ->
  forall key ks, In (key, ks) shape ->
                 exists y, parse ks (field key props) = Valid y.
Proof.
  revert fields. induction shape as [|[key' ks'] r IH]; intros fields H key ks Hin.
  - destruct Hin.
  - simpl in H.
    destruct (parse ks' (field key' props)) as [y| |] eqn:Ey;
      try (destruct (parse_fields props r); discriminate).
    destruct (parse_fields props r) as [ys| |] eqn:Er; try discriminate.
    destruct Hin as [Heq | Hin].
    + inversion Heq; subst. exists y. exact Ey.
    + apply (IH ys eq_refl key ks Hin).
Qed.

Lemma assoc_app_other {A : Type} (key other : string)
  (l : list (string * A)) (x : A) :
  other <> key -> assoc other (l ++ [(key, x)]) = assoc other l.
Proof.
  intros Hneq. induction l as [|[k a] r IH]; simpl.
  - destruct (String.eqb other key) eqn:E; [|reflexivity].
    apply String.eqb_eq in E. congruence.
  - destruct (String.eqb other k); [reflexivity | exact IH].
Qed.

(** A key the shape does not name makes no difference to the fields. *)
Lemma parse_fields_extra (props : list (string * value))
  (shape : list (string * schema)) (key : string) (x : value) :
  ~ In key (map fst shape) ->
  parse_fields (props ++ [(key, x)]) shape = parse_fields props shape.
Proof.
  induction shape as [|[key' ks] r IH]; intros Hnot; simpl.
  - reflexivity.
  - assert (Hneq : key' <> key) by (intros ->; apply Hnot; left; reflexivity).
    unfold field, has. rewrite (assoc_app_other key key' props x Hneq).
    rewrite IH by (intros Hin; apply Hnot; right; exact Hin).
    reflexivity.
Qed.

Lemma is_string_VStr (v : value) (s : string) :
  is_string v s = true <-> v = VStr s.
Proof.
  split.
  - destruct v; simpl; try discriminate.
    intros H. apply String.eqb_eq in H. congruence.
  - intros ->. simpl. apply String.eqb_refl.
Qed.

(** The discriminated union of an [OK] variant and an [ERROR] variant. *)
Lemma parse_envelope (okShape : list (string * schema)) (codes_ : schema)
  (props : list (string * value)) :
  parse
    (z_discriminatedUnion "status"
       [z_object (("status", z_literal "OK") :: okShape);
        error_variant codes_])
    (VObj props) =
  if is_string (field "status" props) "OK" then
    parse (z_object (("status", z_literal "OK") :: okShape)) (VObj props)
  else if is_string (field "status" props) "ERROR" then
    parse (error_variant codes_) (VObj props)
  else Invalid.
Proof. reflexivity. Qed.

Lemma parse_envelope_other (okShape : list (string * schema))
  (codes_ : schema) (v : value) :
  (forall props, v <> VObj props) ->
  parse
    (z_discriminatedUnion "status"
       [z_object (("status", z_literal "OK") :: okShape);
        error_variant codes_]) v = Invalid.
Proof.
  intros H. destruct v; try reflexivity. exfalso. apply (H props). reflexivity.
Qed.

(** What the schema of every endpoint is made of. *)
Lemma endpoints_shape (first : entered_first) (e : endpoint) :
  In e (endpoints first) ->
  exists rest,
    response e = z_discriminatedUnion "status" [success e; failure e] /\
    success e =
      z_object (("status", z_literal "OK") :: ("data", payload e) :: rest) /\
    failure e = error_variant (codes e) /\
    (forall key, In key (map fst rest) -> key = "pagination") /\
    (forall out, parse (payload e) VUndefined <> Valid out) /\
    (forall out, parse (codes e) VUndefined <> Valid out).
Proof.
  intros Hin. simpl in Hin.
  repeat (destruct Hin as [<- | Hin];
          [eexists;
           split; [reflexivity|]; split; [reflexivity|];
           split; [reflexivity|];
           split;
           [simpl; intros key Hkey;
            repeat (destruct Hkey as [<- | Hkey]; [reflexivity|]);
            destruct Hkey|];
           split; intros out H; destruct first; vm_compute in H;
           discriminate H|]).
  destruct Hin.
Qed.

Lemma field_app_other (key other : string) (props : list (string * value))
  (x : value) :
  other <> key -> field other (props ++ [(key, x)]) = field other props.
Proof.
  intros Hneq. unfold field. rewrite assoc_app_other by exact Hneq.
  reflexivity.
Qed.

Lemma field_absent (key : string) (props : list (string * value)) :
  has key props = false -> field key props = VUndefined.
Proof.
  unfold has, field. destruct (assoc key props); [discriminate | reflexivity].
Qed.

(** With nothing that raises, one field that is not acceptable makes the
    object unacceptable. *)
Lemma parse_fields_missing (props : list (string * value))
  (shape : list (string * schema)) (key : string) (ks : schema) :
  forallb (fun p => loaded (snd p)) shape = true ->
  In (key, ks) shape ->
  (forall y, parse ks (field key props) <> Valid y) ->
  parse_fields props shape = Invalid.
Proof.
  intros Hloaded Hin Hnot.
  destruct (parse_fields props shape) as [fields| |] eqn:E.
  - destruct (parse_fields_required props shape fields E key ks Hin) as [y Hy].
    exfalso. exact (Hnot y Hy).
  - reflexivity.
  - apply parse_fields_raised in E. destruct E as [key' [ks' [Hin' Hr]]].
    rewrite forallb_forall in Hloaded.
    exfalso. exact (loaded_never_raises ks' (Hloaded (key', ks') Hin') _ Hr).
Qed.

Lemma parse_string_inv (v out : value) :
  parse z_string v = Valid out -> exists s, v = VStr s.
Proof.
  destruct v; try discriminate. intros _. eexists. reflexivity.
Qed.

(** ** Keys a schema does not name *)

Lemma agree_undefined (s : schema) (v v' : value) :
  agree s v v' -> is_undefined v = is_undefined v'.
Proof.
  induction 1; reflexivity || assumption.
Qed.

Lemma parse_fields_agree (props props' : list (string * value))
  (shape : list (string * schema)) :
  (forall key ks, In (key, ks) shape -> has key props = has key props') ->
  (forall key ks, In (key, ks) shape ->
                  parse ks (field key props) = parse ks (field key props')) ->
  parse_fields props shape = parse_fields props' shape.
Proof.
  induction shape as [|[key ks] r IH]; intros Hhas Hparse; simpl.
  - reflexivity.
  - rewrite (Hhas key ks) by (left; reflexivity).
    rewrite (Hparse key ks) by (left; reflexivity).
    rewrite IH; [reflexivity | |].
    + intros key' ks' Hin. apply (Hhas key' ks'). right. exact Hin.
    + intros key' ks' Hin. apply (Hparse key' ks'). right. exact Hin.
Qed.

Lemma parse_items_agree (item : schema) (xs ys : list value) :
  (forall x y, agree item x y -> parse item x = parse item y) ->
  Forall2 (agree item) xs ys ->
  parse_items item xs = parse_items item ys.
Proof.
  intros Hitem Hall. induction Hall as [|x y xs' ys' Hxy _ IH]; simpl.
  - reflexivity.
  - rewrite (Hitem x y Hxy), IH. reflexivity.
Qed.

(** A schema parses two values it cannot tell apart to the same result:
    keys that no object schema on the way names change neither the
    verdict nor the parsed data. *)
Lemma parse_agree (s : schema) :
  forall v v', agree s v v' -> parse s v = parse s v'.
Proof.
  induction s as [ | | checks | lit | values | options IH | item IH
                 | inner IH | shape IH | discriminator options IH | ]
    using schema_nested_ind; intros v v' H;
    inversion H; subst; try reflexivity.
  - rewrite !parse_array. f_equal.
    apply parse_items_agree; assumption.
  - match goal with
    | Hinner : agree inner v v' |- _ =>
        assert (Hu := agree_undefined _ _ _ Hinner);
        assert (Hp := IH _ _ Hinner)
    end.
    destruct v, v'; simpl in *; try discriminate Hu; try exact Hp;
      reflexivity.
  - rewrite !parse_object. f_equal.
    apply parse_fields_agree; [assumption|].
    intros key ks Hin. rewrite Forall_forall in IH.
    apply (IH (key, ks) Hin). auto.
  - rewrite !parse_variants.
    match goal with
    | Hfield : field discriminator _ = field discriminator _,
      Hsel : forall o lit, In o options -> _ |- _ =>
        revert Hsel; generalize Hfield; clear H
    end.
    intros Hfield.
    induction options as [|o r IHr]; intros Hsel; simpl; [reflexivity|].
    inversion IH as [|? ? Hhead Htail]; subst.
    destruct (discriminator_of discriminator o) as [lit|] eqn:Hd.
    + rewrite <- Hfield.
      destruct (is_string (field discriminator props) lit) eqn:Hlit.
      * apply Hhead. apply (Hsel o lit); [left; reflexivity | exact Hd
                                          | exact Hlit].
      * apply IHr; [exact Htail|].
        intros o' lit' Hin. apply Hsel. right. exact Hin.
    + apply IHr; [exact Htail|].
      intros o' lit' Hin. apply Hsel. right. exact Hin.
Qed.

(** C3, amended: for the response schema of every endpoint in which no
    part is [undefined], and for every value, validation reports a
    result and does not raise; a value is accepted only if it is an
    object whose [status] is [OK] and whose [data] the endpoint's data
    schema accepts, or whose [status] is [ERROR] and whose [error] is an
    object with a [code] the endpoint's code union accepts and a string
    [message]; a missing [status], [data], [error], [code] or [message]
    rejects; keys that the object schemas do not name, at whatever
    depth, do not reject: a value with such keys is parsed to the same
    result as the value without them. *)
Theorem C3_envelope_validation :
  forall (first : entered_first) (e : endpoint),
    In e (endpoints first) ->
    loaded (response e) = true ->
    forall v : value,
      (safeParse (response e) v = Some Failure \/
       exists out, safeParse (response e) v = Some (Success out)) /\
      (forall out,
          safeParse (response e) v = Some (Success out) ->
          exists props,
            v = VObj props /\
            ((field "status" props = VStr "OK" /\
              parse (success e) v = Valid out /\
              exists dat, parse (payload e) (field "data" props) = Valid dat)
             \/
             (field "status" props = VStr "ERROR" /\
              parse (failure e) v = Valid out /\
              exists eprops,
                field "error" props = VObj eprops /\
                (exists c, parse (codes e) (field "code" eprops) = Valid c) /\
                (exists m, field "message" eprops = VStr m)))) /\
      (forall props,
          v = VObj props ->
          has "status" props = false \/
          (field "status" props = VStr "OK" /\ has "data" props = false) \/
          (field "status" props = VStr "ERROR" /\
           (has "error" props = false \/
            exists eprops,
              field "error" props = VObj eprops /\
              (has "code" eprops = false \/ has "message" eprops = false))) ->
          safeParse (response e) v = Some Failure) /\
      (forall v',
          agree (response e) v v' ->
          safeParse (response e) v' = safeParse (response e) v).
Proof.
  intros first e Hin Hloaded v.
  assert (Hreports : parse (response e) v <> Raised)
    by (apply loaded_never_raises; exact Hloaded).
  destruct (endpoints_shape first e Hin)
    as [rest [Hresponse [Hsuccess [Hfailure [Hrest [Hpayload Hcodes]]]]]].
  assert (Hparts :
            forallb (fun p => loaded (snd p))
              (("status", z_literal "OK") :: ("data", payload e) :: rest)
            = true /\
            forallb (fun p => loaded (snd p))
              [("code", codes e); ("message", z_string)] = true).
  { rewrite Hresponse, loaded_variants in Hloaded. simpl in Hloaded.
    rewrite andb_true_r in Hloaded. apply andb_true_iff in Hloaded.
    destruct Hloaded as [Hs Hf].
    rewrite Hsuccess, loaded_object in Hs.
    rewrite Hfailure in Hf. unfold error_variant in Hf.
    rewrite loaded_object in Hf. simpl in Hf.
    rewrite andb_true_r in Hf.
    split; [exact Hs | simpl; exact Hf]. }
  destruct Hparts as [HloadedOk HloadedErr].
  assert (HloadedFailure :
            forallb (fun p => loaded (snd p))
              [("status", z_literal "ERROR");
               ("error", z_object [("code", codes e); ("message", z_string)])]
            = true).
  { cbn [forallb snd]. rewrite loaded_object, HloadedErr. reflexivity. }
  rewrite Hresponse, Hsuccess, Hfailure in Hreports |- *.
  clear Hresponse Hsuccess Hfailure Hin.
  set (C := codes e) in *. set (D := payload e) in *.
  rename Hcodes into HC. rename Hpayload into HD.
  clearbody C D.
  split; [|split; [|split]].
  - unfold safeParse. destruct (parse _ v) as [out| |].
    + right. exists out. reflexivity.
    + left. reflexivity.
    + exfalso. apply Hreports. reflexivity.
  - intros out. unfold safeParse.
    destruct (parse _ v) as [out'| |] eqn:E; try discriminate.
    intros Hout. inversion Hout; subst out'. clear Hout.
    destruct v as [| | b | n | s | items | props]; try discriminate.
    exists props. split; [reflexivity|].
    rewrite parse_envelope in E.
    destruct (is_string (field "status" props) "OK") eqn:Hok.
    + left. apply is_string_VStr in Hok. split; [exact Hok|].
      split; [exact E|].
      destruct (parse_object_inv _ _ _ E) as [props' [fields [Hv [_ Hf]]]].
      inversion Hv; subst props'.
      apply (parse_fields_required props _ fields Hf "data" D).
      right. left. reflexivity.
    + destruct (is_string (field "status" props) "ERROR") eqn:Herr;
        [|discriminate].
      right. apply is_string_VStr in Herr. split; [exact Herr|].
      split; [exact E|].
      destruct (parse_object_inv _ _ _ E) as [props' [fields [Hv [_ Hf]]]].
      inversion Hv; subst props'.
      destruct (parse_fields_required props _ fields Hf "error"
                  (z_object [("code", C); ("message", z_string)]))
        as [y Hy]; [right; left; reflexivity|].
      destruct (parse_object_inv _ _ _ Hy) as [eprops [efields [He [_ Hef]]]].
      exists eprops. split; [exact He|]. split.
      * apply (parse_fields_required eprops _ efields Hef "code" C).
        left. reflexivity.
      * destruct (parse_fields_required eprops _ efields Hef
                    "message" z_string) as [m Hm];
          [right; left; reflexivity|].
        apply parse_string_inv in Hm. exact Hm.
  - intros props -> Hmissing. unfold safeParse.
    rewrite parse_envelope.
    destruct Hmissing as [Hstatus | [[Hstatus Hdata] | [Hstatus Herror]]].
    + rewrite (field_absent _ _ Hstatus). reflexivity.
    + rewrite Hstatus. simpl is_string. cbv iota.
      rewrite parse_object.
      rewrite (parse_fields_missing props _ "data" D HloadedOk);
        [reflexivity | right; left; reflexivity |].
      rewrite (field_absent _ _ Hdata). exact HD.
    + rewrite Hstatus. simpl is_string. cbv iota.
      unfold error_variant. rewrite parse_object.
      rewrite (parse_fields_missing props _ "error"
                 (z_object [("code", C); ("message", z_string)])
                 HloadedFailure);
        [reflexivity | right; left; reflexivity |].
      destruct Herror as [Herror | [eprops [Herror Hinner]]].
      * rewrite (field_absent _ _ Herror). discriminate.
      * rewrite Herror, parse_object.
        destruct Hinner as [Hcode | Hmessage].
        -- rewrite (parse_fields_missing eprops _ "code" C HloadedErr);
             [discriminate | left; reflexivity |].
           rewrite (field_absent _ _ Hcode). exact HC.
        -- rewrite (parse_fields_missing eprops _ "message" z_string
                      HloadedErr);
             [discriminate | right; left; reflexivity |].
           rewrite (field_absent _ _ Hmessage). discriminate.
  - intros v' Hagree. unfold safeParse.
    rewrite (parse_agree _ v v' Hagree). reflexivity.
Qed.

End SchemaProperties.

(* ================================================================== *)
(** * Worked examples *)
(* ================================================================== *)

Section Examples.
Import InfoClient Http Zod Schemas Example.
#[local] Existing Instance Example.platform.
Local Open Scope list_scope.

(** C1 as stated fails for [marketOrderBook]: the lower-case symbol
    [btc-usd] does not match [^[A-Z-]+$], yet the method raises nothing
    and calls the transport. *)
Lemma C1_marketOrderBook_unchecked :
  matches_market "btc-usd" = false /\
  ~ rejected_locally (marketOrderBook "btc-usd" None) /\
  invocations (marketOrderBook "btc-usd" None) <> [].
Proof.
  split; [reflexivity|]. split.
  - intros [message [H _]]. discriminate H.
  - discriminate.
Qed.

Lemma C1_symbol_validation_witness :
  ("btc-usd" = EmptyString \/ matches_market "btc-usd" = false) /\
  rejected_locally (marketStats "btc-usd" None).
Proof.
  split.
  - right. reflexivity.
  - exact (proj1 (C1_symbol_validation "btc-usd" (or_intror eq_refl) None
                    "trades" "1m" (of_Z 10) (of_Z 1) (of_Z 2)
                    None None None)).
Defined.

(** C2, the code at a template that names a placeholder twice: only the
    first [{market}] is substituted, the second stays in the path. *)
Theorem C2_only_first_occurrence :
  forall P : Platform,
    @apply_path_params P "info/{market}/funding/{market}"
      [("market", PStr "BTC-USD")]
    = "info/BTC-USD/funding/{market}" /\
    @apply_path_params P "info/{market}/funding/{market}"
      [("market", PStr "BTC-USD")]
    <> "info/BTC-USD/funding/BTC-USD".
Proof.
  intros P. split; [reflexivity | discriminate].
Qed.

(** C3 as stated fails on a key the schema does not name: the candles
    schema accepts an [OK] envelope that carries [extra], and leaves the
    key out of the parsed data. *)
Lemma C3_extra_key_accepted :
  safeParse GetCandlesHistoryResponseSchema
    (VObj [("status", VStr "OK"); ("data", VArr []); ("extra", VNull)])
  = Some (Success (VObj [("status", VStr "OK"); ("data", VArr [])])).
Proof. reflexivity. Qed.

Lemma one_candle_agrees :
  agree GetCandlesHistoryResponseSchema one_candle one_candle_and_more.
Proof.
  apply agree_variant; [reflexivity|].
  intros o lit [<- | [<- | []]] Hlit Hstatus;
    [|vm_compute in Hlit; inversion Hlit; subst lit; discriminate Hstatus].
  apply agree_object.
  - intros key ks [H | [H | []]]; inversion H; reflexivity.
  - intros key ks [H | [H | []]]; inversion H; subst key ks.
    + apply agree_same.
    + apply (agree_array CandleSchema [VObj a_candle]
               [VObj (a_candle ++ [("note", VStr "x")])]).
      constructor; [|constructor].
      apply agree_object.
      * intros key ks Hin. simpl in Hin.
        repeat (destruct Hin as [Heq | Hin];
                [inversion Heq; reflexivity|]).
        destruct Hin.
      * intros key ks Hin. simpl in Hin.
        repeat (destruct Hin as [Heq | Hin];
                [inversion Heq; apply agree_same|]).
        destruct Hin.
Qed.

Lemma C3_envelope_validation_witness :
  In candles_endpoint (endpoints markets_module) /\
  loaded (response candles_endpoint) = true /\
  agree GetCandlesHistoryResponseSchema one_candle one_candle_and_more /\
  safeParse GetCandlesHistoryResponseSchema one_candle_and_more
  = safeParse GetCandlesHistoryResponseSchema one_candle /\
  safeParse GetCandlesHistoryResponseSchema one_candle
  = Some (Success one_candle).
Proof.
  assert (Hin : In candles_endpoint (endpoints markets_module)).
  { do 4 right. left. reflexivity. }
  split; [exact Hin|]. split; [reflexivity|].
  split; [exact one_candle_agrees|]. split; [|reflexivity].
  exact (proj2 (proj2 (proj2
           (C3_envelope_validation markets_module candles_endpoint Hin
              eq_refl one_candle)))
           one_candle_and_more one_candle_agrees).
Defined.

(** C6 as stated fails in two ways.  It speaks of the response received:
    with an [onResponse] hook that resolves to a replacement, a received
    404 raises nothing and the request returns the body of the
    replacement.  And it speaks of a content type that is JSON: the
    header [Application/JSON], a JSON media type written in other
    letters, is refused, while [text/plain; was=application/json], which
    is not one, is let through. *)
Lemma C6_replaced_response_and_letter_case :
  fst (request (constructor (Some (replacing_response (json_response two_rates))))
         (answering not_found) (markets_request None) fresh)
  = Resolved two_rates /\
  fst (request (constructor None)
         (answering (typed_response (Some "Application/JSON") two_rates))
         (markets_request None) fresh)
  = Rejected
      (HttpRequestError 200
         (Some "Expected JSON response, got Application/JSON")) /\
  fst (request (constructor None)
         (answering
            (typed_response (Some "text/plain; was=application/json")
               two_rates))
         (markets_request None) fresh)
  = Resolved two_rates.
Proof. repeat split. Qed.

Lemma C6_response_classification_witness :
  (status not_found < 200 \/ 299 < status not_found)%Z /\
  fst (request (constructor None) (answering not_found)
         (markets_request None) fresh)
  = Rejected (HttpRequestError 404 (Some "nope")) /\
  ~ occurs_in "application/json" "text/html" /\
  fst (request (constructor None)
         (answering (typed_response (Some "text/html") two_rates))
         (markets_request None) fresh)
  = Rejected (HttpRequestError 200 (Some "Expected JSON response, got text/html"))
  /\
  fst (request (constructor None)
         (answering (typed_response None two_rates))
         (markets_request None) fresh)
  = Rejected (HttpRequestError 200 (Some "Expected JSON response, got null"))
  /\
  occurs_in "application/json" "application/json; charset=utf-8" /\
  fst (request (constructor None) (answering (json_response two_rates))
         (markets_request None) fresh)
  = Resolved two_rates.
Proof.
  assert (Hhtml : ~ occurs_in "application/json" "text/html").
  { intros H. apply includes_iff_occurs in H. discriminate H. }
  assert (Hjson : occurs_in "application/json"
                    "application/json; charset=utf-8").
  { exists EmptyString, "; charset=utf-8"%string. reflexivity. }
  assert (Hok : forall v ct,
             (200 <= status (typed_response ct v) <= 299)%Z).
  { intros v ct. split; discriminate. }
  split; [right; reflexivity|]. split.
  - exact (proj1 (proj1 (C6_response_classification
             (constructor None) (answering not_found)
             (markets_request None) fresh)
             _ _ not_found eq_refl eq_refl eq_refl) (or_intror eq_refl)).
  - split; [exact Hhtml|]. split; [|split; [|split; [exact Hjson|]]].
    + exact (proj1 (proj2 (proj2 (proj1 (C6_response_classification
               (constructor None)
               (answering (typed_response (Some "text/html") two_rates))
               (markets_request None) fresh)
               _ _ (typed_response (Some "text/html") two_rates)
               eq_refl eq_refl eq_refl)))
               (Hok _ _) "text/html"%string eq_refl Hhtml).
    + exact (proj1 (proj2 (proj1 (C6_response_classification
               (constructor None)
               (answering (typed_response None two_rates))
               (markets_request None) fresh)
               _ _ (typed_response None two_rates)
               eq_refl eq_refl eq_refl))
               (Hok _ _) eq_refl).
    + exact (proj2 (proj2 (proj2 (proj1 (C6_response_classification
               (constructor None)
               (answering (json_response two_rates))
               (markets_request None) fresh)
               _ _ (json_response two_rates)
               eq_refl eq_refl eq_refl)))
               (Hok _ _) "application/json; charset=utf-8"%string
               eq_refl Hjson).
Defined.

(** C7 as stated fails when an [onRequest] hook resolves to a
    replacement: the caller supplies a signal, yet the request handed to
    [fetch] is the replacement and carries the signal the hook gave
    it. *)
Lemma C7_replaced_request_signal :
  signal (markets_request (Some (CallerSignal 7))) = Some (CallerSignal 7) /\
  map request_signal
    (fetches
       (trace
          (snd (request (constructor (Some (resignalling (CallerSignal 9))))
                  (answering not_found)
                  (markets_request (Some (CallerSignal 7))) fresh))))
  = [Some (CallerSignal 9)].
Proof. split; reflexivity. Qed.

Lemma C7_effective_signal_witness :
  (signal (markets_request (Some (CallerSignal 7))) = Some (CallerSignal 7) /\
   map request_signal
     (fetches
        (trace
           (snd (request (constructor None) (answering not_found)
                   (markets_request (Some (CallerSignal 7))) fresh))))
   = [Some (CallerSignal 7)]) /\
  (signal (markets_request None) = None /\
   timeout (constructor None) = Some (of_Z 10000) /\
   arms_timer (of_Z 10000) /\
   map request_signal
     (fetches
        (trace
           (snd (request (constructor None) (answering not_found)
                   (markets_request None) fresh))))
   = [Some (ControllerSignal 0)]).
Proof.
  assert (Harms : arms_timer (of_Z 10000)) by (intros H; discriminate H).
  split.
  - split; [reflexivity|].
    destruct (C7_effective_signal (constructor None) (answering not_found)
                (markets_request (Some (CallerSignal 7))) fresh)
      as [Hcaller [_ [_ Hfetch]]].
    destruct (Hcaller (CallerSignal 7) eq_refl) as [Hsignal _].
    destruct (sent (constructor None)
                (markets_request (Some (CallerSignal 7))) fresh)
      as [r|] eqn:Hsent; [|discriminate Hsent].
    rewrite (proj1 (Hfetch r eq_refl) eq_refl). simpl.
    rewrite (Hsignal r eq_refl). reflexivity.
  - split; [reflexivity|]. split; [reflexivity|]. split; [exact Harms|].
    destruct (C7_effective_signal (constructor None) (answering not_found)
                (markets_request None) fresh)
      as [_ [Htimer [_ Hfetch]]].
    destruct (sent (constructor None) (markets_request None) fresh)
      as [r|] eqn:Hsent; [|discriminate Hsent].
    rewrite (proj1 (Hfetch r eq_refl) eq_refl). simpl.
    rewrite (proj1 (Htimer eq_refl (of_Z 10000) r eq_refl Harms eq_refl)).
    reflexivity.
Defined.

Lemma C8_timer_always_cleared_witness :
  handles_fresh Example.fresh /\
  timers (snd (request (constructor None) (Example.answering not_found)
                 (markets_request None) Example.fresh))
  = timers Example.fresh /\
  timeout_set (constructor None) = Some (of_Z 10000) /\
  exists url mid,
    build_url (constructor None) (markets_request None) = Some url /\
    trace (snd (request (constructor None) (Example.answering not_found)
                  (markets_request None) Example.fresh))
    = trace Example.fresh
      ++ [ControllerCreated (controllers Example.fresh);
          TimerSet (next_timer Example.fresh) (of_Z 10000)
            (controllers Example.fresh)]
      ++ mid ++ [TimerCleared (next_timer Example.fresh)].
Proof.
  assert (Hfresh : handles_fresh Example.fresh) by constructor.
  split; [exact Hfresh|]. split.
  - exact (proj1 (C8_timer_always_cleared
             (constructor None) (Example.answering not_found)
             (markets_request None) Example.fresh Hfresh)).
  - split; [reflexivity|].
    destruct (build_url (constructor None) (markets_request None))
      as [url|] eqn:Hurl; [|discriminate Hurl].
    destruct (proj1 (proj2 (C8_timer_always_cleared
                (constructor None) (Example.answering not_found)
                (markets_request None) Example.fresh Hfresh))
                (of_Z 10000) url eq_refl Hurl) as [mid H].
    exists url, mid. split; [reflexivity | exact H].
Defined.


Lemma C10_timeout_zero_and_null_witness :
  URL_canParse (url_reference (markets_request None))
    "https://app.extended.exchange" = true /\
  controllers
    (snd (request (constructor (Some (only_timeout timeout_null)))
            (answering not_found) (markets_request None) fresh))
  = 1%nat /\
  timers
    (snd (request (constructor (Some (only_timeout (timeout_ms (of_Z 0)))))
            (answering not_found) (markets_request None) fresh))
  = [].
Proof.
  split; [reflexivity|]. split.
  - exact (proj1 (proj2 (proj2 (proj2 (proj2 (proj2 (proj2
             C10_timeout_zero_and_null)))))
             (answering not_found) (markets_request None) fresh eq_refl)).
  - exact (proj1 (proj2 (proj2 (proj1 (proj2 (proj2
             C10_timeout_zero_and_null))
             (answering not_found) (markets_request None) fresh)))).
Defined.

End Examples.

(* ================================================================== *)
(** * Further properties of the info client *)
(* ================================================================== *)

Section ValidationProperties.
Context {P : Platform}.
Import InfoClient.

Lemma Qle_bool_false (x y : Q) : Qle_bool x y = false <-> (y < x)%Q.
Proof.
  split.
  - intros H. destruct (Qlt_le_dec y x) as [Hlt | Hle]; [exact Hlt|].
    apply Qle_bool_iff in Hle. congruence.
  - intros H. destruct (Qle_bool x y) eqn:E; [|reflexivity].
    apply Qle_bool_iff in E. exfalso. exact (Qlt_not_le _ _ H E).
Qed.

(** [!n || n <= 0] is false exactly when [0 < n]. *)
Lemma not_positive_false (n : number) :
  not_positive n = false <-> number_lt (of_Z 0) n = true.
Proof.
  destruct n as [| | | q]; simpl; try (split; (reflexivity || discriminate)).
  unfold not_positive. simpl.
  rewrite negb_involutive, orb_false_iff, negb_true_iff. split.
  - intros [_ H]. exact H.
  - intros H. split; [|exact H].
    destruct (Qeq_bool q 0) eqn:E; [|reflexivity].
    apply Qeq_bool_iff in E. apply Qle_bool_false in H.
    rewrite E in H. exfalso. exact (Qlt_irrefl _ H).
Qed.

(** The three checks on the time range pass exactly when
    [0 < startTime < endTime]. *)
Lemma time_range_checks (startTime endTime : number) :
  not_positive startTime = false /\ not_positive endTime = false /\
  number_ge startTime endTime = false
  <->
  number_lt (of_Z 0) startTime = true /\ number_lt startTime endTime = true.
Proof.
  rewrite !not_positive_false. unfold number_ge.
  destruct startTime as [| | | x], endTime as [| | | y]; simpl;
    try (split; intros; repeat split;
         intuition (reflexivity || discriminate)).
  rewrite !negb_true_iff, !Qle_bool_false. split.
  - intros [Hx [_ Hxy]]. split; assumption.
  - intros [Hx Hxy]. repeat split; try assumption.
    apply Qlt_trans with x; assumption.
Qed.

Lemma invalid_market_false (market : string) :
  invalid_market market = false <-> matches_market market = true.
Proof.
  unfold invalid_market. rewrite orb_false_iff, negb_false_iff. split.
  - intros [_ H]. exact H.
  - intros H. split; [|exact H].
    destruct market; [discriminate H | reflexivity].
Qed.

Ltac throws := eexists; split; reflexivity.

(** [funding] either rejects locally or issues the one request its
    arguments determine; which of the two is decided by the symbol, by
    [0 < startTime < endTime] and by the limit guard. *)
Theorem funding_reaches_transport_iff :
  forall (market : string) (startTime endTime : number)
         (cursor limit : option number) (sig : option AbortSignal),
    let issued :=
      Requests
        {| method := GET; path := "info/{market}/funding";
           params :=
             Some (set_if_defined "limit" limit
                     (set_if_defined "cursor" cursor
                        [("startTime", QNum startTime);
                         ("endTime", QNum endTime)]));
           pathParams := Some [("market", PStr market)];
           signal := sig |}
        unwrap_funding in
    (rejected_locally (funding market startTime endTime cursor limit sig) \/
     funding market startTime endTime cursor limit sig = issued) /\
    (funding market startTime endTime cursor limit sig = issued <->
     matches_market market = true /\
     number_lt (of_Z 0) startTime = true /\
     number_lt startTime endTime = true /\
     limit_rejected limit 10000 = false).
Proof.
  intros market startTime endTime cursor limit sig issued.
  assert (Hshape :
            funding market startTime endTime cursor limit sig =
            if invalid_market market || not_positive startTime
               || not_positive endTime || number_ge startTime endTime
               || limit_rejected limit 10000
            then funding market startTime endTime cursor limit sig
            else issued).
  { unfold funding, issued.
    destruct (invalid_market market), (not_positive startTime),
      (not_positive endTime), (number_ge startTime endTime),
      (limit_rejected limit 10000); reflexivity. }
  assert (Hreject :
            invalid_market market || not_positive startTime
            || not_positive endTime || number_ge startTime endTime
            || limit_rejected limit 10000 = true ->
            rejected_locally
              (funding market startTime endTime cursor limit sig)).
  { unfold funding.
    destruct (invalid_market market); [intros _; throws|].
    destruct (not_positive startTime); [intros _; throws|].
    destruct (not_positive endTime); [intros _; throws|].
    destruct (number_ge startTime endTime); [intros _; throws|].
    destruct (limit_rejected limit 10000); [intros _; throws|].
    discriminate. }
  destruct (invalid_market market || not_positive startTime
            || not_positive endTime || number_ge startTime endTime
            || limit_rejected limit 10000) eqn:E.
  - split; [left; apply Hreject; reflexivity|]. split.
    + intros H. destruct (Hreject eq_refl) as [message [Hthrows _]].
      rewrite H in Hthrows. discriminate Hthrows.
    + intros [Hm [Hs [He Hl]]]. exfalso.
      apply invalid_market_false in Hm.
      destruct (proj2 (time_range_checks startTime endTime) (conj Hs He))
        as [H1 [H2 H3]].
      rewrite Hm, H1, H2, H3, Hl in E. discriminate E.
  - split; [right; exact Hshape|]. split; [intros _|intros _; exact Hshape].
    apply orb_false_iff in E. destruct E as [E Hl].
    apply orb_false_iff in E. destruct E as [E Hge].
    apply orb_false_iff in E. destruct E as [E He].
    apply orb_false_iff in E. destruct E as [Hm Hs].
    split; [apply invalid_market_false; exact Hm|].
    destruct (proj1 (time_range_checks startTime endTime)
                (conj Hs (conj He Hge))) as [Hs' He'].
    split; [exact Hs'|]. split; [exact He' | exact Hl].
Qed.

(** [candles] either rejects locally or issues the one request its
    arguments determine; it issues it exactly when the symbol matches,
    the interval is not empty, [0 < limit] and the candle type is one of
    the three. *)
Theorem candles_reaches_transport_iff :
  forall (market candleType interval : string) (limit : number)
         (endTime : option number) (sig : option AbortSignal),
    let issued :=
      Requests
        {| method := GET; path := "info/candles/{market}/{candleType}";
           params :=
             Some (set_if_defined "endTime" endTime
                     [("interval", QStr interval); ("limit", QNum limit)]);
           pathParams :=
             Some [("market", PStr market); ("candleType", PStr candleType)];
           signal := sig |}
        unwrap in
    (rejected_locally (candles market candleType interval limit endTime sig)
     \/ candles market candleType interval limit endTime sig = issued) /\
    (candles market candleType interval limit endTime sig = issued <->
     matches_market market = true /\
     interval <> EmptyString /\
     number_lt (of_Z 0) limit = true /\
     (candleType = "trades" \/ candleType = "mark-prices"
      \/ candleType = "index-prices")).
Proof.
  intros market candleType interval limit endTime sig issued.
  assert (Htype :
            matches_candleType candleType = true <->
            (candleType = "trades" \/ candleType = "mark-prices"
             \/ candleType = "index-prices")).
  { unfold matches_candleType.
    rewrite !orb_true_iff, !String.eqb_eq. tauto. }
  rewrite <- Htype, <- not_positive_false, <- invalid_market_false.
  rewrite <- String.eqb_neq.
  unfold candles. fold issued.
  destruct (invalid_market market);
    [split; [left; throws | split; [discriminate | intros [H _]; discriminate H]]|].
  destruct (String.eqb interval EmptyString);
    [split; [left; throws
            | split; [discriminate | intros [_ [H _]]; discriminate H]]|].
  destruct (not_positive limit);
    [split; [left; throws
            | split; [discriminate | intros [_ [_ [H _]]]; discriminate H]]|].
  destruct (matches_candleType candleType); simpl.
  - split; [right; reflexivity|]. split; [intros _; repeat split | reflexivity].
  - split; [left; throws|].
    split; [discriminate | intros [_ [_ [_ H]]]; discriminate H].
Qed.

(** [openInterest] either rejects locally or issues the one request its
    arguments determine; it issues it exactly when the symbol matches,
    the interval is [P1H] or [P1D], [0 < startTime < endTime] and the
    limit guard passes. *)
Theorem openInterest_reaches_transport_iff :
  forall (market interval : string) (startTime endTime : number)
         (limit : option number) (sig : option AbortSignal),
    let issued :=
      Requests
        {| method := GET; path := "info/{market}/open-interests";
           params :=
             Some (set_if_defined "limit" limit
                     [("interval", QStr interval);
                      ("startTime", QNum startTime);
                      ("endTime", QNum endTime)]);
           pathParams := Some [("market", PStr market)];
           signal := sig |}
        unwrap in
    (rejected_locally
       (openInterest market interval startTime endTime limit sig) \/
     openInterest market interval startTime endTime limit sig = issued) /\
    (openInterest market interval startTime endTime limit sig = issued <->
     matches_market market = true /\
     (interval = "P1H" \/ interval = "P1D") /\
     number_lt (of_Z 0) startTime = true /\
     number_lt startTime endTime = true /\
     limit_rejected limit 300 = false).
Proof.
  intros market interval startTime endTime limit sig issued.
  assert (Hinterval :
            String.eqb interval EmptyString
            || negb (matches_interval interval) = false <->
            (interval = "P1H" \/ interval = "P1D")).
  { unfold matches_interval.
    rewrite orb_false_iff, negb_false_iff, orb_true_iff, !String.eqb_eq.
    split; [intros [_ H]; exact H|].
    intros H. split; [|exact H].
    destruct H as [-> | ->]; reflexivity. }
  assert (Htimes := time_range_checks startTime endTime).
  rewrite <- Hinterval, <- invalid_market_false.
  unfold openInterest. fold issued.
  destruct (invalid_market market);
    [split; [left; throws | split; [discriminate | intros [H _]; discriminate H]]|].
  destruct (String.eqb interval EmptyString || negb (matches_interval interval));
    [split; [left; throws
            | split; [discriminate | intros [_ [H _]]; discriminate H]]|].
  destruct (not_positive startTime) eqn:Hs.
  { split; [left; throws|]. split; [discriminate|].
    intros [_ [_ [H1 [H2 _]]]].
    destruct (proj2 Htimes (conj H1 H2)) as [H _]. discriminate H. }
  destruct (not_positive endTime) eqn:He.
  { split; [left; throws|]. split; [discriminate|].
    intros [_ [_ [H1 [H2 _]]]].
    destruct (proj2 Htimes (conj H1 H2)) as [_ [H _]]. discriminate H. }
  destruct (number_ge startTime endTime) eqn:Hge.
  { split; [left; throws|]. split; [discriminate|].
    intros [_ [_ [H1 [H2 _]]]].
    destruct (proj2 Htimes (conj H1 H2)) as [_ [_ H]]. discriminate H. }
  destruct (proj1 Htimes (conj eq_refl (conj eq_refl eq_refl))) as [H1 H2].
  destruct (limit_rejected limit 300).
  - split; [left; throws|]. split; [discriminate|].
    intros [_ [_ [_ [_ H]]]]. discriminate H.
  - split; [right; reflexivity|].
    split; [intros _; repeat split; assumption | reflexivity].
Qed.

End ValidationProperties.

(* ================================================================== *)
(** * Further properties of the HTTP transport *)
(* ================================================================== *)

Section MoreRequestProperties.
Context {P : Platform}.
Import Http.
Local Open Scope list_scope.

Lemma classify_resolved (r : Response) (v : value) :
  classify r = Resolved v <->
  ok r = true /\ is_json_content r = true /\ json r = Fulfilled v.
Proof.
  unfold classify. destruct (ok r); simpl.
  - destruct (is_json_content r); simpl.
    + destruct (json r) as [x | tag]; split.
      * intros H. inversion H. repeat split.
      * intros [_ [_ H]]. inversion H. reflexivity.
      * discriminate.
      * intros [_ [_ H]]. discriminate H.
    + split; [discriminate | intros [_ [H _]]; discriminate H].
  - split; [discriminate | intros [H _]; discriminate H].
Qed.

(** A request resolves only with the parsed body of a final response
    whose status is within 200-299 and in whose content type
    [application/json] occurs, after the constructors of the URL and of
    the request have accepted their arguments; and in that case it does
    resolve.  When the platform refuses the URL or the request, the
    request raises a [TypeError]. *)
Theorem request_resolves_iff :
  forall (t : HttpTransport) (net : Network) (d : Descriptor) (w : world)
         (v : value),
    (fst (request t net d w) = Resolved v <->
     exists request finalRequest finalResponse contentType,
       sent t d w = Some request /\
       final_request t request = Fulfilled finalRequest /\
       final_response t net finalRequest = Fulfilled finalResponse /\
       (200 <= status finalResponse <= 299)%Z /\
       content_type finalResponse = Some contentType /\
       occurs_in "application/json" contentType /\
       json finalResponse = Fulfilled v) /\
    (URL_canParse (url_reference d) (baseUrl t) = false \/
     Request_accepts (url_reference d) (baseUrl t)
       (init_other (fetchOptions t)) = false ->
     fst (request t net d w) = Rejected TypeError).
Proof.
  intros t net d w v. rewrite request_result. split; [split|].
  - destruct (sent t d w) as [request|]; [|discriminate].
    destruct (final_request t request) as [finalRequest | tag] eqn:Hreq;
      [|discriminate].
    destruct (final_response t net finalRequest) as [finalResponse | tag]
      eqn:Hresp; [|discriminate].
    intros H. apply classify_resolved in H. destruct H as [Hok [Hct Hjson]].
    apply is_json_content_iff in Hct. destruct Hct as [ct [Hct Hocc]].
    exists request, finalRequest, finalResponse, ct.
    rewrite <- ok_true_iff. repeat split; assumption.
  - intros [request [finalRequest [finalResponse [ct
              [Hsent [Hreq [Hresp [Hok [Hct [Hocc Hjson]]]]]]]]]].
    rewrite Hsent, Hreq, Hresp. apply classify_resolved.
    rewrite ok_true_iff. split; [exact Hok|]. split; [|exact Hjson].
    apply is_json_content_iff. exists ct. split; assumption.
  - intros Hrefused.
    destruct (sent t d w) as [request|] eqn:Hsent; [|reflexivity].
    exfalso.
    destruct (proj1 (sent_some_iff t d w)) as [Hurl Hreq];
      [exists request; exact Hsent|].
    destruct Hrefused as [H | H]; congruence.
Qed.

(** Every rejection of a request is an [HttpRequestError], the
    [TypeError] of a constructor or an error thrown by the network, a
    hook or the body reader. *)
Lemma request_rejection_kind (t : HttpTransport) (net : Network)
  (d : Descriptor) (w : world) (e : error) :
  fst (request t net d w) = Rejected e ->
  (exists st body, e = HttpRequestError st body) \/ e = TypeError
  \/ (exists tag, e = Foreign tag).
Proof.
  rewrite request_result.
  destruct (sent t d w) as [request|];
    [|intros H; inversion H; right; left; reflexivity].
  destruct (final_request t request) as [finalRequest | tag].
  - destruct (final_response t net finalRequest) as [finalResponse | tag].
    + unfold classify.
      destruct (negb (ok finalResponse)).
      * intros H. inversion H. left. eexists. eexists. reflexivity.
      * destruct (negb (is_json_content finalResponse)).
        -- intros H. inversion H. left. eexists. eexists. reflexivity.
        -- destruct (json finalResponse); intros H; inversion H.
           right. right. eexists. reflexivity.
    + intros H. inversion H. right. right. eexists. reflexivity.
  - intros H. inversion H. right. right. eexists. reflexivity.
Qed.

(** A request takes a timer handle exactly when it makes its URL and a
    timeout is in force. *)
Lemma request_next_timer (t : HttpTransport) (net : Network) (d : Descriptor)
  (w : world) :
  next_timer (snd (request t net d w)) =
  match build_url t d, timeout_set t with
  | Some _, Some _ => Pos.succ (next_timer w)
  | _, _ => next_timer w
  end.
Proof.
  destruct (build_url t d) as [url|] eqn:Hurl.
  - destruct (timeout_set t) as [ms|] eqn:E.
    + apply (request_with_timeout t net d w ms E).
      apply (build_url_some t d url Hurl).
    + apply (request_without_timeout t net d w E).
  - rewrite request_without_url by exact Hurl. reflexivity.
Qed.

Lemma request_timers_kept (t : HttpTransport) (net : Network)
  (d : Descriptor) (w : world) :
  handles_fresh w -> timers (snd (request t net d w)) = timers w.
Proof.
  intros Hfresh. rewrite request_timers.
  destruct (build_url t d); [|reflexivity].
  destruct (timeout_set t) as [ms|]; [|reflexivity].
  simpl. rewrite Pos.eqb_refl. simpl. apply filter_fresh. exact Hfresh.
Qed.

Lemma request_keeps_fresh (t : HttpTransport) (net : Network)
  (d : Descriptor) (w : world) :
  handles_fresh w -> handles_fresh (snd (request t net d w)).
Proof.
  intros Hfresh. unfold handles_fresh.
  rewrite request_timers_kept by exact Hfresh.
  rewrite request_next_timer.
  destruct (build_url t d); [|exact Hfresh].
  destruct (timeout_set t); [|exact Hfresh].
  eapply Forall_impl; [|exact Hfresh].
  intros x Hx. simpl in Hx. apply Pos.lt_lt_succ. exact Hx.
Qed.

Lemma handles_set_app (a b : list event) :
  handles_set (a ++ b) = handles_set a ++ handles_set b.
Proof.
  induction a as [|e r IH]; simpl; [reflexivity|].
  destruct e; simpl; rewrite IH; reflexivity.
Qed.

Lemma handles_set_fetched (l : list Request) :
  handles_set (map Fetched l) = [].
Proof.
  induction l as [|r l' IH]; simpl; [reflexivity | exact IH].
Qed.

Lemma request_handles_set (t : HttpTransport) (net : Network)
  (d : Descriptor) (w : world) :
  handles_set (trace (snd (request t net d w))) =
  handles_set (trace w)
  ++ match build_url t d, timeout_set t with
     | Some _, Some _ => [next_timer w]
     | _, _ => []
     end.
Proof.
  rewrite request_trace, handles_set_app. f_equal.
  destruct (build_url t d); [|reflexivity].
  rewrite !handles_set_app, handles_set_fetched.
  destruct (timeout_set t); reflexivity.
Qed.

Lemma in_turn_invariant
  (calls : list (HttpTransport * Network * Descriptor)) (w : world) :
  handles_fresh w /\
  Forall (fun id => Pos.lt id (next_timer w)) (handles_set (trace w)) /\
  NoDup (handles_set (trace w)) ->
  timers (in_turn calls w) = timers w /\
  handles_fresh (in_turn calls w) /\
  Forall (fun id => Pos.lt id (next_timer (in_turn calls w)))
    (handles_set (trace (in_turn calls w))) /\
  NoDup (handles_set (trace (in_turn calls w))).
Proof.
  revert w. induction calls as [|[[t net] d] rest IH]; intros w [Hf [Hb Hn]].
  - simpl. repeat split; assumption.
  - simpl.
    destruct (IH (snd (request t net d w))) as [Ht Hrest].
    + split; [apply request_keeps_fresh; exact Hf|].
      rewrite request_handles_set, request_next_timer.
      destruct (build_url t d); [|rewrite app_nil_r; split; assumption].
      destruct (timeout_set t); [|rewrite app_nil_r; split; assumption].
      split.
      * apply Forall_app. split.
        -- eapply Forall_impl; [|exact Hb].
           intros id Hid. simpl in Hid. apply Pos.lt_lt_succ. exact Hid.
        -- constructor; [apply Pos.lt_succ_diag_r | constructor].
      * apply NoDup_app; [exact Hn | repeat constructor; intros [] |].
        intros id Hin [Heq | []]. subst id.
        rewrite Forall_forall in Hb. apply Hb in Hin.
        exact (Pos.lt_irrefl _ Hin).
    + split; [|exact Hrest].
      rewrite Ht. apply request_timers_kept. exact Hf.
Qed.

(** Over any sequence of requests made in turn, whatever each of them
    comes to, the pending timers at the end are those at the start, and
    no timer handle is handed out twice. *)
Theorem requests_in_turn_leak_no_timer :
  forall (calls : list (HttpTransport * Network * Descriptor)) (w : world),
    handles_fresh w ->
    Forall (fun id => Pos.lt id (next_timer w)) (handles_set (trace w)) ->
    NoDup (handles_set (trace w)) ->
    timers (in_turn calls w) = timers w /\
    handles_fresh (in_turn calls w) /\
    NoDup (handles_set (trace (in_turn calls w))).
Proof.
  intros calls w Hf Hb Hn.
  destruct (in_turn_invariant calls w (conj Hf (conj Hb Hn)))
    as [Ht [Hf' [_ Hn']]].
  repeat split; assumption.
Qed.

Lemma number_truthy_false (n : number) :
  number_truthy n = false <-> n = NaN \/ exists q, n = Fin q /\ (q == 0)%Q.
Proof.
  destruct n as [| | | q]; simpl.
  - split; [intros _; left; reflexivity | reflexivity].
  - split; [discriminate | intros [H | [q [H _]]]; discriminate H].
  - split; [discriminate | intros [H | [q [H _]]]; discriminate H].
  - rewrite negb_false_iff, Qeq_bool_iff. split.
    + intros H. right. exists q. split; [reflexivity | exact H].
    + intros [H | [q' [H Hq]]]; [discriminate H|].
      inversion H; subst. exact Hq.
Qed.

(** No options make the constructor store [null]: an omitted and a
    [null] timeout both store 10000.  A constructed transport runs its
    requests without a timer exactly when the timeout option is the
    number 0 or [NaN]. *)
Theorem constructor_timeout :
  forall options : option HttpTransportOptions,
    timeout (constructor options) <> None /\
    ((options = None \/
      exists o, options = Some o /\
                (opt_timeout o = timeout_absent \/ opt_timeout o = timeout_null))
     -> timeout (constructor options) = Some (of_Z 10000)) /\
    (timeout_set (constructor options) = None <->
     exists o n,
       options = Some o /\ opt_timeout o = timeout_ms n /\
       (n = NaN \/ exists q, n = Fin q /\ (q == 0)%Q)).
Proof.
  intros options. split; [|split].
  - destruct options as [o|]; simpl; [destruct (opt_timeout o)|]; discriminate.
  - intros [-> | [o [-> [H | H]]]]; simpl; try rewrite H; reflexivity.
  - unfold timeout_set. destruct options as [o|]; simpl.
    + destruct (opt_timeout o) as [| | n] eqn:E.
      * split; [discriminate|]. intros [o' [n [Ho [H _]]]].
        inversion Ho; subst o'. rewrite E in H. discriminate H.
      * split; [discriminate|]. intros [o' [n [Ho [H _]]]].
        inversion Ho; subst o'. rewrite E in H. discriminate H.
      * destruct (number_truthy n) eqn:Hn.
        -- split; [discriminate|].
           intros [o' [n' [Ho [Ht Hfalsy]]]].
           inversion Ho; subst o'. rewrite E in Ht. inversion Ht; subst n'.
           apply number_truthy_false in Hfalsy. congruence.
        -- split; [|reflexivity]. intros _. exists o, n.
           repeat split; [exact E|]. apply number_truthy_false. exact Hn.
    + split; [discriminate | intros [o [n [H _]]]; discriminate H].
Qed.

(** A signal given through [fetchOptions] is never used: the request,
    its result and all it does to the runtime are the same whatever that
    signal is. *)
Theorem fetchOptions_signal_ignored :
  forall (t : HttpTransport) (s : option AbortSignal) (net : Network)
         (d : Descriptor) (w : world),
    sent (with_fetch_signal t s) d w = sent t d w /\
    request (with_fetch_signal t s) net d w = request t net d w.
Proof.
  intros t s net d w. split; reflexivity.
Qed.

End MoreRequestProperties.

(* ================================================================== *)
(** * The paths the client's requests come to *)
(* ================================================================== *)

Section PathProperties.
Context {P : Platform}.
Import InfoClient Http.

Lemma string_app_assoc (a b c : string) :
  ((a ++ b) ++ c = a ++ b ++ c)%string.
Proof.
  induction a as [|x a' IH]; simpl; [reflexivity|]. rewrite IH. reflexivity.
Qed.

Lemma string_app_nil_r (a : string) : (a ++ EmptyString = a)%string.
Proof.
  induction a as [|x a' IH]; simpl; [reflexivity|]. rewrite IH. reflexivity.
Qed.

Lemma all_chars_app (p : ascii -> bool) (a b : string) :
  all_chars p (a ++ b) = all_chars p a && all_chars p b.
Proof.
  induction a as [|x a' IH]; simpl; [reflexivity|].
  rewrite IH. apply andb_assoc.
Qed.

Lemma all_chars_impl (p q : ascii -> bool) (s : string) :
  (forall c, p c = true -> q c = true) ->
  all_chars p s = true -> all_chars q s = true.
Proof.
  intros Hpq. induction s as [|x r IH]; simpl; [reflexivity|].
  intros H. apply andb_true_iff in H. destruct H as [Hx Hr].
  rewrite (Hpq x Hx), (IH Hr). reflexivity.
Qed.

(** A pattern cannot begin inside a text that lacks its first
    character. *)
Lemma split_first_skip (c : ascii) (p' a s : string) :
  all_chars (fun ch => negb (Ascii.eqb c ch)) a = true ->
  Str.split_first (String c p') (a ++ s) =
  match Str.split_first (String c p') s with
  | Some (before, after) => Some ((a ++ before)%string, after)
  | None => None
  end.
Proof.
  induction a as [|x a' IH]; intros H.
  - simpl append. destruct (Str.split_first (String c p') s) as [[b r]|];
      reflexivity.
  - simpl in H. apply andb_true_iff in H. destruct H as [Hx Ha].
    apply negb_true_iff in Hx.
    change (String x a' ++ s)%string with (String x (a' ++ s)%string).
    cbn [Str.split_first Str.prefix]. rewrite Hx. cbn [andb].
    rewrite (IH Ha).
    destruct (Str.split_first (String c p') s) as [[b r]|]; reflexivity.
Qed.

Lemma symbol_char (c : ascii) :
  is_upper_or_hyphen c = true ->
  negb (Ascii.eqb "{"%char c) = true /\ negb (Ascii.eqb c "$"%char) = true.
Proof.
  destruct c as [[] [] [] [] [] [] [] []];
    intros H; try discriminate H; split; reflexivity.
Qed.

Lemma plain_all_chars (s : string) :
  Str.plain s = all_chars (fun c => negb (Ascii.eqb c "$"%char)) s.
Proof.
  induction s as [|x r IH]; simpl; [reflexivity|]. rewrite IH. reflexivity.
Qed.

(** A symbol that matches [^[A-Z-]+$] has neither [$] nor an opening
    brace. *)
Lemma symbol_plain (market : string) :
  matches_market market = true ->
  Str.plain market = true /\
  all_chars (fun c => negb (Ascii.eqb "{"%char c)) market = true.
Proof.
  intros H. apply matches_market_iff in H. destruct H as [_ H].
  apply all_chars_Forall in H. rewrite plain_all_chars. split.
  - apply (all_chars_impl is_upper_or_hyphen); [|exact H].
    intros c Hc. apply (symbol_char c Hc).
  - apply (all_chars_impl is_upper_or_hyphen); [|exact H].
    intros c Hc. apply (symbol_char c Hc).
Qed.

(** One placeholder between two fixed texts, the first without an
    opening brace. *)
Lemma replace_placeholder (before name after v : string) :
  all_chars (fun c => negb (Ascii.eqb "{"%char c)) before = true ->
  Str.plain v = true ->
  Str.replace (before ++ ("{" ++ name ++ "}") ++ after)
    ("{" ++ name ++ "}") v
  = (before ++ v ++ after)%string.
Proof.
  intros Hbefore Hv.
  assert (Hsplit :
            Str.split_first ("{" ++ name ++ "}")
              (before ++ ("{" ++ name ++ "}") ++ after)
            = Some (before, after)).
  { change ("{" ++ name ++ "}")%string with (String "{" (name ++ "}")).
    rewrite (split_first_skip "{" (name ++ "}") before _ Hbefore).
    assert (Hhere :
              Str.split_first (String "{" (name ++ "}"))
                (String "{" (name ++ "}") ++ after)
              = Some (EmptyString, after)).
    { assert (Hprefix : forall a b, Str.prefix a (a ++ b) = true).
      { induction a as [|x a' IH]; intros b; simpl; [reflexivity|].
        rewrite Ascii.eqb_refl, IH. reflexivity. }
      assert (Hdrop : forall a b, Str.drop (String.length a) (a ++ b) = b).
      { induction a as [|x a' IH]; intros b; simpl; [reflexivity | apply IH]. }
      assert (Hunfold :
                forall p s,
                  Str.prefix p s = true ->
                  Str.split_first p s
                  = Some (EmptyString, Str.drop (String.length p) s)).
      { intros p s Hp. destruct s; simpl; rewrite Hp; reflexivity. }
      rewrite Hunfold by apply Hprefix. rewrite Hdrop. reflexivity. }
    rewrite Hhere, string_app_nil_r. reflexivity. }
  apply (replace_first _ _ v before after Hsplit Hv).
Qed.

Lemma candleType_plain (candleType : string) :
  matches_candleType candleType = true -> Str.plain candleType = true.
Proof.
  unfold matches_candleType. rewrite !orb_true_iff, !String.eqb_eq.
  intros [[-> | ->] | ->]; reflexivity.
Qed.

(** Whenever a validating method reaches the transport, the reference of
    the URL that is made has the symbol (and the candle type) in place of
    every placeholder. *)
Theorem validated_paths_have_no_placeholder :
  forall (t : HttpTransport) (market : string) (sig : option AbortSignal)
         (d : Descriptor) (url : URL),
    build_url t d = Some url ->
    (forall k, marketStats market sig = Requests d k ->
       reference url = "/api/v1/info/markets/" ++ market ++ "/stats")
    /\
    (forall k, marketTrades market sig = Requests d k ->
       reference url = "/api/v1/info/markets/" ++ market ++ "/trades")
    /\
    (forall candleType interval limit endTime k,
       candles market candleType interval limit endTime sig = Requests d k ->
       reference url = "/api/v1/info/candles/" ++ market ++ "/" ++ candleType)
    /\
    (forall startTime endTime cursor limit k,
       funding market startTime endTime cursor limit sig = Requests d k ->
       reference url = "/api/v1/info/" ++ market ++ "/funding")
    /\
    (forall interval startTime endTime limit k,
       openInterest market interval startTime endTime limit sig
       = Requests d k ->
       reference url = "/api/v1/info/" ++ market ++ "/open-interests").
Proof.
  intros t market sig d url Hurl.
  destruct (build_url_some t d url Hurl) as [_ [Href _]].
  rewrite Href. clear Href Hurl url.
  assert (Hone :
            forall before after,
              all_chars (fun c => negb (Ascii.eqb "{"%char c)) before = true ->
              matches_market market = true ->
              apply_path_params (before ++ "{market}" ++ after)
                [("market", PStr market)]
              = (before ++ market ++ after)%string).
  { intros before after Hbefore Hm. simpl.
    apply (replace_placeholder before "market" after market Hbefore).
    apply symbol_plain. exact Hm. }
  split; [|split; [|split; [|split]]].
  - intros k. unfold marketStats.
    destruct (invalid_market market) eqn:Hm; [discriminate|].
    apply invalid_market_false in Hm.
    intros H. inversion H; subst d.
    transitivity
      ("/api/v1/"
       ++ apply_path_params ("info/markets/" ++ "{market}" ++ "/stats")
            [("market", PStr market)])%string; [reflexivity|].
    rewrite (Hone "info/markets/" "/stats" eq_refl Hm). reflexivity.
  - intros k. unfold marketTrades.
    destruct (invalid_market market) eqn:Hm; [discriminate|].
    apply invalid_market_false in Hm.
    intros H. inversion H; subst d.
    transitivity
      ("/api/v1/"
       ++ apply_path_params ("info/markets/" ++ "{market}" ++ "/trades")
            [("market", PStr market)])%string; [reflexivity|].
    rewrite (Hone "info/markets/" "/trades" eq_refl Hm). reflexivity.
  - intros candleType interval limit endTime k. unfold candles.
    destruct (invalid_market market) eqn:Hm; [discriminate|].
    apply invalid_market_false in Hm.
    destruct (String.eqb interval EmptyString); [discriminate|].
    destruct (not_positive limit); [discriminate|].
    destruct (matches_candleType candleType) eqn:Hct; [|discriminate].
    simpl negb. cbv iota.
    intros H. inversion H; subst d.
    transitivity
      ("/api/v1/"
       ++ apply_path_params
            (apply_path_params
               ("info/candles/" ++ "{market}" ++ "/{candleType}")
               [("market", PStr market)])
            [("candleType", PStr candleType)])%string; [reflexivity|].
    rewrite (Hone "info/candles/" "/{candleType}" eq_refl Hm).
    destruct (symbol_plain market Hm) as [_ Hbrace].
    assert (Hsecond :
              Str.replace
                (("info/candles/" ++ market ++ "/")
                 ++ ("{" ++ "candleType" ++ "}") ++ EmptyString)
                ("{" ++ "candleType" ++ "}") candleType
              = (("info/candles/" ++ market ++ "/") ++ candleType
                 ++ EmptyString)%string).
    { apply replace_placeholder; [|apply candleType_plain; exact Hct].
      rewrite !all_chars_app, Hbrace. reflexivity. }
    simpl in Hsecond. simpl.
    rewrite !string_app_assoc in Hsecond. simpl in Hsecond.
    rewrite Hsecond, string_app_nil_r. reflexivity.
  - intros startTime endTime cursor limit k. unfold funding.
    destruct (invalid_market market) eqn:Hm; [discriminate|].
    apply invalid_market_false in Hm.
    destruct (not_positive startTime); [discriminate|].
    destruct (not_positive endTime); [discriminate|].
    destruct (number_ge startTime endTime); [discriminate|].
    destruct (limit_rejected limit 10000); [discriminate|].
    intros H. inversion H; subst d.
    transitivity
      ("/api/v1/"
       ++ apply_path_params ("info/" ++ "{market}" ++ "/funding")
            [("market", PStr market)])%string; [reflexivity|].
    rewrite (Hone "info/" "/funding" eq_refl Hm). reflexivity.
  - intros interval startTime endTime limit k. unfold openInterest.
    destruct (invalid_market market) eqn:Hm; [discriminate|].
    apply invalid_market_false in Hm.
    destruct (String.eqb interval EmptyString
              || negb (matches_interval interval)); [discriminate|].
    destruct (not_positive startTime); [discriminate|].
    destruct (not_positive endTime); [discriminate|].
    destruct (number_ge startTime endTime); [discriminate|].
    destruct (limit_rejected limit 300); [discriminate|].
    intros H. inversion H; subst d.
    transitivity
      ("/api/v1/"
       ++ apply_path_params ("info/" ++ "{market}" ++ "/open-interests")
            [("market", PStr market)])%string; [reflexivity|].
    rewrite (Hone "info/" "/open-interests" eq_refl Hm). reflexivity.
Qed.

(** [$&] in a replacement stands for the matched text. *)
Lemma replace_with_match (s pattern : string) :
  Str.replace s pattern "$&" = s.
Proof.
  unfold Str.replace.
  destruct (Str.split_first pattern s) as [[before after]|] eqn:E;
    [|reflexivity].
  simpl. rewrite string_app_nil_r. symmetry.
  apply split_first_sound. exact E.
Qed.

(** A path parameter whose value is the text [$&] is never substituted:
    the path stays as it was, placeholder included.  [marketOrderBook],
    which checks no symbol, requests the template itself for it. *)
Theorem match_reference_stays_unsubstituted :
  forall (t : HttpTransport) (sig : option AbortSignal),
    (forall path key, apply_path_params path [(key, PStr "$&")] = path) /\
    (exists d, invocations (marketOrderBook "$&" sig) = [d]) /\
    (forall d url,
        In d (invocations (marketOrderBook "$&" sig)) ->
        build_url t d = Some url ->
        reference url = "/api/v1/info/markets/{market}/orderbook").
Proof.
  intros t sig. split; [|split].
  - intros path key. simpl. apply replace_with_match.
  - eexists. reflexivity.
  - intros d url [<- | []] Hurl.
    destruct (build_url_some t _ url Hurl) as [_ [Href _]].
    rewrite Href. reflexivity.
Qed.

End PathProperties.

(* ================================================================== *)
(** * The client over the HTTP transport *)
(* ================================================================== *)

Section ClientOverHttp.
Context {P : Platform}.
Import InfoClient Http.
Local Open Scope list_scope.

(** The envelope handling resolves exactly on status [OK], to whatever
    [data] is. *)
Lemma unwrap_resolves_iff (response x : value) :
  unwrap response = Resolved x <->
  get response "status" = Some (VStr "OK") /\ get response "data" = Some x.
Proof.
  unfold unwrap. split.
  - destruct (get response "status") as [status|]; [|discriminate].
    destruct (is_string status "OK") eqn:Hok.
    + apply is_string_inv in Hok. subst status.
      destruct (get response "data") as [dat|]; [|discriminate].
      intros H. inversion H. split; reflexivity.
    + destruct (is_string status "ERROR"); [|discriminate].
      destruct (api_error_message response); discriminate.
  - intros [Hstatus Hdata]. rewrite Hstatus. simpl. rewrite Hdata. reflexivity.
Qed.

Lemma unwrap_rejection_kind (response : value) (e : error) :
  unwrap response = Rejected e ->
  e = TypeError \/ exists message, e = Error message.
Proof.
  unfold unwrap.
  destruct (get response "status") as [status|];
    [|intros H; inversion H; left; reflexivity].
  destruct (is_string status "OK").
  - destruct (get response "data"); intros H; inversion H. left. reflexivity.
  - destruct (is_string status "ERROR").
    + destruct (api_error_message response); intros H; inversion H;
        (left; reflexivity) || (right; eexists; reflexivity).
    + intros H. inversion H. right. eexists. reflexivity.
Qed.

Lemma unwrap_funding_rejection_kind (response : value) (e : error) :
  unwrap_funding response = Rejected e ->
  e = TypeError \/ exists message, e = Error message.
Proof.
  unfold unwrap_funding.
  destruct (get response "status") as [status|];
    [|intros H; inversion H; left; reflexivity].
  destruct (is_string status "OK").
  - destruct (get response "data") as [dat|],
      (get response "pagination") as [pag|];
      try (intros H; inversion H; left; reflexivity).
    destruct (truthy pag); [discriminate|].
    destruct (get dat "length"); intros H; inversion H. left. reflexivity.
  - destruct (is_string status "ERROR").
    + destruct (api_error_message response); intros H; inversion H;
        (left; reflexivity) || (right; eexists; reflexivity).
    + intros H. inversion H. right. eexists. reflexivity.
Qed.

(** A call of a client method either rejects locally or issues one
    request whose continuation raises nothing but [Error] and
    [TypeError]. *)
Lemma client_method_shape (A : Type) (c : call A) :
  client_method A c ->
  rejected_locally c \/
  exists d k,
    c = Requests d k /\
    forall response e,
      k response = Rejected e ->
      e = TypeError \/ exists message, e = Error message.
Proof.
  intros Hc. destruct Hc.
  - right. eexists. eexists. split; [reflexivity|]. apply unwrap_rejection_kind.
  - unfold marketStats. destruct (invalid_market market).
    + left. eexists. split; reflexivity.
    + right. eexists. eexists. split; [reflexivity|].
      apply unwrap_rejection_kind.
  - right. eexists. eexists. split; [reflexivity|]. apply unwrap_rejection_kind.
  - unfold marketTrades. destruct (invalid_market market).
    + left. eexists. split; reflexivity.
    + right. eexists. eexists. split; [reflexivity|].
      apply unwrap_rejection_kind.
  - unfold candles.
    destruct (invalid_market market); [left; eexists; split; reflexivity|].
    destruct (String.eqb interval EmptyString);
      [left; eexists; split; reflexivity|].
    destruct (not_positive limit); [left; eexists; split; reflexivity|].
    destruct (negb (matches_candleType candleType));
      [left; eexists; split; reflexivity|].
    right. eexists. eexists. split; [reflexivity|]. apply unwrap_rejection_kind.
  - unfold funding.
    destruct (invalid_market market); [left; eexists; split; reflexivity|].
    destruct (not_positive startTime); [left; eexists; split; reflexivity|].
    destruct (not_positive endTime); [left; eexists; split; reflexivity|].
    destruct (number_ge startTime endTime);
      [left; eexists; split; reflexivity|].
    destruct (limit_rejected limit 10000);
      [left; eexists; split; reflexivity|].
    right. eexists. eexists. split; [reflexivity|].
    apply unwrap_funding_rejection_kind.
  - unfold openInterest.
    destruct (invalid_market market); [left; eexists; split; reflexivity|].
    destruct (String.eqb interval EmptyString
              || negb (matches_interval interval));
      [left; eexists; split; reflexivity|].
    destruct (not_positive startTime); [left; eexists; split; reflexivity|].
    destruct (not_positive endTime); [left; eexists; split; reflexivity|].
    destruct (number_ge startTime endTime);
      [left; eexists; split; reflexivity|].
    destruct (limit_rejected limit 300);
      [left; eexists; split; reflexivity|].
    right. eexists. eexists. split; [reflexivity|]. apply unwrap_rejection_kind.
Qed.

Lemma over_http_requests {A : Type} (t : HttpTransport) (net : Network)
  (d : Descriptor) (k : value -> outcome A) (w : world) :
  over_http t net (Requests d k) w =
  (match fst (request t net d w) with
   | Resolved response => k response
   | Rejected e => Rejected e
   end, snd (request t net d w)).
Proof.
  unfold over_http. destruct (request t net d w) as [result w']. reflexivity.
Qed.

(** Over the HTTP transport, a client method that rejects with an
    [InvalidInputError] has done nothing to the runtime: no controller,
    no timer, no network call. *)
Theorem invalid_input_means_nothing_sent :
  forall (A : Type) (c : call A) (t : HttpTransport) (net : Network)
         (w : world) (message : string),
    client_method A c ->
    fst (over_http t net c w) = Rejected (InvalidInputError message) ->
    snd (over_http t net c w) = w /\ invocations c = [].
Proof.
  intros A c t net w message Hc Hrejected.
  destruct (client_method_shape A c Hc) as [[m [-> _]] | [d [k [-> Hk]]]].
  - split; reflexivity.
  - exfalso. rewrite over_http_requests in Hrejected. simpl in Hrejected.
    destruct (fst (request t net d w)) as [response | e] eqn:Hreq.
    + destruct (Hk response _ Hrejected) as [H | [m H]]; discriminate H.
    + inversion Hrejected; subst e.
      destruct (request_rejection_kind t net d w _ Hreq)
        as [[st [body H]] | [H | [tag H]]]; discriminate H.
Qed.

(** Over the HTTP transport, a client method rejects with an
    [HttpRequestError] exactly when its request does, and with the same
    status and body: the envelope handling neither raises nor hides
    transport errors. *)
Theorem transport_errors_surface_unchanged :
  forall (A : Type) (c : call A) (t : HttpTransport) (net : Network)
         (w : world) (st : Z) (body : option string),
    client_method A c ->
    (fst (over_http t net c w) = Rejected (HttpRequestError st body) <->
     exists d k,
       c = Requests d k /\
       fst (request t net d w) = Rejected (HttpRequestError st body)).
Proof.
  intros A c t net w st body Hc.
  destruct (client_method_shape A c Hc) as [[m [-> _]] | [d [k [-> Hk]]]].
  - simpl. split; [discriminate | intros [d [k [H _]]]; discriminate H].
  - rewrite over_http_requests. simpl. split.
    + intros H. exists d, k. split; [reflexivity|].
      destruct (fst (request t net d w)) as [response | e];
        [|inversion H; reflexivity].
      destruct (Hk response _ H) as [H' | [m H']]; discriminate H'.
    + intros [d' [k' [Heq H]]]. inversion Heq; subst d'.
      rewrite H. reflexivity.
Qed.

(** Over the HTTP transport, every call of a client method makes at most
    one network call, none when it rejects locally, and leaves the
    pending timers as they were. *)
Theorem client_call_single_round_trip :
  forall (A : Type) (c : call A) (t : HttpTransport) (net : Network)
         (w : world),
    client_method A c ->
    handles_fresh w ->
    timers (snd (over_http t net c w)) = timers w /\
    exists made,
      fetches (trace (snd (over_http t net c w))) = fetches (trace w) ++ made /\
      (List.length made <= 1)%nat /\
      (rejected_locally c -> made = []).
Proof.
  intros A c t net w Hc Hfresh.
  destruct (client_method_shape A c Hc) as [[m [-> _]] | [d [k [-> Hk]]]].
  - simpl. split; [reflexivity|]. exists []. rewrite app_nil_r.
    repeat split. apply le_0_n.
  - rewrite over_http_requests. simpl. split.
    + apply request_timers_kept. exact Hfresh.
    + rewrite request_fetches.
      eexists. split; [reflexivity|]. split.
      * unfold fetched_by. destruct (sent t d w) as [r|]; [|apply le_0_n].
        destruct (final_request t r); simpl; [apply le_n | apply le_0_n].
      * intros [m [H _]]. discriminate H.
Qed.

(** [marketOrderBook] checks nothing: it resolves exactly when the
    transport resolves to a response with status [OK], and then to the
    response's [data] as it is, [undefined] when there is none.
    [marketStats] resolves under the same condition and only for a
    symbol that matches. *)
Theorem one_symbol_methods_resolve_iff :
  forall (transport : Descriptor -> outcome value) (market : string)
         (sig : option AbortSignal) (x : value),
    (run transport (marketOrderBook market sig) = Resolved x <->
     exists response,
       transport
         {| method := GET; path := "info/markets/{market}/orderbook";
            params := None; pathParams := Some [("market", PStr market)];
            signal := sig |} = Resolved response /\
       get response "status" = Some (VStr "OK") /\
       get response "data" = Some x) /\
    (run transport (marketStats market sig) = Resolved x <->
     matches_market market = true /\
     exists response,
       transport
         {| method := GET; path := "info/markets/{market}/stats";
            params := None; pathParams := Some [("market", PStr market)];
            signal := sig |} = Resolved response /\
       get response "status" = Some (VStr "OK") /\
       get response "data" = Some x).
Proof.
  intros transport market sig x. split.
  - unfold marketOrderBook. simpl.
    destruct (transport _) as [response | e].
    + rewrite unwrap_resolves_iff. split.
      * intros H. exists response. split; [reflexivity | exact H].
      * intros [r [Hr H]]. inversion Hr; subst r. exact H.
    + split; [discriminate | intros [r [Hr _]]; discriminate Hr].
  - unfold marketStats. rewrite <- invalid_market_false.
    destruct (invalid_market market); simpl.
    + split; [discriminate | intros [H _]; discriminate H].
    + destruct (transport _) as [response | e].
      * rewrite unwrap_resolves_iff. split.
        -- intros H. split; [reflexivity|]. exists response.
           split; [reflexivity | exact H].
        -- intros [_ [r [Hr H]]]. inversion Hr; subst r. exact H.
      * split; [discriminate | intros [_ [r [Hr _]]]; discriminate Hr].
Qed.

(** [markets] checks nothing and always reaches the transport, with the
    fixed path [info/markets].  On a URL without a query of its own, the
    query is one [market] pair for a non-empty string, one pair per
    element, in order, for an array, and empty when the filter is
    missing, the empty string or the empty array. *)
Theorem markets_query :
  forall (t : HttpTransport) (args : option MarketsArgs)
         (sig : option AbortSignal),
    URL_searchParams "/api/v1/info/markets" = [] ->
    exists d,
      invocations (markets args sig) = [d] /\
      signal d = sig /\
      forall url,
        build_url t d = Some url ->
        reference url = "/api/v1/info/markets" /\
        searchParams url =
          match args with
          | Some {| args_market := Some (OneMarket name) |} =>
              if String.eqb name EmptyString then [] else [("market", name)]
          | Some {| args_market := Some (ManyMarkets names) |} =>
              map (fun name => ("market", name)) names
          | _ => []
          end.
Proof.
  intros t args sig Hquery.
  eexists. split; [reflexivity|]. split; [reflexivity|].
  intros url Hurl.
  destruct (build_url_some t _ url Hurl) as [_ [Href [_ Hq]]].
  split; [exact Href|].
  rewrite Hq. unfold url_reference. simpl. rewrite Hquery.
  destruct args as [[[[name | names]|]]|]; simpl; try reflexivity.
  - destruct (String.eqb name EmptyString); reflexivity.
  - apply (fold_append "market" names []).
Qed.

End ClientOverHttp.

(* ================================================================== *)
(** * The schemas and the client together *)
(* ================================================================== *)

Section SchemaClientProperties.
Context {P : Platform}.
Import InfoClient Zod Schemas.
Local Open Scope list_scope.

Lemma get_field (props : list (string * value)) (key : string) :
  get (VObj props) key = Some (field key props).
Proof. reflexivity. Qed.

Lemma parse_array_inv (item : schema) (v out : value) :
  parse (z_array item) v = Valid out -> exists items, v = VArr items.
Proof.
  destruct v; try discriminate. intros _. eexists. reflexivity.
Qed.

Lemma parse_enum_iff (values : list string) (v out : value) :
  parse (z_enum values) v = Valid out <->
  exists s, v = VStr s /\ out = VStr s /\ In s values.
Proof.
  destruct v as [| | b | n | s | items | props]; simpl;
    try (split; [discriminate | intros [s' [H _]]; discriminate H]).
  destruct (existsb (String.eqb s) values) eqn:E.
  - split.
    + intros H. inversion H. exists s. repeat split.
      apply existsb_exists in E. destruct E as [x [Hin Hx]].
      apply String.eqb_eq in Hx. subst x. exact Hin.
    + intros [s' [Hs [Hout _]]]. inversion Hs; subst s'. subst out.
      reflexivity.
  - split; [discriminate|]. intros [s' [Hs [_ Hin]]]. inversion Hs; subst s'.
    assert (H : existsb (String.eqb s) values = true).
    { apply existsb_exists. exists s. split; [exact Hin|].
      apply String.eqb_refl. }
    congruence.
Qed.

(** The codes an endpoint lets through are strings. *)
Lemma codes_are_strings (first : entered_first) (e : endpoint) :
  In e (endpoints first) ->
  forall x c, parse (codes e) x = Valid c -> exists s, x = VStr s.
Proof.
  intros Hin x c. simpl in Hin.
  repeat (destruct Hin as [<- | Hin];
          [destruct first;
           destruct x as [| | b | n | s | items | props];
           try discriminate; intros _; eexists; reflexivity|]).
  destruct Hin.
Qed.

(** What an accepted envelope looks like, for any data schema and code
    union. *)
Lemma accepted_envelope (D C : schema) (rest : list (string * schema))
  (v out : value) :
  parse
    (z_discriminatedUnion "status"
       [z_object (("status", z_literal "OK") :: ("data", D) :: rest);
        error_variant C]) v = Valid out ->
  exists props,
    v = VObj props /\
    ((field "status" props = VStr "OK" /\
      (exists dat, parse D (field "data" props) = Valid dat) /\
      (forall key ks, In (key, ks) rest ->
                      exists y, parse ks (field key props) = Valid y))
     \/
     (field "status" props = VStr "ERROR" /\
      exists eprops c m,
        field "error" props = VObj eprops /\
        parse C (field "code" eprops) = Valid c /\
        field "message" eprops = VStr m)).
Proof.
  intros E.
  destruct v as [| | b | n | s | items | props]; try discriminate.
  exists props. split; [reflexivity|].
  rewrite parse_envelope in E.
  destruct (is_string (field "status" props) "OK") eqn:Hok.
  - left. apply is_string_VStr in Hok. split; [exact Hok|].
    destruct (parse_object_inv _ _ _ E) as [props' [fields [Hv [_ Hf]]]].
    inversion Hv; subst props'. split.
    + apply (parse_fields_required props _ fields Hf "data" D).
      right. left. reflexivity.
    + intros key ks Hin.
      apply (parse_fields_required props _ fields Hf key ks).
      right. right. exact Hin.
  - destruct (is_string (field "status" props) "ERROR") eqn:Herr;
      [|discriminate].
    right. apply is_string_VStr in Herr. split; [exact Herr|].
    destruct (parse_object_inv _ _ _ E) as [props' [fields [Hv [_ Hf]]]].
    inversion Hv; subst props'.
    destruct (parse_fields_required props _ fields Hf "error"
                (z_object [("code", C); ("message", z_string)]))
      as [y Hy]; [right; left; reflexivity|].
    destruct (parse_object_inv _ _ _ Hy) as [eprops [efields [He [_ Hef]]]].
    destruct (parse_fields_required eprops _ efields Hef "code" C)
      as [c Hc]; [left; reflexivity|].
    destruct (parse_fields_required eprops _ efields Hef "message" z_string)
      as [m Hm]; [right; left; reflexivity|].
    apply parse_string_inv in Hm. destruct Hm as [msg Hm].
    exists eprops, c, msg. repeat split; assumption.
Qed.

(** On a response its endpoint's schema accepts, the envelope handling
    raises no [TypeError]: it returns data the endpoint's data schema
    accepts, or raises the [Error] that carries the code, one of the
    endpoint's code union, and the message. *)
Theorem validated_response_unwraps :
  forall (first : entered_first) (e : endpoint) (v out : value),
    In e (endpoints first) ->
    safeParse (response e) v = Some (Success out) ->
    (exists dat dat',
        unwrap v = Resolved dat /\ parse (payload e) dat = Valid dat') \/
    (exists code message c,
        unwrap v =
          Rejected (Error ("API Error: " ++ code ++ " - " ++ message)%string) /\
        parse (codes e) (VStr code) = Valid c).
Proof.
  intros first e v out Hin Hparse.
  destruct (endpoints_shape first e Hin)
    as [rest [Hresponse [Hsuccess [Hfailure _]]]].
  assert (Hstrings := codes_are_strings first e Hin).
  unfold safeParse in Hparse.
  destruct (parse (response e) v) as [out'| |] eqn:E; try discriminate.
  rewrite Hresponse, Hsuccess, Hfailure in E.
  destruct (accepted_envelope _ _ _ _ _ E)
    as [props [-> [[Hstatus [[dat Hdat] _]] | [Hstatus Herror]]]].
  - left. exists (field "data" props), dat. split; [|exact Hdat].
    unfold unwrap. rewrite !get_field, Hstatus. reflexivity.
  - right. destruct Herror as [eprops [c [m [Herr [Hcode Hmessage]]]]].
    destruct (Hstrings _ _ Hcode) as [code Hcode'].
    exists code, m, c. split; [|rewrite <- Hcode'; exact Hcode].
    unfold unwrap, api_error_message. rewrite !get_field, Hstatus. simpl.
    rewrite Herr, !get_field, Hcode', Hmessage. reflexivity.
Qed.

Lemma integer_accepted (z : Z) :
  parse (z_number [int]) (VNum (of_Z z)) = Valid (VNum (of_Z z)).
Proof.
  simpl. rewrite Z.rem_1_r. reflexivity.
Qed.

(** On a response the funding schema accepts, [funding]'s envelope
    handling raises no [TypeError]: for status [OK] the data is an
    array and the pagination it returns, whether the response's own or
    the one it makes up from the length of the array, is accepted by the
    pagination schema; for status [ERROR] it raises the [Error] that
    carries the code and the message. *)
Theorem validated_funding_response_unwraps :
  forall v out : value,
    safeParse GetFundingResponseSchema v = Some (Success out) ->
    (exists items pag pag',
        unwrap_funding v =
          Resolved {| data := VArr items; pagination := pag |} /\
        parse PaginationSchema pag = Valid pag' /\
        (forall props,
            v = VObj props -> has "pagination" props = false ->
            pag = VObj [("cursor", VNum (of_Z 0));
                        ("count", VNum (of_Z (Z.of_nat (List.length items))))]))
    \/
    (exists code message,
        unwrap_funding v =
          Rejected (Error ("API Error: " ++ code ++ " - " ++ message)%string) /\
        In code ["BAD_REQUEST"; "UNAUTHORIZED"; "FORBIDDEN"; "NOT_FOUND";
                 "UNPROCESSABLE_ENTITY"; "INTERNAL_SERVER_ERROR"]).
Proof.
  intros v out Hparse. unfold safeParse in Hparse.
  destruct (parse GetFundingResponseSchema v) as [out'| |] eqn:E;
    try discriminate.
  destruct (accepted_envelope (z_array FundingRateSchema)
              GeneralErrorCodeSchema
              [("pagination", z_optional PaginationSchema)] v out' E)
    as [props [-> [[Hstatus [[dat Hdat] Hrest]] | [Hstatus Herror]]]].
  - left.
    destruct (parse_array_inv _ _ _ Hdat) as [items Hitems].
    destruct (Hrest "pagination" (z_optional PaginationSchema))
      as [y Hy]; [left; reflexivity|].
    unfold unwrap_funding. rewrite !get_field, Hstatus, Hitems.
    simpl is_string. cbv iota.
    destruct (field "pagination" props) as [| | b | n | s | l | pprops]
      eqn:Hpag; try discriminate Hy.
    + exists items. eexists. eexists. split; [reflexivity|]. split.
      * simpl. rewrite Z.rem_1_r. reflexivity.
      * intros props' Hprops _. reflexivity.
    + exists items, (VObj pprops), y. split; [reflexivity|].
      split; [exact Hy|].
      intros props' Hprops Hhas. inversion Hprops; subst props'.
      unfold field in Hpag. unfold has in Hhas.
      destruct (assoc "pagination" props); discriminate.
  - right. destruct Herror as [eprops [c [m [Herr [Hcode Hmessage]]]]].
    apply parse_enum_iff in Hcode. destruct Hcode as [code [Hcode [_ Hin]]].
    exists code, m. split; [|exact Hin].
    unfold unwrap_funding, api_error_message.
    rewrite !get_field, Hstatus. simpl.
    rewrite Herr, !get_field, Hcode, Hmessage. reflexivity.
Qed.

End SchemaClientProperties.

(* ================================================================== *)
(** * Further properties of the schemas *)
(* ================================================================== *)

Section MoreSchemaProperties.
Import Zod Schemas.
Local Open Scope list_scope.

(** The converse of [parse_fields_required]. *)
Lemma parse_fields_complete (props : list (string * value))
  (shape : list (string * schema)) :
  (forall key ks, In (key, ks) shape ->
                  exists y, parse ks (field key props) = Valid y) ->
  exists fields, parse_fields props shape = Valid fields.
Proof.
  induction shape as [|[key ks] r IH]; intros H.
  - exists []. reflexivity.
  - destruct (H key ks) as [y Hy]; [left; reflexivity|].
    destruct IH as [ys Hys].
    { intros key' ks' Hin. apply (H key' ks'). right. exact Hin. }
    simpl. rewrite Hy, Hys.
    destruct (negb (is_undefined y) || has key props); eexists; reflexivity.
Qed.

Lemma parse_fields_keys (props : list (string * value))
  (shape : list (string * schema)) (fields : list (string * value)) :
  parse_fields props shape = Valid fields ->
  forall key, In key (map fst fields) -> In key (map fst shape).
Proof.
  revert fields. induction shape as [|[key' ks] r IH]; intros fields H key Hin.
  - simpl in H. inversion H; subst. destruct Hin.
  - simpl in H.
    destruct (parse ks (field key' props)) as [y| |];
      try (destruct (parse_fields props r); discriminate).
    destruct (parse_fields props r) as [ys| |]; try discriminate.
    destruct (negb (is_undefined y) || has key' props);
      inversion H; subst; simpl in *.
    + destruct Hin as [Heq | Hin]; [left; exact Heq|].
      right. apply (IH ys eq_refl key Hin).
    + right. apply (IH fields eq_refl key Hin).
Qed.

(** The data a response schema hands back has no key but [status],
    [data], [pagination] and [error], whatever keys the input had. *)
Theorem parsed_envelope_keys_are_declared :
  forall (first : entered_first) (e : endpoint) (v out : value),
    In e (endpoints first) ->
    safeParse (response e) v = Some (Success out) ->
    exists fields,
      out = VObj fields /\
      forall key,
        In key (map fst fields) ->
        In key ["status"; "data"; "pagination"; "error"].
Proof.
  intros first e v out Hin Hparse.
  destruct (endpoints_shape first e Hin)
    as [rest [Hresponse [Hsuccess [Hfailure [Hrest _]]]]].
  unfold safeParse in Hparse.
  destruct (parse (response e) v) as [out'| |] eqn:E; try discriminate.
  inversion Hparse; subst out'. clear Hparse.
  rewrite Hresponse, Hsuccess, Hfailure in E.
  destruct v as [| | b | n | s | items | props]; try discriminate.
  rewrite parse_envelope in E.
  destruct (is_string (field "status" props) "OK").
  - destruct (parse_object_inv _ _ _ E) as [props' [fields [Hv [Hout Hf]]]].
    inversion Hv; subst props'. exists fields. split; [exact Hout|].
    intros key Hkey. apply (parse_fields_keys _ _ _ Hf) in Hkey.
    simpl in Hkey. destruct Hkey as [<- | [<- | Hkey]].
    + left. reflexivity.
    + right. left. reflexivity.
    + apply Hrest in Hkey. subst key. right. right. left. reflexivity.
  - destruct (is_string (field "status" props) "ERROR"); [|discriminate].
    destruct (parse_object_inv _ _ _ E) as [props' [fields [Hv [Hout Hf]]]].
    inversion Hv; subst props'. exists fields. split; [exact Hout|].
    intros key Hkey. apply (parse_fields_keys _ _ _ Hf) in Hkey.
    simpl in Hkey. destruct Hkey as [<- | [<- | []]].
    + left. reflexivity.
    + right. right. right. left. reflexivity.
Qed.

Lemma MarketStatsWithDeleverageSchema_shape :
  MarketStatsWithDeleverageSchema =
  z_object
    [("dailyVolume", z_string);
     ("dailyVolumeBase", z_string);
     ("dailyPriceChange", z_string);
     ("dailyPriceChangePercentage", z_string);
     ("dailyLow", z_string);
     ("dailyHigh", z_string);
     ("lastPrice", z_string);
     ("askPrice", z_string);
     ("bidPrice", z_string);
     ("markPrice", z_string);
     ("indexPrice", z_string);
     ("fundingRate", z_string);
     ("nextFundingRate", z_number [int; positive_]);
     ("openInterest", z_string);
     ("openInterestBase", z_string);
     ("deleverageLevels", DeleverageLevelsSchema)].
Proof. reflexivity. Qed.

(** [extend] makes [dailyPriceChange] required, keeps its place among
    the keys and adds [deleverageLevels] at the end; so whatever the
    schema of the stats endpoint accepts, the schema of the stats inside
    a market accepts too, while a value without [dailyPriceChange] or
    without [deleverageLevels] is rejected by the former. *)
Theorem stats_with_deleverage_refines_stats :
  forall v out : value,
    parse MarketStatsWithDeleverageSchema v = Valid out ->
    (exists out', parse MarketStatsSchema v = Valid out') /\
    exists props s levels,
      v = VObj props /\
      field "dailyPriceChange" props = VStr s /\
      parse DeleverageLevelsSchema (field "deleverageLevels" props)
      = Valid levels.
Proof.
  intros v out H. rewrite MarketStatsWithDeleverageSchema_shape in H.
  destruct (parse_object_inv _ _ _ H) as [props [fields [-> [_ Hf]]]].
  assert (Hreq := parse_fields_required props _ fields Hf).
  split.
  - unfold MarketStatsSchema. rewrite parse_object.
    destruct (parse_fields_complete props
                [("dailyVolume", z_string);
                 ("dailyVolumeBase", z_string);
                 ("dailyPriceChange", z_optional z_string);
                 ("dailyPriceChangePercentage", z_string);
                 ("dailyLow", z_string);
                 ("dailyHigh", z_string);
                 ("lastPrice", z_string);
                 ("askPrice", z_string);
                 ("bidPrice", z_string);
                 ("markPrice", z_string);
                 ("indexPrice", z_string);
                 ("fundingRate", z_string);
                 ("nextFundingRate", z_number [int; positive_]);
                 ("openInterest", z_string);
                 ("openInterestBase", z_string)]) as [fields' Hfields'].
    + intros key ks Hin. simpl in Hin.
      repeat (destruct Hin as [Heq | Hin];
              [inversion Heq; subst key ks;
               try (apply Hreq; simpl; tauto)|]);
        [|destruct Hin].
      destruct (Hreq "dailyPriceChange" z_string) as [y Hy];
        [simpl; tauto|].
      destruct (parse_string_inv _ _ Hy) as [s Hs].
      rewrite Hs. eexists. reflexivity.
    + rewrite Hfields'. eexists. reflexivity.
  - destruct (Hreq "dailyPriceChange" z_string) as [y Hy]; [simpl; tauto|].
    destruct (parse_string_inv _ _ Hy) as [s Hs].
    destruct (Hreq "deleverageLevels" DeleverageLevelsSchema) as [levels Hl];
      [simpl; tauto|].
    exists props, s, levels. repeat split; assumption.
Qed.

Lemma of_Z_lt (a b : Z) : number_lt (of_Z a) (of_Z b) = (a <? b)%Z.
Proof. apply (of_Z_gt b a). Qed.

(** An ADL level is accepted exactly when it is one of the integers 1,
    2, 3, 4 and the ranking bound is a string; a level that is not an
    integer is rejected. *)
Theorem deleverage_level_bounds :
  forall props : list (string * value),
    (forall z,
        field "level" props = VNum (of_Z z) ->
        ((exists out, parse DeleverageLevel (VObj props) = Valid out) <->
         (1 <= z <= 4)%Z /\
         exists r, field "rankingLowerBound" props = VStr r)) /\
    (forall n,
        field "level" props = VNum n ->
        number_isInteger n = false ->
        parse DeleverageLevel (VObj props) = Invalid).
Proof.
  intros props. split.
  - intros z Hlevel. unfold DeleverageLevel. rewrite parse_object.
    cbn [parse_fields]. rewrite Hlevel.
    assert (Hnum :
              parse (z_number [int; min 1; max 4]) (VNum (of_Z z)) =
              if ((1 <=? z) && (z <=? 4))%Z then Valid (VNum (of_Z z))
              else Invalid).
    { cbn [parse of_Z forallb check_ok number_isInteger Qnum Qden inject_Z].
      rewrite Z.rem_1_r. cbn [Z.eqb andb].
      change (Fin (inject_Z z)) with (of_Z z).
      unfold number_gt. rewrite !of_Z_lt.
      rewrite <- !Z.leb_antisym, andb_true_r. reflexivity. }
    rewrite Hnum.
    destruct ((1 <=? z) && (z <=? 4))%Z eqn:Hrange.
    + apply andb_true_iff in Hrange. rewrite !Z.leb_le in Hrange.
      destruct (field "rankingLowerBound" props)
        as [| | b | n | s | items | props'] eqn:Hr; cbn [parse];
        try (split; [intros [out H]; discriminate H
                    | intros [_ [r H]]; discriminate H]).
      split; [intros _; split; [exact Hrange | eexists; reflexivity]|].
      intros _. simpl.
      destruct (has "level" props), (has "rankingLowerBound" props);
        eexists; reflexivity.
    + split.
      * intros [out H].
        destruct (field "rankingLowerBound" props); cbn in H;
          try discriminate H;
          destruct (has "rankingLowerBound" props); discriminate H.
      * intros [Hz _]. apply andb_false_iff in Hrange.
        rewrite !Z.leb_gt in Hrange. lia.
  - intros n Hlevel Hint. unfold DeleverageLevel. rewrite parse_object.
    cbn [parse_fields]. rewrite Hlevel.
    assert (Hnum : parse (z_number [int; min 1; max 4]) (VNum n) = Invalid).
    { destruct n as [| | | q]; try reflexivity.
      cbn [parse forallb check_ok]. rewrite Hint. reflexivity. }
    rewrite Hnum.
    destruct (field "rankingLowerBound" props); cbn; try reflexivity;
      destruct (has "rankingLowerBound" props); reflexivity.
Qed.

(** Which error envelopes each response schema lets through: the
    schemas of candles, funding and open interest accept the six general
    codes only; those of markets, order book and trades accept these and
    the fourteen market, asset and account codes, and so does the schema
    of the stats when its module is entered first.  When the module of
    the markets is entered first, the code schema of the stats is
    [undefined], and validating any such envelope raises. *)
Theorem error_codes_let_through :
  forall (first : entered_first) (S : schema) (code message : string),
    let envelope :=
      VObj [("status", VStr "ERROR");
            ("error", VObj [("code", VStr code); ("message", VStr message)])] in
    let general :=
      ["BAD_REQUEST"; "UNAUTHORIZED"; "FORBIDDEN"; "NOT_FOUND";
       "UNPROCESSABLE_ENTITY"; "INTERNAL_SERVER_ERROR"] in
    let market :=
      ["AssetNotFound"; "MarketNotFound"; "MarketDisabled";
       "MarketGroupNotFound"; "AccountNotFound"; "NotSupportedInterval";
       "UnhandledError"; "ClientNotFound"; "ActionNotAllowed";
       "MaintenanceMode"; "PostOnlyMode"; "ReduceOnlyMode";
       "InvalidPercentage"; "MarketReduceOnly"] in
    (In S [GetCandlesHistoryResponseSchema; GetFundingResponseSchema;
           GetOpenInterestResponseSchema] ->
     (safeParse S envelope = Some (Success envelope) <-> In code general) /\
     (safeParse S envelope = Some Failure <-> ~ In code general)) /\
    (In S [GetExtendedMarketsResponseSchema first;
           GetMarketStatsResponseSchema stats_module;
           GetMarketOrderBookResponseSchema; GetMarketTradesResponseSchema] ->
     (safeParse S envelope = Some (Success envelope)
      <-> In code (general ++ market))
     /\
     (safeParse S envelope = Some Failure <-> ~ In code (general ++ market)))
    /\
    safeParse (GetMarketStatsResponseSchema markets_module) envelope = None.
Proof.
  intros first S code message envelope general market.
  assert (Hvariant :
            forall okShape C,
              parse
                (z_discriminatedUnion "status"
                   [z_object (("status", z_literal "OK") :: okShape);
                    error_variant C]) envelope
              = match parse C (VStr code) with
                | Valid c =>
                    Valid (VObj [("status", VStr "ERROR");
                                 ("error", VObj [("code", c);
                                                 ("message", VStr message)])])
                | Invalid => Invalid
                | Raised => Raised
                end).
  { intros okShape C. unfold envelope. rewrite parse_envelope.
    transitivity
      (parse (error_variant C)
         (VObj [("status", VStr "ERROR");
                ("error", VObj [("code", VStr code);
                                ("message", VStr message)])]));
      [reflexivity|].
    unfold error_variant. rewrite parse_object. cbn [parse_fields].
    change (field "status" _) with (VStr "ERROR").
    change (field "error" _)
      with (VObj [("code", VStr code); ("message", VStr message)]).
    rewrite parse_object. cbn [parse_fields].
    change (field "code" _) with (VStr code).
    change (field "message" _) with (VStr message).
    destruct (parse C (VStr code)) as [c| |]; try reflexivity.
    cbn. rewrite orb_true_r. reflexivity. }
  assert (Henum :
            forall l,
              parse (z_enum l) (VStr code)
              = if existsb (String.eqb code) l then Valid (VStr code)
                else Invalid) by reflexivity.
  assert (Hgeneral :
            forall okShape,
              safeParse
                (z_discriminatedUnion "status"
                   [z_object (("status", z_literal "OK") :: okShape);
                    error_variant GeneralErrorCodeSchema]) envelope
              = if existsb (String.eqb code) general
                then Some (Success envelope) else Some Failure).
  { intros okShape. unfold safeParse. rewrite Hvariant.
    unfold GeneralErrorCodeSchema. rewrite Henum. fold general.
    destruct (existsb (String.eqb code) general); reflexivity. }
  assert (Hmarket :
            forall okShape,
              safeParse
                (z_discriminatedUnion "status"
                   [z_object (("status", z_literal "OK") :: okShape);
                    error_variant MarketErrorCodeSchema]) envelope
              = if existsb (String.eqb code) (general ++ market)
                then Some (Success envelope) else Some Failure).
  { intros okShape. unfold safeParse. rewrite Hvariant.
    rewrite existsb_app.
    assert (Hunion :
              parse MarketErrorCodeSchema (VStr code)
              = match parse GeneralErrorCodeSchema (VStr code) with
                | Valid c => Valid c
                | Invalid =>
                    parse MarketAssetAccountErrorCodeSchema (VStr code)
                | Raised => Raised
                end).
    { unfold MarketErrorCodeSchema. rewrite parse_union.
      cbn [parse_first].
      destruct (parse GeneralErrorCodeSchema (VStr code)); try reflexivity.
      destruct (parse MarketAssetAccountErrorCodeSchema (VStr code));
        reflexivity. }
    rewrite Hunion.
    unfold GeneralErrorCodeSchema, MarketAssetAccountErrorCodeSchema.
    rewrite !Henum. fold general. fold market.
    destruct (existsb (String.eqb code) general); [reflexivity|].
    destruct (existsb (String.eqb code) market); reflexivity. }
  assert (Hin :
            forall l, existsb (String.eqb code) l = true <-> In code l).
  { intros l. rewrite existsb_exists. split.
    - intros [x [Hx Heq]]. apply String.eqb_eq in Heq. subst x. exact Hx.
    - intros H. exists code. split; [exact H | apply String.eqb_refl]. }
  assert (Hdecide :
            forall l (r : option SafeParseResult),
              r = (if existsb (String.eqb code) l
                   then Some (Success envelope) else Some Failure) ->
              (r = Some (Success envelope) <-> In code l) /\
              (r = Some Failure <-> ~ In code l)).
  { intros l r ->. rewrite <- Hin.
    destruct (existsb (String.eqb code) l); split; split;
      try reflexivity; try discriminate; intros H; congruence. }
  split; [|split]; [intros HS; simpl in HS | intros HS; simpl in HS |].
  - destruct HS as [<- | [<- | [<- | []]]]; apply Hdecide; apply Hgeneral.
  - destruct HS as [<- | [<- | [<- | [<- | []]]]];
      apply Hdecide; apply Hmarket.
  - unfold safeParse, GetMarketStatsResponseSchema,
      GetMarketStatsSuccessSchema, GetMarketStatsErrorSchema.
    rewrite Hvariant. reflexivity.
Qed.

End MoreSchemaProperties.

(* ================================================================== *)
(** * Edges of the envelope handling, and the queries sent *)
(* ================================================================== *)

Section EnvelopeEdges.
Context {P : Platform}.
Import InfoClient Http.
Local Open Scope list_scope.

Lemma get_none_iff (v : value) (key : string) :
  get v key = None <-> v = VUndefined \/ v = VNull.
Proof.
  destruct v; simpl; split; intros H;
    try discriminate H; try (destruct H as [H | H]; discriminate H).
  - left. reflexivity.
  - reflexivity.
  - right. reflexivity.
  - reflexivity.
Qed.

(** ** The conversion to text *)

Lemma value_nested_ind (Q : value -> Prop) :
  Q VUndefined ->
  Q VNull ->
  (forall b, Q (VBool b)) ->
  (forall n, Q (VNum n)) ->
  (forall s, Q (VStr s)) ->
  (forall items, Forall Q items -> Q (VArr items)) ->
  (forall props, Forall (fun p => Q (snd p)) props -> Q (VObj props)) ->
  forall v, Q v.
Proof.
  intros Hundefined Hnull Hbool Hnum Hstr Harr Hobj.
  fix IH 1. intros v.
  destruct v as [| | b | n | s | items | props].
  - exact Hundefined.
  - exact Hnull.
  - apply Hbool.
  - apply Hnum.
  - apply Hstr.
  - apply Harr.
    refine ((fix all (l : list value) : Forall Q l :=
               match l with
               | [] => Forall_nil Q
               | x :: r => Forall_cons x (IH x) (all r)
               end) items).
  - apply Hobj.
    refine ((fix all (l : list (string * value))
               : Forall (fun p => Q (snd p)) l :=
               match l with
               | [] => Forall_nil _
               | p :: r => Forall_cons p (IH (snd p)) (all r)
               end) props).
Qed.

Lemma ToString_array (items : list value) :
  ToString (VArr items) = option_map (join ",") (ToString_each items).
Proof.
  reflexivity.
Qed.

Lemma unprintable_not_nullish (x : value) :
  unprintable x -> x <> VUndefined /\ x <> VNull.
Proof.
  intros H. inversion H; split; discriminate.
Qed.

Lemma ToString_each_none (items : list value) :
  ToString_each items = None <->
  exists x, In x items /\ x <> VUndefined /\ x <> VNull /\ ToString x = None.
Proof.
  induction items as [|x r IH]; simpl.
  - split; [discriminate | intros [x [[] _]]].
  - destruct (ToString_each r) as [b|] eqn:Er.
    + assert (Hrest :
                forall y, In y r -> y <> VUndefined -> y <> VNull ->
                          ToString y <> None).
      { intros y Hin Hu Hn Hy.
        assert (H : Some b = None)
          by (apply IH; exists y; repeat split; assumption).
        discriminate H. }
      destruct x as [| | bo | n | s | items' | props];
        try (split; [try destruct bo; discriminate|];
             intros [y [[Heq | Hin] [Hu [Hn Hy]]]];
             [subst y;
              first [contradiction Hu; reflexivity
                    | contradiction Hn; reflexivity
                    | try destruct bo; discriminate Hy]
             | exfalso; exact (Hrest y Hin Hu Hn Hy)]).
      * destruct (ToString (VArr items')) as [a|] eqn:Ea.
        -- split; [discriminate|].
           intros [y [[Heq | Hin] [Hu [Hn Hy]]]];
             [subst y; congruence | exfalso; exact (Hrest y Hin Hu Hn Hy)].
        -- split; [|reflexivity]. intros _. exists (VArr items').
           split; [left; reflexivity|].
           split; [discriminate|]. split; [discriminate | exact Ea].
      * destruct (ToString (VObj props)) as [a|] eqn:Ea.
        -- split; [discriminate|].
           intros [y [[Heq | Hin] [Hu [Hn Hy]]]];
             [subst y; congruence | exfalso; exact (Hrest y Hin Hu Hn Hy)].
        -- split; [|reflexivity]. intros _. exists (VObj props).
           split; [left; reflexivity|].
           split; [discriminate|]. split; [discriminate | exact Ea].
    + split.
      * intros _. destruct (proj1 IH eq_refl) as [y [Hin Hy]].
        exists y. split; [right; exact Hin | exact Hy].
      * intros _.
        destruct (match x with
                  | VUndefined | VNull => Some EmptyString
                  | _ => ToString x
                  end); reflexivity.
Qed.

(** [ToString] raises exactly on the values with a property [toString]
    of their own in them. *)
Lemma ToString_none_iff (v : value) :
  ToString v = None <-> unprintable v.
Proof.
  induction v as [| | b | n | s | items IH | props _]
    using value_nested_ind.
  - split; [discriminate | intros H; inversion H].
  - split; [discriminate | intros H; inversion H].
  - split; [destruct b; discriminate | intros H; inversion H].
  - split; [discriminate | intros H; inversion H].
  - split; [discriminate | intros H; inversion H].
  - rewrite ToString_array. rewrite Forall_forall in IH. split.
    + intros H.
      destruct (ToString_each items) as [l|] eqn:E; [discriminate H|].
      apply ToString_each_none in E.
      destruct E as [x [Hin [_ [_ Hx]]]].
      apply (unprintable_array items x Hin). apply (IH x Hin). exact Hx.
    + intros H. inversion H as [|items' x Hin Hx]; subst.
      assert (E : ToString_each items = None).
      { apply ToString_each_none. exists x.
        destruct (unprintable_not_nullish x Hx) as [Hu Hn].
        repeat split; try assumption. apply (IH x Hin). exact Hx. }
      rewrite E. reflexivity.
  - simpl. split.
    + destruct (assoc "toString" props) as [x|] eqn:E; [|discriminate].
      intros _. apply (unprintable_object props x E).
    + intros H. inversion H as [props' x E|]; subst.
      rewrite E. reflexivity.
Qed.

(** The message of an API error cannot be made exactly when the [error]
    is [undefined] or [null], or its code or its message is a value
    that [ToString] raises on. *)
Lemma api_error_message_none_iff (response : value) :
  api_error_message response = None <->
  get response "error" = None \/
  exists err,
    get response "error" = Some err /\
    (err = VUndefined \/ err = VNull \/
     exists code message,
       get err "code" = Some code /\
       get err "message" = Some message /\
       (unprintable code \/ unprintable message)).
Proof.
  unfold api_error_message.
  destruct (get response "error") as [err|]; [|split; auto].
  destruct (get err "code") as [code|] eqn:Hcode.
  - assert (Hmessage : exists m, get err "message" = Some m).
    { destruct (get err "message") as [m|] eqn:E; [eexists; reflexivity|].
      apply (proj1 (get_none_iff err "message")) in E.
      apply (proj2 (get_none_iff err "code")) in E.
      rewrite E in Hcode. discriminate Hcode. }
    destruct Hmessage as [m Hm]. rewrite Hm.
    assert (Hdefined : ~ (err = VUndefined \/ err = VNull)).
    { intros H. apply (proj2 (get_none_iff err "code")) in H. congruence. }
    destruct (ToString code) as [code_text|] eqn:Ec.
    + destruct (ToString m) as [message_text|] eqn:Em.
      * split; [discriminate|].
        intros [H | [err' [Herr [H | [H | [c [m' [Hc [Hm' Hun]]]]]]]]];
          try discriminate H; inversion Herr; subst err';
          try (exfalso; apply Hdefined; auto; fail).
        rewrite Hcode in Hc. rewrite Hm in Hm'.
        inversion Hc; inversion Hm'; subst c m'.
        destruct Hun as [Hun | Hun]; apply ToString_none_iff in Hun;
          congruence.
      * split; [|reflexivity]. intros _. right. exists err.
        split; [reflexivity|]. right. right. exists code, m.
        split; [exact Hcode|]. split; [exact Hm|].
        right. apply ToString_none_iff. exact Em.
    + split; [|reflexivity]. intros _. right. exists err.
      split; [reflexivity|]. right. right. exists code, m.
      split; [exact Hcode|]. split; [exact Hm|].
      left. apply ToString_none_iff. exact Ec.
  - split; [|reflexivity]. intros _. right. exists err.
    split; [reflexivity|].
    destruct (proj1 (get_none_iff err "code") Hcode) as [H | H];
      [left | right; left]; exact H.
Qed.

(** The envelope handling raises a [TypeError] exactly when the response
    is [undefined] or [null], or has status [ERROR] and an [error] that
    is [undefined] (missing) or [null] or whose code or message cannot be
    converted to text.  That of [funding] does so also for status [OK]
    when the pagination is falsy and the data is [undefined] (missing)
    or [null], and in no other case. *)
Theorem envelope_type_errors :
  forall response : value,
    let unreadable_error :=
      get response "status" = Some (VStr "ERROR") /\
      exists err,
        get response "error" = Some err /\
        (err = VUndefined \/ err = VNull \/
         exists code message,
           get err "code" = Some code /\
           get err "message" = Some message /\
           (unprintable code \/ unprintable message)) in
    (unwrap response = Rejected TypeError <->
     (response = VUndefined \/ response = VNull) \/ unreadable_error) /\
    (unwrap_funding response = Rejected TypeError <->
     (response = VUndefined \/ response = VNull) \/
     unreadable_error \/
     (get response "status" = Some (VStr "OK") /\
      exists dat pag,
        get response "data" = Some dat /\
        get response "pagination" = Some pag /\
        truthy pag = false /\
        (dat = VUndefined \/ dat = VNull))).
Proof.
  intros response unreadable_error. subst unreadable_error.
  destruct (get response "status") as [status|] eqn:Hstatus.
  - assert (Hdefined : forall key, exists x, get response key = Some x).
    { intros key. destruct (get response key) as [x|] eqn:E;
        [eexists; reflexivity|].
      apply (proj1 (get_none_iff response key)) in E.
      apply (proj2 (get_none_iff response "status")) in E.
      congruence. }
    assert (Hnot : ~ (response = VUndefined \/ response = VNull)).
    { intros H. apply (proj2 (get_none_iff response "status")) in H.
      congruence. }
    destruct (Hdefined "data") as [dat Hdat].
    destruct (Hdefined "pagination") as [pag Hpag].
    destruct (Hdefined "error") as [err Herr].
    assert (Herror :
              api_error_message response = None <->
              exists err',
                get response "error" = Some err' /\
                (err' = VUndefined \/ err' = VNull \/
                 exists code message,
                   get err' "code" = Some code /\
                   get err' "message" = Some message /\
                   (unprintable code \/ unprintable message))).
    { rewrite api_error_message_none_iff. split.
      - intros [H | H]; [congruence | exact H].
      - intros H. right. exact H. }
    unfold unwrap, unwrap_funding. rewrite Hstatus, Hdat, Hpag.
    destruct (is_string status "OK") eqn:Hok.
    + apply is_string_inv in Hok. subst status. split.
      * split; [discriminate|].
        intros [H | [H _]]; [contradiction | discriminate H].
      * destruct (truthy pag) eqn:Htruthy.
        -- split; [discriminate|].
           intros [H | [[H _] | [_ [d [p [Hd [Hp [Hf _]]]]]]]];
             [contradiction | discriminate H |].
           inversion Hp; subst p. congruence.
        -- destruct (get dat "length") as [count|] eqn:Hlength.
           ++ split; [discriminate|].
              intros [H | [[H _] | [_ [d [p [Hd [_ [_ Hnull]]]]]]]];
                [contradiction | discriminate H |].
              inversion Hd; subst d.
              apply (proj2 (get_none_iff dat "length")) in Hnull.
              congruence.
           ++ split; [|reflexivity]. intros _. right. right.
              split; [reflexivity|]. exists dat, pag.
              repeat split; try assumption.
              apply (proj1 (get_none_iff dat "length")). exact Hlength.
    + destruct (is_string status "ERROR") eqn:Herr'.
      * apply is_string_inv in Herr'. subst status.
        destruct (api_error_message response) as [message|] eqn:Hmessage.
        -- split.
           ++ split; [discriminate|].
              intros [H | [_ H]]; [contradiction|].
              apply Herror in H. discriminate H.
           ++ split; [discriminate|].
              intros [H | [[_ H] | [H _]]];
                [contradiction | | discriminate H].
              apply Herror in H. discriminate H.
        -- assert (H := proj1 Herror eq_refl). split.
           ++ split; [|reflexivity]. intros _. right.
              split; [reflexivity | exact H].
           ++ split; [|reflexivity]. intros _. right. left.
              split; [reflexivity | exact H].
      * assert (Hneither :
                  status <> VStr "OK" /\ status <> VStr "ERROR").
        { split; intros ->; simpl in *; discriminate. }
        destruct Hneither as [H1 H2]. split.
        -- split; [discriminate|].
           intros [H | [H _]]; [contradiction|]. congruence.
        -- split; [discriminate|].
           intros [H | [[H _] | [H _]]]; [contradiction | |]; congruence.
  - assert (Hnull := proj1 (get_none_iff response "status") Hstatus).
    unfold unwrap, unwrap_funding. rewrite Hstatus.
    split; (split; [intros _; left; exact Hnull | reflexivity]).
Qed.


End EnvelopeEdges.

(* ================================================================== *)
(** * Further worked examples *)
(* ================================================================== *)

Section MoreExamples.
Import InfoClient Http Zod Schemas Example.
#[local] Existing Instance Example.platform.
Local Open Scope list_scope.

Lemma funding_reaches_transport_iff_witness :
  (matches_market "BTC-USD" = true /\
   number_lt (of_Z 0) (of_Z 1) = true /\
   number_lt (of_Z 1) (of_Z 2) = true /\
   limit_rejected None 10000 = false) /\
  funding "BTC-USD" (of_Z 1) (of_Z 2) None None None
  = Requests btc_funding_request unwrap_funding.
Proof.
  assert (H : matches_market "BTC-USD" = true /\
              number_lt (of_Z 0) (of_Z 1) = true /\
              number_lt (of_Z 1) (of_Z 2) = true /\
              limit_rejected None 10000 = false)
    by (repeat split; reflexivity).
  split; [exact H|].
  exact (proj2 (proj2 (funding_reaches_transport_iff
                         "BTC-USD" (of_Z 1) (of_Z 2) None None None)) H).
Defined.

Lemma candles_reaches_transport_iff_witness :
  (matches_market "BTC-USD" = true /\
   "1m" <> EmptyString /\
   number_lt (of_Z 0) (of_Z 1000) = true /\
   ("trades" = "trades" \/ "trades" = "mark-prices"
    \/ "trades" = "index-prices")) /\
  invocations (candles "BTC-USD" "trades" "1m" (of_Z 1000) None None)
  = [ {| method := GET; path := "info/candles/{market}/{candleType}";
         params := Some [("interval", QStr "1m");
                         ("limit", QNum (of_Z 1000))];
         pathParams := Some [("market", PStr "BTC-USD");
                             ("candleType", PStr "trades")];
         signal := None |} ].
Proof.
  assert (H : matches_market "BTC-USD" = true /\
              "1m" <> EmptyString /\
              number_lt (of_Z 0) (of_Z 1000) = true /\
              ("trades" = "trades" \/ "trades" = "mark-prices"
               \/ "trades" = "index-prices")).
  { split; [reflexivity|]. split; [discriminate|].
    split; [reflexivity | left; reflexivity]. }
  split; [exact H|].
  rewrite (proj2 (proj2 (candles_reaches_transport_iff
                           "BTC-USD" "trades" "1m" (of_Z 1000) None None)) H).
  reflexivity.
Defined.

Lemma openInterest_reaches_transport_iff_witness :
  (matches_market "BTC-USD" = true /\
   ("P1D" = "P1H" \/ "P1D" = "P1D") /\
   number_lt (of_Z 0) (of_Z 1) = true /\
   number_lt (of_Z 1) (of_Z 2) = true /\
   limit_rejected (Some (of_Z 300)) 300 = false) /\
  invocations
    (openInterest "BTC-USD" "P1D" (of_Z 1) (of_Z 2) (Some (of_Z 300)) None)
  = [ {| method := GET; path := "info/{market}/open-interests";
         params := Some [("interval", QStr "P1D");
                         ("startTime", QNum (of_Z 1));
                         ("endTime", QNum (of_Z 2));
                         ("limit", QNum (of_Z 300))];
         pathParams := Some [("market", PStr "BTC-USD")];
         signal := None |} ].
Proof.
  assert (H : matches_market "BTC-USD" = true /\
              ("P1D" = "P1H" \/ "P1D" = "P1D") /\
              number_lt (of_Z 0) (of_Z 1) = true /\
              number_lt (of_Z 1) (of_Z 2) = true /\
              limit_rejected (Some (of_Z 300)) 300 = false).
  { split; [reflexivity|]. split; [right; reflexivity|].
    repeat split; reflexivity. }
  split; [exact H|].
  rewrite (proj2 (proj2 (openInterest_reaches_transport_iff
                           "BTC-USD" "P1D" (of_Z 1) (of_Z 2)
                           (Some (of_Z 300)) None)) H).
  reflexivity.
Defined.

Lemma request_resolves_iff_witness :
  (sent (constructor None) (markets_request None) fresh <> None /\
   (200 <= status (json_response two_rates) <= 299)%Z /\
   occurs_in "application/json" "application/json; charset=utf-8" /\
   fst (request (constructor None) (answering (json_response two_rates))
          (markets_request None) fresh)
   = Resolved two_rates) /\
  (URL_canParse (url_reference (markets_request None))
     (baseUrl (constructor (Some (with_server "not a url")))) = false /\
   fst (request (constructor (Some (with_server "not a url")))
          (answering (json_response two_rates)) (markets_request None) fresh)
   = Rejected TypeError) /\
  (Request_accepts (url_reference (markets_request None))
     (baseUrl (constructor (Some navigating)))
     (init_other (fetchOptions (constructor (Some navigating)))) = false /\
   fst (request (constructor (Some navigating))
          (answering (json_response two_rates)) (markets_request None) fresh)
   = Rejected TypeError).
Proof.
  assert (Hstatus : (200 <= status (json_response two_rates) <= 299)%Z)
    by (split; discriminate).
  assert (Hoccurs :
            occurs_in "application/json" "application/json; charset=utf-8")
    by (exists EmptyString, "; charset=utf-8"; reflexivity).
  split; [|split].
  - split; [discriminate|]. split; [exact Hstatus|]. split; [exact Hoccurs|].
    apply (proj2 (proj1 (request_resolves_iff (constructor None)
                           (answering (json_response two_rates))
                           (markets_request None) fresh two_rates))).
    eexists. eexists. exists (json_response two_rates).
    exists "application/json; charset=utf-8".
    split; [reflexivity|]. split; [reflexivity|]. split; [reflexivity|].
    split; [exact Hstatus|]. split; [reflexivity|].
    split; [exact Hoccurs | reflexivity].
  - split; [reflexivity|].
    apply (proj2 (request_resolves_iff
                    (constructor (Some (with_server "not a url")))
                    (answering (json_response two_rates))
                    (markets_request None) fresh two_rates)).
    left. reflexivity.
  - split; [reflexivity|].
    apply (proj2 (request_resolves_iff (constructor (Some navigating))
                    (answering (json_response two_rates))
                    (markets_request None) fresh two_rates)).
    right. reflexivity.
Defined.

Lemma requests_in_turn_leak_no_timer_witness :
  handles_fresh fresh /\
  timers
    (in_turn
       [(constructor None, answering not_found, markets_request None);
        (constructor None, answering (json_response two_rates),
         btc_funding_request)]
       fresh)
  = timers fresh.
Proof.
  assert (Hfresh : handles_fresh fresh) by constructor.
  split; [exact Hfresh|].
  exact (proj1 (requests_in_turn_leak_no_timer
                  [(constructor None, answering not_found,
                    markets_request None);
                   (constructor None, answering (json_response two_rates),
                    btc_funding_request)]
                  fresh Hfresh (Forall_nil _) (NoDup_nil _))).
Defined.

Lemma constructor_timeout_witness :
  (exists o,
      Some (only_timeout timeout_null) = Some o /\
      (opt_timeout o = timeout_absent \/ opt_timeout o = timeout_null)) /\
  timeout (constructor (Some (only_timeout timeout_null)))
  = Some (of_Z 10000).
Proof.
  assert (H : exists o,
             Some (only_timeout timeout_null) = Some o /\
             (opt_timeout o = timeout_absent \/ opt_timeout o = timeout_null)).
  { exists (only_timeout timeout_null).
    split; [reflexivity | right; reflexivity]. }
  split; [exact H|].
  exact (proj1 (proj2 (constructor_timeout
                         (Some (only_timeout timeout_null))))
           (or_intror H)).
Defined.

Lemma validated_paths_have_no_placeholder_witness :
  exists url,
    build_url (constructor None)
      {| method := GET; path := "info/markets/{market}/stats";
         params := None; pathParams := Some [("market", PStr "BTC-USD")];
         signal := None |}
    = Some url /\
    invocations (marketStats "BTC-USD" None)
    = [ {| method := GET; path := "info/markets/{market}/stats";
           params := None; pathParams := Some [("market", PStr "BTC-USD")];
           signal := None |} ] /\
    reference url = "/api/v1/info/markets/BTC-USD/stats".
Proof.
  eexists. split; [reflexivity|]. split; [reflexivity|].
  exact (proj1 (validated_paths_have_no_placeholder (constructor None)
                  "BTC-USD" None _ _ eq_refl) unwrap eq_refl).
Defined.

Lemma match_reference_stays_unsubstituted_witness :
  exists d url,
    In d (invocations (marketOrderBook "$&" None)) /\
    build_url (constructor None) d = Some url /\
    reference url = "/api/v1/info/markets/{market}/orderbook".
Proof.
  eexists. eexists.
  assert (Hin : In {| method := GET; path := "info/markets/{market}/orderbook";
                      params := None;
                      pathParams := Some [("market", PStr "$&")];
                      signal := None |}
                  (invocations (marketOrderBook "$&" None)))
    by (left; reflexivity).
  split; [exact Hin|]. split; [reflexivity|].
  exact (proj2 (proj2 (match_reference_stays_unsubstituted
                         (constructor None) None)) _ _ Hin eq_refl).
Defined.

Lemma invalid_input_means_nothing_sent_witness :
  fst (over_http (constructor None) (answering not_found)
         (marketStats "btc-usd" None) fresh)
  = Rejected (InvalidInputError "Invalid market input.") /\
  snd (over_http (constructor None) (answering not_found)
         (marketStats "btc-usd" None) fresh)
  = fresh.
Proof.
  split; [reflexivity|].
  exact (proj1 (invalid_input_means_nothing_sent value
                  (marketStats "btc-usd" None) (constructor None)
                  (answering not_found) fresh "Invalid market input."
                  (is_marketStats "btc-usd" None) eq_refl)).
Defined.

Lemma transport_errors_surface_unchanged_witness :
  fst (request (constructor None) (answering not_found)
         {| method := GET; path := "info/markets/{market}/stats";
            params := None; pathParams := Some [("market", PStr "BTC-USD")];
            signal := None |} fresh)
  = Rejected (HttpRequestError 404 (Some "nope")) /\
  fst (over_http (constructor None) (answering not_found)
         (marketStats "BTC-USD" None) fresh)
  = Rejected (HttpRequestError 404 (Some "nope")).
Proof.
  split; [reflexivity|].
  apply (proj2 (transport_errors_surface_unchanged value
                  (marketStats "BTC-USD" None) (constructor None)
                  (answering not_found) fresh 404 (Some "nope")
                  (is_marketStats "BTC-USD" None))).
  eexists. eexists. split; reflexivity.
Defined.

Lemma client_call_single_round_trip_witness :
  handles_fresh fresh /\
  timers (snd (over_http (constructor None) (answering not_found)
                 (marketTrades "BTC-USD" None) fresh))
  = timers fresh.
Proof.
  assert (Hfresh : handles_fresh fresh) by constructor.
  split; [exact Hfresh|].
  exact (proj1 (client_call_single_round_trip value
                  (marketTrades "BTC-USD" None) (constructor None)
                  (answering not_found) fresh
                  (is_marketTrades "BTC-USD" None) Hfresh)).
Defined.

Lemma one_symbol_methods_resolve_iff_witness :
  get (VObj [("status", VStr "OK")]) "data" = Some VUndefined /\
  run (fun _ => Resolved (VObj [("status", VStr "OK")]))
    (marketOrderBook "NONEXISTENT-MARKET" None)
  = Resolved VUndefined.
Proof.
  split; [reflexivity|].
  apply (proj2 (proj1 (one_symbol_methods_resolve_iff
                         (fun _ => Resolved (VObj [("status", VStr "OK")]))
                         "NONEXISTENT-MARKET" None VUndefined))).
  eexists. split; [reflexivity|]. split; reflexivity.
Defined.

Lemma markets_query_witness :
  URL_searchParams "/api/v1/info/markets" = [] /\
  exists d url,
    invocations
      (markets (Some {| args_market :=
                          Some (ManyMarkets ["BTC-USD"; "ETH-USD"]) |}) None)
    = [d] /\
    build_url (constructor None) d = Some url /\
    searchParams url = [("market", "BTC-USD"); ("market", "ETH-USD")].
Proof.
  split; [reflexivity|].
  destruct (markets_query (P := Example.platform) (constructor None)
              (Some {| args_market :=
                         Some (ManyMarkets ["BTC-USD"; "ETH-USD"]) |})
              None (@eq_refl _ [])) as [d [Hd [_ Hurl]]].
  exists d.
  destruct (build_url (constructor None) d) as [url|] eqn:E.
  - exists url. split; [exact Hd|]. split; [reflexivity|].
    exact (proj2 (Hurl url eq_refl)).
  - exfalso.
    assert (Hbase :
              URL_canParse (url_reference d) (baseUrl (constructor None))
              = true) by reflexivity.
    unfold build_url in E. rewrite Hbase in E. discriminate E.
Defined.

Lemma validated_response_unwraps_witness :
  In candles_endpoint (endpoints markets_module) /\
  safeParse GetCandlesHistoryResponseSchema
    (VObj [("status", VStr "OK"); ("data", VArr [])])
  = Some (Success (VObj [("status", VStr "OK"); ("data", VArr [])])) /\
  ((exists dat dat',
       unwrap (VObj [("status", VStr "OK"); ("data", VArr [])])
       = Resolved dat /\
       parse (z_array CandleSchema) dat = Valid dat') \/
   (exists code message c,
       unwrap (VObj [("status", VStr "OK"); ("data", VArr [])])
       = Rejected (Error ("API Error: " ++ code ++ " - " ++ message)%string)
       /\ parse GeneralErrorCodeSchema (VStr code) = Valid c)).
Proof.
  assert (Hin : In candles_endpoint (endpoints markets_module)).
  { do 4 right. left. reflexivity. }
  split; [exact Hin|]. split; [reflexivity|].
  exact (validated_response_unwraps markets_module candles_endpoint
           (VObj [("status", VStr "OK"); ("data", VArr [])]) _ Hin eq_refl).
Defined.

Lemma validated_funding_response_unwraps_witness :
  safeParse GetFundingResponseSchema two_rates = Some (Success two_rates) /\
  ((exists items pag pag',
       unwrap_funding two_rates
       = Resolved {| data := VArr items; pagination := pag |} /\
       parse PaginationSchema pag = Valid pag' /\
       (forall props,
           two_rates = VObj props -> has "pagination" props = false ->
           pag = VObj [("cursor", VNum (of_Z 0));
                       ("count",
                        VNum (of_Z (Z.of_nat (List.length items))))]))
   \/
   (exists code message,
       unwrap_funding two_rates
       = Rejected (Error ("API Error: " ++ code ++ " - " ++ message)%string)
       /\
       In code ["BAD_REQUEST"; "UNAUTHORIZED"; "FORBIDDEN"; "NOT_FOUND";
                "UNPROCESSABLE_ENTITY"; "INTERNAL_SERVER_ERROR"])).
Proof.
  split; [reflexivity|].
  exact (validated_funding_response_unwraps two_rates two_rates eq_refl).
Defined.

Lemma parsed_envelope_keys_are_declared_witness :
  In candles_endpoint (endpoints stats_module) /\
  safeParse GetCandlesHistoryResponseSchema
    (VObj [("status", VStr "OK"); ("data", VArr []); ("extra", VNull)])
  = Some (Success (VObj [("status", VStr "OK"); ("data", VArr [])])) /\
  exists fields,
    VObj [("status", VStr "OK"); ("data", VArr [])] = VObj fields /\
    forall key,
      In key (map fst fields) ->
      In key ["status"; "data"; "pagination"; "error"].
Proof.
  assert (Hin : In candles_endpoint (endpoints stats_module)).
  { do 4 right. left. reflexivity. }
  split; [exact Hin|]. split; [reflexivity|].
  exact (parsed_envelope_keys_are_declared stats_module candles_endpoint
           (VObj [("status", VStr "OK"); ("data", VArr []);
                  ("extra", VNull)]) _ Hin eq_refl).
Defined.

Lemma stats_with_deleverage_refines_stats_witness :
  parse MarketStatsWithDeleverageSchema btc_stats = Valid btc_stats /\
  exists out', parse MarketStatsSchema btc_stats = Valid out'.
Proof.
  split; [reflexivity|].
  exact (proj1 (stats_with_deleverage_refines_stats btc_stats btc_stats
                  eq_refl)).
Defined.

Lemma deleverage_level_bounds_witness :
  field "level" adl_level = VNum (of_Z 3) /\
  ((1 <= 3 <= 4)%Z /\
   exists r, field "rankingLowerBound" adl_level = VStr r) /\
  exists out, parse DeleverageLevel (VObj adl_level) = Valid out.
Proof.
  assert (H : (1 <= 3 <= 4)%Z /\
              exists r, field "rankingLowerBound" adl_level = VStr r).
  { split; [split; discriminate | eexists; reflexivity]. }
  split; [reflexivity|]. split; [exact H|].
  exact (proj2 (proj1 (deleverage_level_bounds adl_level) 3%Z eq_refl) H).
Defined.

Lemma error_codes_let_through_witness :
  (In GetCandlesHistoryResponseSchema
     [GetCandlesHistoryResponseSchema; GetFundingResponseSchema;
      GetOpenInterestResponseSchema] /\
   ~ In "MarketNotFound"
       ["BAD_REQUEST"; "UNAUTHORIZED"; "FORBIDDEN"; "NOT_FOUND";
        "UNPROCESSABLE_ENTITY"; "INTERNAL_SERVER_ERROR"] /\
   safeParse GetCandlesHistoryResponseSchema
     (VObj [("status", VStr "ERROR");
            ("error", VObj [("code", VStr "MarketNotFound");
                            ("message", VStr "Market not found")])])
   = Some Failure) /\
  safeParse (GetMarketStatsResponseSchema markets_module)
    (VObj [("status", VStr "ERROR");
           ("error", VObj [("code", VStr "MarketNotFound");
                           ("message", VStr "Market not found")])])
  = None.
Proof.
  assert (Hin : In GetCandlesHistoryResponseSchema
                  [GetCandlesHistoryResponseSchema; GetFundingResponseSchema;
                   GetOpenInterestResponseSchema])
    by (left; reflexivity).
  assert (Hnot : ~ In "MarketNotFound"
                     ["BAD_REQUEST"; "UNAUTHORIZED"; "FORBIDDEN"; "NOT_FOUND";
                      "UNPROCESSABLE_ENTITY"; "INTERNAL_SERVER_ERROR"]).
  { simpl. intros [H | [H | [H | [H | [H | [H | []]]]]]]; discriminate H. }
  split.
  - split; [exact Hin|]. split; [exact Hnot|].
    exact (proj2 (proj2 (proj1 (error_codes_let_through markets_module
                                  GetCandlesHistoryResponseSchema
                                  "MarketNotFound" "Market not found") Hin))
             Hnot).
  - exact (proj2 (proj2 (error_codes_let_through markets_module
                           GetCandlesHistoryResponseSchema
                           "MarketNotFound" "Market not found"))).
Defined.

Lemma envelope_type_errors_witness :
  (get (VObj [("status", VStr "ERROR")]) "error" = Some VUndefined /\
   unwrap (VObj [("status", VStr "ERROR")]) = Rejected TypeError) /\
  (unprintable (VObj [("toString", VNull)]) /\
   unwrap (VObj [("status", VStr "ERROR");
                 ("error", VObj [("code", VObj [("toString", VNull)]);
                                 ("message", VStr "no such market")])])
   = Rejected TypeError) /\
  (truthy VUndefined = false /\
   unwrap_funding (VObj [("status", VStr "OK")]) = Rejected TypeError).
Proof.
  assert (Hcode : unprintable (VObj [("toString", VNull)]))
    by (apply (unprintable_object _ VNull); reflexivity).
  split; [|split].
  - split; [reflexivity|].
    apply (proj2 (proj1 (envelope_type_errors
                           (VObj [("status", VStr "ERROR")])))).
    right. split; [reflexivity|]. exists VUndefined.
    split; [reflexivity | left; reflexivity].
  - split; [exact Hcode|].
    apply (proj2 (proj1 (envelope_type_errors
                           (VObj [("status", VStr "ERROR");
                                  ("error",
                                   VObj [("code", VObj [("toString", VNull)]);
                                         ("message",
                                          VStr "no such market")])])))).
    right. split; [reflexivity|]. eexists. split; [reflexivity|].
    right. right. exists (VObj [("toString", VNull)]), (VStr "no such market").
    split; [reflexivity|]. split; [reflexivity|]. left. exact Hcode.
  - split; [reflexivity|].
    apply (proj2 (proj2 (envelope_type_errors
                           (VObj [("status", VStr "OK")])))).
    right. right. split; [reflexivity|]. exists VUndefined, VUndefined.
    split; [reflexivity|]. split; [reflexivity|].
    split; [reflexivity | left; reflexivity].
Defined.


Lemma apply_path_params_absent_witness :
  (forall key v,
      In (key, v) [("market", PStr "BTC-USD")] ->
      Str.includes ("{" ++ key ++ "}")%string "info/markets" = false) /\
  apply_path_params "info/markets" [("market", PStr "BTC-USD")]
  = "info/markets".
Proof.
  assert (H : forall key v,
             In (key, v) [("market", PStr "BTC-USD")] ->
             Str.includes ("{" ++ key ++ "}")%string "info/markets" = false).
  { intros key v [Heq | []]. inversion Heq. reflexivity. }
  split; [exact H|].
  exact (apply_path_params_absent "info/markets"
           [("market", PStr "BTC-USD")] H).
Defined.

End MoreExamples.
